(** * CD / HYSA ladder projection: a shallow embedding of
      [src/utils/projectionLogic.js] and the properties of its specification.

    Conventions of the embedding.
    - A JavaScript number that carries money or a rate is an exact rational
      ([Q]); calendar years and month counts that the code obtains from
      [getFullYear] / [getMonth] are integers ([Z]).  Where rounding
      decides a property, the lines concerned are repeated on IEEE 754
      doubles in the module [Doubles].
    - A value that the code tests with [typeof x !== 'number'], [!x] or
      [isNaN] is an [option]: [None] is the "missing / not a number" case.
    - A JavaScript object used as a dictionary (the rate table, the scenario
      table, a scenario's adjustments) is an association list searched by
      key, which holds the entries written in the table.  [obj[key]] also
      finds the properties inherited from [Object.prototype]
      ([inheritedKeys]): [getRateForYearResult] follows the resolver on
      those keys too, and [getRateForYear], which the year loop uses, is
      the number it returns on every other key.
    - [console.warn] / [console.error] do not change any returned value and
      are left out; a [throw] is the [Thrown] outcome.
    - [Math.pow] and the date parser are library code: the power function is
      a parameter of the development and dates arrive already parsed. *)

From Stdlib Require Import QArith Qminmax Qround Qabs Qpower.
From Stdlib Require Import ZArith List String Ascii Bool Lia Lqa.
From Stdlib Require Import DecimalString DecimalNat.
From Stdlib Require PrimFloat.
Import ListNotations.

Open Scope string_scope.
Open Scope Q_scope.

(* ------------------------------------------------------------------ *)
(** ** JavaScript helpers *)

(** [obj[key]] on a dictionary literal: the first entry with that key. *)
Fixpoint lookup {A : Type} (key : string) (obj : list (string * A)) : option A :=
  match obj with
  | [] => None
  | (k, v) :: rest => if String.eqb key k then Some v else lookup key rest
  end.

(** [a ?? b] *)
Definition nullish {A : Type} (a : option A) (b : A) : A :=
  match a with Some x => x | None => b end.

(** [Number(x) || 0] for a field that may hold a non-number. *)
Definition numberOr0 (x : option Q) : Q := nullish x 0.

(** [s || dflt] on an optional string: the empty string is falsy too. *)
Definition strOr (s : option string) (dflt : string) : string :=
  match s with
  | None => dflt
  | Some x => if String.eqb x "" then dflt else x
  end.

(** [x < y] and [x > y] on numbers, as booleans. *)
Definition Qltb (x y : Q) : bool := negb (Qle_bool y x).
Definition Qgtb (x y : Q) : bool := Qltb y x.

(** [Math.trunc]: what date-fns applies to a fractional month amount. *)
Definition Qtrunc (q : Q) : Z :=
  if Qle_bool 0 q then Qfloor q else Qceiling q.

(** Decimal rendering of a counter inside a template string. *)
Definition natToString (n : nat) : string :=
  NilEmpty.string_of_uint (Nat.to_uint n).

(** [Math.min(...l)] and [Math.max(...l)] over a non-empty spread. *)
Definition minOf (first : Z) (rest : list Z) : Z := fold_left Z.min rest first.
Definition maxOf (first : Z) (rest : list Z) : Z := fold_left Z.max rest first.
Definition QmaxOf (first : Q) (rest : list Q) : Q := fold_left Qmax rest first.

(** [arr.reduce((sum, x) => sum + f(x), 0)] *)
Definition sumBy {A : Type} (f : A -> Q) (arr : list A) : Q :=
  fold_left (fun sum x => sum + f x) arr 0.

(* ------------------------------------------------------------------ *)
(** ** Dates

    The code only ever reads [getFullYear()] and [getMonth()] of a date and
    moves dates with [addMonths]; [addMonths] clamps the day to the last day
    of the target month, so the day never changes the year or the month of
    the result.  A date is therefore kept at month resolution, as a count
    of months: this makes every date valid by construction (month index
    between 0 and 11). *)

Record JsDate : Type := { absMonth : Z }.

Definition mkDate (y : Z) (month0 : Z) : JsDate := {| absMonth := 12 * y + month0 |}.
Definition getFullYear (d : JsDate) : Z := (absMonth d / 12)%Z.
Definition getMonth (d : JsDate) : Z := (absMonth d mod 12)%Z.
Definition addMonths (d : JsDate) (amount : Q) : JsDate :=
  {| absMonth := absMonth d + Qtrunc amount |}.

(* ------------------------------------------------------------------ *)
(** ** Rate table and rate scenarios *)

Record RateInfo : Type := {
  apy : option Q;        (* [None]: [typeof apy !== 'number'] *)
  duration : option Q    (* [None]: [null] or not a number (the HYSA row) *)
}.

Definition RateTable : Type := list (string * RateInfo).

(** The timing fields of a scenario that adjusts rates. *)
Record ScenarioRule : Type := {
  targetYearStartEffect : Z;
  targetYearFullEffect : Z;
  floor : Q;
  adjustments : list (string * Q)
}.

(** An entry of [RATE_SCENARIOS]: the baseline entry has a label and a
    description only. *)
Record ScenarioConfig : Type := {
  label : string;
  description : string;
  rule : option ScenarioRule
}.

Definition cdAdjustments (hysa cd : Q) : list (string * Q) :=
  [ ("HYSA", hysa); ("6m", cd); ("9m", cd); ("12m", cd); ("18m", cd);
    ("24m", cd); ("30m", cd); ("36m", cd); ("48m", cd); ("60m", cd) ].

Definition ratesFallModerately : ScenarioRule := {|
  targetYearStartEffect := 2;
  targetYearFullEffect := 3;
  floor := 1 # 4;
  adjustments := cdAdjustments (- (1 # 2)) (- (3 # 4))
|}.

Definition ratesFallSignificantly : ScenarioRule := {|
  targetYearStartEffect := 1;
  targetYearFullEffect := 2;
  floor := 1 # 10;
  adjustments := cdAdjustments (- (3 # 2)) (- 2)
|}.

Definition RATE_SCENARIOS : list (string * ScenarioConfig) :=
  [ ("ratesStayHigh",
     {| label := "Rates Stay High (Baseline)";
        description := "Assumes current rates persist indefinitely.";
        rule := None |});
    ("ratesFallModerately",
     {| label := "Rates Fall Moderately";
        description := "Assumes HYSA rates drop 0.5% and new CD yields drop 0.75% after Year 1, repeating in Year 3.";
        rule := Some ratesFallModerately |});
    ("ratesFallSignificantly",
     {| label := "Rates Fall Significantly";
        description := "A more aggressive drop in rates after Year 1 and Year 3.";
        rule := Some ratesFallSignificantly |}) ].

(** [baseRates[termKey]] followed by the test
    [!baseRateInfo || typeof baseRateInfo.apy !== 'number']. *)
Definition baseApyOf (baseRates : RateTable) (termKey : string) : option Q :=
  match lookup termKey baseRates with
  | None => None
  | Some info => apy info
  end.

(** [scenarioKey === 'ratesStayHigh' || !scenarioKey] *)
Definition isBaselineKey (scenarioKey : option string) : bool :=
  match scenarioKey with
  | None => true
  | Some k => String.eqb k "ratesStayHigh" || String.eqb k ""
  end.

(** Lines 87-109 of [getRateForYear]: the part that runs once a scenario
    with a rule has been found, for a term key that is not one of
    [inheritedKeys] (for those see [scenarioRateResult]). *)
Definition scenarioRate (cfg : ScenarioRule) (termKey : string)
    (baseApy : Q) (year startYear : Z) : Q :=
  let adjustment :=
    nullish (lookup termKey (adjustments cfg))
            (nullish (lookup "HYSA" (adjustments cfg)) 0) in
  let targetApy := baseApy + adjustment in
  let yearsElapsed := (year - startYear)%Z in
  let startEffectElapsed := (targetYearStartEffect cfg - 1)%Z in
  let fullEffectElapsed := (targetYearFullEffect cfg - 1)%Z in
  let adjustmentDuration := (fullEffectElapsed - startEffectElapsed)%Z in
  let currentApy :=
    if (fullEffectElapsed <=? yearsElapsed)%Z then targetApy
    else if (startEffectElapsed <=? yearsElapsed)%Z && (0 <? adjustmentDuration)%Z then
      let progress :=
        inject_Z (yearsElapsed - startEffectElapsed + 1)
        / inject_Z (adjustmentDuration + 1) in
      baseApy + (targetApy - baseApy) * progress
    else baseApy in
  Qmax (floor cfg) currentApy.

(** The number that [getRateForYear] returns when neither the scenario key
    nor the term key is one of [inheritedKeys]; [getRateForYearResult]
    below follows the function on every key. *)
Definition getRateForYear (termKey : string) (year : Z)
    (scenarioKey : option string) (baseRates : RateTable) (startYear : Z) : Q :=
  match baseApyOf baseRates termKey with
  | None => 0
  | Some baseApy =>
      if isBaselineKey scenarioKey then baseApy
      else
        match scenarioKey with
        | None => baseApy
        | Some k =>
            match lookup k RATE_SCENARIOS with
            | None => baseApy
            | Some scenarioConfig =>
                if String.eqb k "ratesStayHigh" then baseApy
                else
                  match rule scenarioConfig with
                  | Some cfg => scenarioRate cfg termKey baseApy year startYear
                  | None => baseApy  (* only the baseline entry has no rule *)
                  end
            end
        end
  end.

(** *** The resolver on inherited property names *)

(** Property names that every object literal inherits from
    [Object.prototype]: [obj[key]] finds them although the literal has no
    such entry, so [lookup] stands for [obj[key]] for every other key. *)
Definition inheritedKeys : list string :=
  [ "constructor"; "hasOwnProperty"; "isPrototypeOf"; "propertyIsEnumerable";
    "toLocaleString"; "toString"; "valueOf"; "__proto__";
    "__defineGetter__"; "__defineSetter__"; "__lookupGetter__";
    "__lookupSetter__" ].

Definition isInherited (key : string) : bool :=
  existsb (String.eqb key) inheritedKeys.

(** What a call of [getRateForYear] does: it returns a number, it returns
    [NaN], or it throws a [TypeError]. *)
Inductive RateResult : Type :=
| RateNumber (apy : Q)
| RateNaN
| RateTypeError.

(** Lines 87-109 on every term key.  For a key that [adjustments] only
    inherits, [scenarioConfig.adjustments[termKey]] is a function or an
    object: [??] keeps it, [targetApy = baseApy + adjustment] is a string,
    and [Math.max(floor, currentApy)] is [NaN] as soon as [currentApy]
    is computed from [targetApy]. *)
Definition scenarioRateResult (cfg : ScenarioRule) (termKey : string)
    (baseApy : Q) (year startYear : Z) : RateResult :=
  match lookup termKey (adjustments cfg) with
  | Some _ => RateNumber (scenarioRate cfg termKey baseApy year startYear)
  | None =>
      if isInherited termKey then
        let yearsElapsed := (year - startYear)%Z in
        let startEffectElapsed := (targetYearStartEffect cfg - 1)%Z in
        let fullEffectElapsed := (targetYearFullEffect cfg - 1)%Z in
        let adjustmentDuration := (fullEffectElapsed - startEffectElapsed)%Z in
        if (fullEffectElapsed <=? yearsElapsed)%Z then RateNaN
        else if (startEffectElapsed <=? yearsElapsed)%Z
                && (0 <? adjustmentDuration)%Z then RateNaN
        else RateNumber (Qmax (floor cfg) baseApy)
      else RateNumber (scenarioRate cfg termKey baseApy year startYear)
  end.

(** [getRateForYear] on every scenario key and term key.  For a scenario
    key that [RATE_SCENARIOS] only inherits, [RATE_SCENARIOS[scenarioKey]]
    is truthy and has no [adjustments], so line 88 throws. *)
Definition getRateForYearResult (termKey : string) (year : Z)
    (scenarioKey : option string) (baseRates : RateTable) (startYear : Z)
    : RateResult :=
  match baseApyOf baseRates termKey with
  | None => RateNumber 0
  | Some baseApy =>
      if isBaselineKey scenarioKey then RateNumber baseApy
      else
        match scenarioKey with
        | None => RateNumber baseApy
        | Some k =>
            match lookup k RATE_SCENARIOS with
            | None => if isInherited k then RateTypeError else RateNumber baseApy
            | Some scenarioConfig =>
                if String.eqb k "ratesStayHigh" then RateNumber baseApy
                else
                  match rule scenarioConfig with
                  | Some cfg => scenarioRateResult cfg termKey baseApy year startYear
                  | None => RateNumber baseApy
                  end
            end
        end
  end.

(** The rate table of the application ([DEFAULT_INTEREST_RATES]). *)
Definition DEFAULT_INTEREST_RATES : RateTable :=
  let cd (months : Z) (a : Q) :=
    {| apy := Some a; duration := Some (inject_Z months) |} in
  [ ("HYSA", {| apy := Some (18 # 5); duration := None |});
    ("6m", cd 6%Z (19 # 5)); ("9m", cd 9%Z (19 # 5)); ("12m", cd 12%Z 4);
    ("18m", cd 18%Z (37 # 10)); ("24m", cd 24%Z (7 # 2)); ("30m", cd 30%Z (7 # 2));
    ("36m", cd 36%Z (7 # 2)); ("48m", cd 48%Z (7 # 2)); ("60m", cd 60%Z (7 # 2)) ].

(* ------------------------------------------------------------------ *)
(** ** Inputs and outputs of [calculateProjections] *)

(** A row of the [tranches] input. *)
Record TrancheRow : Type := {
  row_id : option string;
  row_term : string;
  row_amount : option Q;               (* [None]: [Number(amount)] is NaN *)
  row_reinvestmentOption : option string;
  row_reinvestmentTerm : option string
}.

(** A row of the [withdrawals] input; [w_date] is [parseDateString(w.date)]. *)
Record Withdrawal : Type := {
  w_date : option JsDate;
  w_amount : option Q
}.

Record Inputs : Type := {
  (* [None]: missing or empty; [Some None]: a string that does not parse *)
  investmentStartDate : option (option JsDate);
  lumpSum : option Q;                  (* [None]: missing or NaN *)
  taxRate : option Q;                  (* percent; [None]: missing or NaN *)
  tranches : option (list TrancheRow);
  withdrawals : option (list Withdrawal);
  interestRates : option RateTable;
  rateScenario : option string         (* [None]: the default applies *)
}.

(** A processed tranche.  The fields that the HYSA object does not have
    are optional. *)
Record Tranche : Type := {
  trancheId : string;
  amount : Q;
  term : string;
  termMonths : option Q;
  maturityDate : option JsDate;
  interestEarned : Q;
  valueAtMaturity : Q;
  isHYSA : bool;
  reinvestmentOption : option string;
  reinvestmentTerm : option string
}.

Record YearRecord : Type := {
  year : Z;
  maturingValue : Q;
  reinvestedValue : Q;
  yearlyInterest : Q;
  interestFromCDs : Q;
  interestFromHYSA : Q;
  taxesDue : Q;
  cashAvailableStart : Q;
  hysaWithdrawalToCoverShortfall : Q;
  withdrawalAmount : Q;
  netCashFlowYear : Q;
  endOfYearCash : Q;
  ongoingCDInvestments : Q;
  endOfYearHysaBalance : Q;
  ongoingInvestmentsTotal : Q;
  totalPortfolioValue : Q;
  hasShortfall : bool;
  yearEndShortfallAmount : Q
}.

Record Totals : Type := {
  totalInterestEarned : Q;
  totalTaxesPaid : Q;
  totalInterestAfterTax : Q;
  finalPortfolioValue : Q
}.

(** The object that [calculateProjections] returns; [totals = None] is the
    empty object [{}] of the early returns. *)
Record ProjectionResult : Type := {
  projectionYears : list YearRecord;
  hasShortfallFlag : bool;
  totals : option Totals;
  error : option string
}.

Inductive Outcome : Type :=
| Returned (result : ProjectionResult)
| Thrown (message : string).

Definition errorResult (message : string) : ProjectionResult :=
  {| projectionYears := []; hasShortfallFlag := false; totals := None;
     error := Some message |}.

(* ------------------------------------------------------------------ *)
(** ** The projection *)

Section Projection.

(** [Math.pow] *)
Variable pow : Q -> Q -> Q.

(** *** Initial tranche processing (the [tranches.map] callback) *)

Definition initTranche (interestRates : RateTable) (parsedStart : JsDate)
    (index : nat) (tranche : TrancheRow) : string + Tranche :=
  let termKey := row_term tranche in
  match baseApyOf interestRates termKey, lookup termKey interestRates with
  | Some rateApy, Some rateInfo =>
      let apy := rateApy / 100 in
      let trancheId := strOr (row_id tranche) (termKey ++ "-" ++ natToString index) in
      let principal := numberOr0 (row_amount tranche) in
      if String.eqb termKey "HYSA" then
        inr {| trancheId := trancheId; amount := principal; term := termKey;
               termMonths := None; maturityDate := None;
               interestEarned := 0; valueAtMaturity := principal;
               isHYSA := true;
               reinvestmentOption := row_reinvestmentOption tranche;
               reinvestmentTerm := row_reinvestmentTerm tranche |}
      else
        match duration rateInfo with
        | None => inl ("Invalid duration for term: " ++ termKey)
        | Some termMonths =>
            if Qle_bool termMonths 0 then
              inl ("Invalid duration for term: " ++ termKey)
            else
              let maturityDate := addMonths parsedStart termMonths in
              let termYears := termMonths / 12 in
              let valueAtMaturity := principal * pow (1 + apy) termYears in
              let interestEarned := valueAtMaturity - principal in
              inr {| trancheId := trancheId; amount := principal; term := termKey;
                     termMonths := Some termMonths;
                     maturityDate := Some maturityDate;
                     interestEarned := interestEarned;
                     valueAtMaturity := valueAtMaturity;
                     isHYSA := false;
                     reinvestmentOption :=
                       Some (strOr (row_reinvestmentOption tranche) "cash");
                     reinvestmentTerm :=
                       Some (strOr (row_reinvestmentTerm tranche) "12m") |}
        end
  | _, _ => inl ("Missing or invalid rate data for term: " ++ termKey)
  end.

(** [tranches.map(...)]: rows are processed in order and the first row
    that throws ends the map. *)
Fixpoint mapTranches (interestRates : RateTable) (parsedStart : JsDate)
    (index : nat) (rows : list TrancheRow) : string + list Tranche :=
  match rows with
  | [] => inr []
  | tranche :: rest =>
      match initTranche interestRates parsedStart index tranche with
      | inl message => inl message
      | inr t =>
          match mapTranches interestRates parsedStart (S index) rest with
          | inl message => inl message
          | inr ts => inr (t :: ts)
          end
      end
  end.

(** *** Year range *)

(** Years of the withdrawals whose date parses. *)
Definition withdrawalYears (ws : list Withdrawal) : list Z :=
  flat_map (fun w => match w_date w with
                     | Some d => [getFullYear d]
                     | None => []
                     end) ws.

Definition maturityYears (ts : list Tranche) : list Z :=
  flat_map (fun t => match maturityDate t with
                     | Some d => [getFullYear d]
                     | None => []
                     end) ts.

(** The elements of the set [allYears], in insertion order. *)
Definition allYears (startYear : Z) (ws : list Withdrawal) (ts : list Tranche) : list Z :=
  startYear :: (withdrawalYears ws ++ maturityYears ts)%list.

Definition minYearOf (years : list Z) : Z :=
  match years with [] => 0%Z | y :: rest => minOf y rest end.

Definition maxKnownEventYearOf (years : list Z) : Z :=
  match years with [] => 0%Z | y :: rest => maxOf y rest end.

Definition maxInitialTerm (ts : list Tranche) : Q :=
  QmaxOf 0 (map (fun t => numberOr0 (termMonths t))
                (filter (fun t => negb (isHYSA t)) ts)).

Definition maxYearOf (startYear : Z) (years : list Z) (ts : list Tranche) : Z :=
  Z.max (maxKnownEventYearOf years)
        (startYear + Qceiling (maxInitialTerm ts / 12) + 5).

(** [for (let y = minYear; y <= maxYear; y++) yearRange.push(y)] *)
Definition yearRange (minYear maxYear : Z) : list Z :=
  map (fun i => (minYear + Z.of_nat i)%Z)
      (seq 0 (Z.to_nat (maxYear - minYear + 1))).

(** *** The yearly loop *)

(** What the loop body reads but never writes. *)
Record Env : Type := {
  env_interestRates : RateTable;
  env_rateScenario : option string;
  env_startYear : Z;
  env_startMonth : Z;
  env_numTaxRate : Q;
  env_withdrawals : list Withdrawal;
  env_hysaTranches : list Tranche
}.

(** The variables that live across iterations of the year loop, together
    with the module-level [reinvestmentCounter]. *)
Record LoopState : Type := {
  cashBalance : Q;
  totalInterestEarnedCumulative : Q;
  totalTaxesPaidCumulative : Q;
  hasShortfallOverall : bool;
  cumulativeShortfall : Q;
  currentHysaBalance : Q;
  activeCdTranches : list Tranche;
  projection : list YearRecord;
  reinvestmentCounter : nat
}.

(** The variables updated by the loop over [activeCdTranches]. *)
Record MaturityAcc : Type := {
  maturingValueTotalThisYear : Q;
  interestFromMaturingCDsThisYear : Q;
  cashFromMaturingThisYear : Q;
  newlyReinvestedTranches : list Tranche;
  hysaValueReinvestedThisYear : Q;
  remainingCdTranches : list Tranche;
  acc_totalInterest : Q;    (* [totalInterestEarnedCumulative] *)
  acc_counter : nat         (* [reinvestmentCounter] *)
}.

Definition startMaturityAcc (totalInterest : Q) (counter : nat) : MaturityAcc :=
  {| maturingValueTotalThisYear := 0; interestFromMaturingCDsThisYear := 0;
     cashFromMaturingThisYear := 0; newlyReinvestedTranches := [];
     hysaValueReinvestedThisYear := 0; remainingCdTranches := [];
     acc_totalInterest := totalInterest; acc_counter := counter |}.

(** [maturingValueTotalThisYear += v; interestFromMaturingCDsThisYear += i;
     totalInterestEarnedCumulative += i] *)
Definition noteMaturing (cd : Tranche) (a : MaturityAcc) : MaturityAcc :=
  {| maturingValueTotalThisYear := maturingValueTotalThisYear a + valueAtMaturity cd;
     interestFromMaturingCDsThisYear := interestFromMaturingCDsThisYear a + interestEarned cd;
     cashFromMaturingThisYear := cashFromMaturingThisYear a;
     newlyReinvestedTranches := newlyReinvestedTranches a;
     hysaValueReinvestedThisYear := hysaValueReinvestedThisYear a;
     remainingCdTranches := remainingCdTranches a;
     acc_totalInterest := acc_totalInterest a + interestEarned cd;
     acc_counter := acc_counter a |}.

(** [cashFromMaturingThisYear += cd.valueAtMaturity] *)
Definition toCash (cd : Tranche) (a : MaturityAcc) : MaturityAcc :=
  {| maturingValueTotalThisYear := maturingValueTotalThisYear a;
     interestFromMaturingCDsThisYear := interestFromMaturingCDsThisYear a;
     cashFromMaturingThisYear := cashFromMaturingThisYear a + valueAtMaturity cd;
     newlyReinvestedTranches := newlyReinvestedTranches a;
     hysaValueReinvestedThisYear := hysaValueReinvestedThisYear a;
     remainingCdTranches := remainingCdTranches a;
     acc_totalInterest := acc_totalInterest a;
     acc_counter := acc_counter a |}.

(** [hysaValueReinvestedThisYear += cd.valueAtMaturity] *)
Definition toHysa (cd : Tranche) (a : MaturityAcc) : MaturityAcc :=
  {| maturingValueTotalThisYear := maturingValueTotalThisYear a;
     interestFromMaturingCDsThisYear := interestFromMaturingCDsThisYear a;
     cashFromMaturingThisYear := cashFromMaturingThisYear a;
     newlyReinvestedTranches := newlyReinvestedTranches a;
     hysaValueReinvestedThisYear := hysaValueReinvestedThisYear a + valueAtMaturity cd;
     remainingCdTranches := remainingCdTranches a;
     acc_totalInterest := acc_totalInterest a;
     acc_counter := acc_counter a |}.

(** [newlyReinvestedTranches.push(newTranche)], after [generateReinvestId]
    has advanced the counter. *)
Definition toNewCd (newTranche : Tranche) (a : MaturityAcc) : MaturityAcc :=
  {| maturingValueTotalThisYear := maturingValueTotalThisYear a;
     interestFromMaturingCDsThisYear := interestFromMaturingCDsThisYear a;
     cashFromMaturingThisYear := cashFromMaturingThisYear a;
     newlyReinvestedTranches := (newlyReinvestedTranches a ++ [newTranche])%list;
     hysaValueReinvestedThisYear := hysaValueReinvestedThisYear a;
     remainingCdTranches := remainingCdTranches a;
     acc_totalInterest := acc_totalInterest a;
     acc_counter := S (acc_counter a) |}.

(** [remainingCdTranches.push(cd)] *)
Definition keepCd (cd : Tranche) (a : MaturityAcc) : MaturityAcc :=
  {| maturingValueTotalThisYear := maturingValueTotalThisYear a;
     interestFromMaturingCDsThisYear := interestFromMaturingCDsThisYear a;
     cashFromMaturingThisYear := cashFromMaturingThisYear a;
     newlyReinvestedTranches := newlyReinvestedTranches a;
     hysaValueReinvestedThisYear := hysaValueReinvestedThisYear a;
     remainingCdTranches := (remainingCdTranches a ++ [cd])%list;
     acc_totalInterest := acc_totalInterest a;
     acc_counter := acc_counter a |}.

(** [`${originalId}-reinvest-${reinvestmentCounter++}`] *)
Definition generateReinvestId (originalId : string) (counter : nat) : string :=
  originalId ++ "-reinvest-" ++ natToString counter.

(** The rate row of a reinvestment term, when it passes
    [!rateInfo || typeof rateInfo.apy !== 'number' ||
     typeof rateInfo.duration !== 'number' || rateInfo.duration <= 0]. *)
Definition reinvestDuration (interestRates : RateTable) (reinvestTermKey : string)
    : option Q :=
  match lookup reinvestTermKey interestRates with
  | None => None
  | Some rateInfo =>
      match apy rateInfo, duration rateInfo with
      | Some _, Some d => if Qle_bool d 0 then None else Some d
      | _, _ => None
      end
  end.

(** [cd.maturityDate && !isNaN(...) && cd.maturityDate.getFullYear() === year] *)
Definition maturesIn (year : Z) (cd : Tranche) : bool :=
  match maturityDate cd with
  | Some d => (getFullYear d =? year)%Z
  | None => false
  end.

(** The [case 'newCD'] arm of the reinvestment switch. *)
Definition reinvestNewCd (env : Env) (year : Z) (cd : Tranche) (a : MaturityAcc)
    : MaturityAcc :=
  let reinvestTermKey := nullish (reinvestmentTerm cd) "" in
  match reinvestDuration (env_interestRates env) reinvestTermKey, maturityDate cd with
  | Some newTermMonths, Some newStartDate =>
      let newApyPercent :=
        getRateForYear reinvestTermKey year (env_rateScenario env)
                       (env_interestRates env) (env_startYear env) in
      let newApy := newApyPercent / 100 in
      let newPrincipal := valueAtMaturity cd in
      let newMaturityDate := addMonths newStartDate newTermMonths in
      let newTermYears := newTermMonths / 12 in
      let newValueAtMaturity := newPrincipal * pow (1 + newApy) newTermYears in
      let newInterestEarned := newValueAtMaturity - newPrincipal in
      toNewCd {| trancheId := generateReinvestId (trancheId cd) (acc_counter a);
                 amount := newPrincipal;
                 term := reinvestTermKey;
                 termMonths := Some newTermMonths;
                 maturityDate := Some newMaturityDate;
                 interestEarned := newInterestEarned;
                 valueAtMaturity := newValueAtMaturity;
                 isHYSA := false;
                 reinvestmentOption := Some "cash";
                 reinvestmentTerm := Some "12m" |} a
  | _, _ => toCash cd a
  end.

(** The body of [for (const cd of activeCdTranches)]. *)
Definition maturityStep (env : Env) (year : Z) (carriedShortfall : Q)
    (a : MaturityAcc) (cd : Tranche) : MaturityAcc :=
  if maturesIn year cd then
    let a1 := noteMaturing cd a in
    if Qgtb carriedShortfall (1 # 100) then toCash cd a1
    else
      let election := nullish (reinvestmentOption cd) "" in
      if String.eqb election "hysa" then
        if (0 <? List.length (env_hysaTranches env))%nat then toHysa cd a1
        else toCash cd a1
      else if String.eqb election "newCD" then reinvestNewCd env year cd a1
      else toCash cd a1
  else keepCd cd a.

Definition maturityPass (env : Env) (st : LoopState) (year : Z) : MaturityAcc :=
  fold_left (maturityStep env year (cumulativeShortfall st))
            (activeCdTranches st)
            (startMaturityAcc (totalInterestEarnedCumulative st)
                              (reinvestmentCounter st)).

(** [hysaTranches.length > 0 && hysaBalanceForInterestCalc > 0] *)
Definition hysaEarns (env : Env) (st : LoopState) : bool :=
  (0 <? List.length (env_hysaTranches env))%nat && Qgtb (currentHysaBalance st) 0.

(** [hysaInterestThisYear] *)
Definition hysaInterestThisYear (env : Env) (st : LoopState) (year : Z) : Q :=
  if hysaEarns env st then
    let currentHysaApyPercent :=
      getRateForYear "HYSA" year (env_rateScenario env)
                     (env_interestRates env) (env_startYear env) in
    let annualRate := currentHysaApyPercent / 100 in
    let interestFactor :=
      if (year =? env_startYear env)%Z
      then inject_Z (12 - env_startMonth env) / 12
      else 1 in
    currentHysaBalance st * annualRate * interestFactor
  else 0.

(** [startingCashForYear] *)
Definition startingCashForYear (st : LoopState) : Q :=
  cashBalance st - cumulativeShortfall st.

(** [totalWithdrawalsThisYear] *)
Definition totalWithdrawalsThisYear (env : Env) (year : Z) : Q :=
  sumBy (fun w => numberOr0 (w_amount w))
        (filter (fun w => match w_date w with
                          | Some d => (getFullYear d =? year)%Z
                          | None => false
                          end) (env_withdrawals env)).

(** [t.maturityDate && ... && t.maturityDate.getFullYear() > year] *)
Definition maturesAfter (year : Z) (t : Tranche) : bool :=
  match maturityDate t with
  | Some d => (year <? getFullYear d)%Z
  | None => false
  end.

(** [totalYearlyInterest] *)
Definition totalYearlyInterest (env : Env) (st : LoopState) (year : Z) : Q :=
  interestFromMaturingCDsThisYear (maturityPass env st year)
  + hysaInterestThisYear env st year.

(** [taxesDueThisYear] *)
Definition taxesDueThisYear (env : Env) (st : LoopState) (year : Z) : Q :=
  totalYearlyInterest env st year * env_numTaxRate env.

(** [cashAvailableThisYear] *)
Definition cashAvailableThisYear (env : Env) (st : LoopState) (year : Z) : Q :=
  startingCashForYear st
  + cashFromMaturingThisYear (maturityPass env st year)
  + hysaInterestThisYear env st year.

(** [netCashFlowBeforeHysaTransfer], before the shortfall check. *)
Definition netCashFlowBeforeHysaTransfer (env : Env) (st : LoopState) (year : Z) : Q :=
  cashAvailableThisYear env st year
  - totalWithdrawalsThisYear env year
  - taxesDueThisYear env st year.

(** [currentHysaBalance] after [currentHysaBalance += hysaValueReinvestedThisYear]. *)
Definition hysaBalanceAfterReinvestment (env : Env) (st : LoopState) (year : Z) : Q :=
  currentHysaBalance st + hysaValueReinvestedThisYear (maturityPass env st year).

(** The four variables that the block "Shortfall Check & HYSA Usage"
    leaves behind. *)
Record Coverage : Type := {
  hysaWithdrawal : Q;        (* [hysaWithdrawalToCoverShortfall] *)
  hysaAfter : Q;             (* [currentHysaBalance] *)
  netCashFlowAfter : Q;      (* [netCashFlowBeforeHysaTransfer] *)
  shortfallAfter : Q         (* [shortfallAmountThisYear] *)
}.

Definition coverShortfall (netCashFlow hysaBalance : Q) : Coverage :=
  let shortfallAmountThisYear :=
    if Qltb netCashFlow 0 then Qabs netCashFlow else 0 in
  if Qgtb shortfallAmountThisYear 0 && Qgtb hysaBalance 0 then
    let withdrawal := Qmin shortfallAmountThisYear hysaBalance in
    {| hysaWithdrawal := withdrawal;
       hysaAfter := hysaBalance - withdrawal;
       netCashFlowAfter := netCashFlow + withdrawal;
       shortfallAfter := shortfallAmountThisYear - withdrawal |}
  else
    {| hysaWithdrawal := 0;
       hysaAfter := hysaBalance;
       netCashFlowAfter := netCashFlow;
       shortfallAfter := shortfallAmountThisYear |}.

(** One iteration of [for (const year of yearRange)]. *)
Definition simulateYear (env : Env) (st : LoopState) (year : Z) : LoopState :=
  let m := maturityPass env st year in
  let activeCds := (remainingCdTranches m ++ newlyReinvestedTranches m)%list in
  let hysaInterest := hysaInterestThisYear env st year in
  let totalInterest :=
    if hysaEarns env st then acc_totalInterest m + hysaInterest
    else acc_totalInterest m in
  let taxes := taxesDueThisYear env st year in
  let totalTaxes := totalTaxesPaidCumulative st + taxes in
  let withdrawalsThisYear := totalWithdrawalsThisYear env year in
  let covered :=
    coverShortfall (netCashFlowBeforeHysaTransfer env st year)
                   (hysaBalanceAfterReinvestment env st year) in
  let endCash := Qmax 0 (netCashFlowAfter covered) in
  let yearEndedWithShortfall := Qgtb (shortfallAfter covered) (1 # 100) in
  let ongoingCDsPrincipal := sumBy amount (filter (maturesAfter year) activeCds) in
  let ongoingInvestmentsPrincipal := ongoingCDsPrincipal + hysaAfter covered in
  let totalPortfolioValueEndOfYear := ongoingInvestmentsPrincipal + endCash in
  {| cashBalance := endCash;
     totalInterestEarnedCumulative := totalInterest;
     totalTaxesPaidCumulative := totalTaxes;
     hasShortfallOverall :=
       if yearEndedWithShortfall then true else hasShortfallOverall st;
     cumulativeShortfall := shortfallAfter covered;
     currentHysaBalance := hysaAfter covered;
     activeCdTranches := activeCds;
     projection :=
       (projection st ++
       [ {| year := year;
            maturingValue := maturingValueTotalThisYear m;
            reinvestedValue :=
              hysaValueReinvestedThisYear m + sumBy amount (newlyReinvestedTranches m);
            yearlyInterest := totalYearlyInterest env st year;
            interestFromCDs := interestFromMaturingCDsThisYear m;
            interestFromHYSA := hysaInterest;
            taxesDue := taxes;
            cashAvailableStart :=
              cashBalance st + cashFromMaturingThisYear m + hysaInterest;
            hysaWithdrawalToCoverShortfall := hysaWithdrawal covered;
            withdrawalAmount := withdrawalsThisYear;
            netCashFlowYear := endCash - cashBalance st;
            endOfYearCash := endCash;
            ongoingCDInvestments := ongoingCDsPrincipal;
            endOfYearHysaBalance := hysaAfter covered;
            ongoingInvestmentsTotal := ongoingInvestmentsPrincipal;
            totalPortfolioValue := totalPortfolioValueEndOfYear;
            hasShortfall := yearEndedWithShortfall;
            yearEndShortfallAmount := shortfallAfter covered |} ])%list;
     reinvestmentCounter := acc_counter m |}.

Definition yearLoop (env : Env) (st : LoopState) (years : list Z) : LoopState :=
  fold_left (simulateYear env) years st.

(** [projection.at(-1)] *)
Definition lastRecord (records : list YearRecord) : option YearRecord :=
  match rev records with
  | [] => None
  | r :: _ => Some r
  end.

(** *** [calculateProjections]

    The function body has three phases, kept apart here so that the
    properties can speak about the state between them: everything before
    the year loop ([prepare]), the year loop ([yearLoop]) and the final
    totals ([finish]). *)

(** What the code has computed when the year loop starts. *)
Record Plan : Type := {
  plan_initialTranches : list Tranche;
  plan_minYear : Z;
  plan_maxYear : Z;
  plan_env : Env;
  plan_start : LoopState
}.

(** Year range and initial balances, from the processed tranches. *)
Definition makePlan (parsedStart : JsDate) (taxRatePercent : Q)
    (ws : list Withdrawal) (rates : RateTable) (scenario : option string)
    (initialTranches : list Tranche) (counter : nat) : Plan :=
  let startYear := getFullYear parsedStart in
  let startMonth := getMonth parsedStart in
  let numTaxRate := taxRatePercent / 100 in
  let years := allYears startYear ws initialTranches in
  let hysaTranches := filter isHYSA initialTranches in
  let initialHysaBalance := sumBy amount hysaTranches in
  {| plan_initialTranches := initialTranches;
     plan_minYear := minYearOf years;
     plan_maxYear := maxYearOf startYear years initialTranches;
     plan_env :=
       {| env_interestRates := rates;
          (* default parameter value: [rateScenario = 'ratesStayHigh'] *)
          env_rateScenario := Some (nullish scenario "ratesStayHigh");
          env_startYear := startYear;
          env_startMonth := startMonth;
          env_numTaxRate := numTaxRate;
          env_withdrawals := ws;
          env_hysaTranches := hysaTranches |};
     plan_start :=
       {| cashBalance := 0;
          totalInterestEarnedCumulative := 0;
          totalTaxesPaidCumulative := 0;
          hasShortfallOverall := false;
          cumulativeShortfall := 0;
          currentHysaBalance := initialHysaBalance;
          activeCdTranches := filter (fun t => negb (isHYSA t)) initialTranches;
          projection := [];
          reinvestmentCounter := counter |} |}.

(** Input validation, initial tranche processing, year range and initial
    balances.  [inl] is an early [return] or a [throw]. *)
Definition prepare (input : Inputs) (counter : nat) : Outcome + Plan :=
  match investmentStartDate input, lumpSum input, taxRate input,
        tranches input, withdrawals input, interestRates input with
  | Some parsed, Some numLumpSum, Some taxRatePercent,
    Some rows, Some ws, Some rates =>
      match parsed with
      | None => inl (Returned (errorResult "Invalid Investment Start Date"))
      | Some parsedStart =>
          match mapTranches rates parsedStart 0 rows with
          | inl message => inl (Thrown message)
          | inr initialTranches =>
              match allYears (getFullYear parsedStart) ws initialTranches with
              | [] => inl (Returned {| projectionYears := [];
                                       hasShortfallFlag := false;
                                       totals := None; error := None |})
              | _ => inr (makePlan parsedStart taxRatePercent ws rates
                                   (rateScenario input) initialTranches counter)
              end
          end
      end
  | _, _, _, _, _, _ =>
      inl (Returned (errorResult
             "Missing or invalid required inputs (Date, Lump Sum, Tax Rate)"))
  end.

Definition plan_years (plan : Plan) : list Z :=
  yearRange (plan_minYear plan) (plan_maxYear plan).

(** Final totals and the returned object. *)
Definition finish (plan : Plan) (final : LoopState) : ProjectionResult :=
  let initialTranches := plan_initialTranches plan in
  let initialHysaBalance := sumBy amount (filter isHYSA initialTranches) in
  let finalTotals :=
    {| totalInterestEarned := totalInterestEarnedCumulative final;
       totalTaxesPaid := totalTaxesPaidCumulative final;
       totalInterestAfterTax :=
         totalInterestEarnedCumulative final - totalTaxesPaidCumulative final;
       finalPortfolioValue :=
         match lastRecord (projection final) with
         | Some r => totalPortfolioValue r
         | None =>
             initialHysaBalance
             + sumBy amount (filter (fun t => negb (isHYSA t)) initialTranches)
         end |} in
  {| projectionYears := projection final;
     hasShortfallFlag := hasShortfallOverall final;
     totals := Some finalTotals;
     error := None |}.

(** The second argument is the value of the module-level
    [reinvestmentCounter] when the call starts; the second component of the
    result is its value when the call ends. *)
Definition calculateProjections (input : Inputs) (counter : nat) : Outcome * nat :=
  match prepare input counter with
  | inl outcome => (outcome, counter)
  | inr plan =>
      let final := yearLoop (plan_env plan) (plan_start plan) (plan_years plan) in
      (Returned (finish plan final), reinvestmentCounter final)
  end.

(** The record that the iteration for [year] pushes when it starts from
    [st]. *)
Definition emittedRecord (env : Env) (st : LoopState) (year : Z) : option YearRecord :=
  lastRecord (projection (simulateYear env st year)).

(** The loop state when the iteration for the [i]-th year of the range
    starts (so [stateBefore plan 0] is the initial state). *)
Definition stateBefore (plan : Plan) (i : nat) : LoopState :=
  yearLoop (plan_env plan) (plan_start plan) (firstn i (plan_years plan)).

End Projection.

(* ------------------------------------------------------------------ *)
(** ** Vocabulary of the invariants *)

(** A fixed-term tranche whose maturity value may reach the liquid
    account without lowering it: its value is not negative, or it is held
    as cash at maturity. *)
Definition harmless (cd : Tranche) : Prop :=
  0 <= valueAtMaturity cd \/ reinvestmentOption cd = Some "cash".

Record HarmlessAcc (a : MaturityAcc) : Prop := {
  ha_hysa : 0 <= hysaValueReinvestedThisYear a;
  ha_remaining : Forall harmless (remainingCdTranches a);
  ha_new : Forall harmless (newlyReinvestedTranches a)
}.

(** The liquid balance is not negative, now and in every record so far,
    and no active tranche can make it so. *)
Record LiquidInv (st : LoopState) : Prop := {
  li_balance : 0 <= currentHysaBalance st;
  li_active : Forall harmless (activeCdTranches st);
  li_records : Forall (fun r => 0 <= endOfYearHysaBalance r) (projection st)
}.

(** Two tranches that differ at most in their identifier. *)
Definition withId (newId : string) (t : Tranche) : Tranche :=
  {| trancheId := newId; amount := amount t; term := term t;
     termMonths := termMonths t; maturityDate := maturityDate t;
     interestEarned := interestEarned t; valueAtMaturity := valueAtMaturity t;
     isHYSA := isHYSA t; reinvestmentOption := reinvestmentOption t;
     reinvestmentTerm := reinvestmentTerm t |}.

Definition sameButId (t t' : Tranche) : Prop := exists newId, t' = withId newId t.

(** Two runs of the loop over the maturing CDs that agree on everything
    but tranche identifiers and the identifier counter. *)
Record SameAcc (a a' : MaturityAcc) : Prop := {
  sa_maturing : maturingValueTotalThisYear a = maturingValueTotalThisYear a';
  sa_interest : interestFromMaturingCDsThisYear a = interestFromMaturingCDsThisYear a';
  sa_cash : cashFromMaturingThisYear a = cashFromMaturingThisYear a';
  sa_new : Forall2 sameButId (newlyReinvestedTranches a) (newlyReinvestedTranches a');
  sa_hysa : hysaValueReinvestedThisYear a = hysaValueReinvestedThisYear a';
  sa_remaining : Forall2 sameButId (remainingCdTranches a) (remainingCdTranches a');
  sa_total : acc_totalInterest a = acc_totalInterest a'
}.

(** Two loop states that agree on everything but tranche identifiers and
    the identifier counter. *)
Record SameState (st st' : LoopState) : Prop := {
  ss_cash : cashBalance st = cashBalance st';
  ss_interest : totalInterestEarnedCumulative st = totalInterestEarnedCumulative st';
  ss_taxes : totalTaxesPaidCumulative st = totalTaxesPaidCumulative st';
  ss_flag : hasShortfallOverall st = hasShortfallOverall st';
  ss_shortfall : cumulativeShortfall st = cumulativeShortfall st';
  ss_hysa : currentHysaBalance st = currentHysaBalance st';
  ss_active : Forall2 sameButId (activeCdTranches st) (activeCdTranches st');
  ss_projection : projection st = projection st'
}.

(** *** Comparing a baseline run with a rate-fall run *)

(** The same inputs with another scenario selected. *)
Definition withScenario (scenario : option string) (input : Inputs) : Inputs :=
  {| investmentStartDate := investmentStartDate input;
     lumpSum := lumpSum input;
     taxRate := taxRate input;
     tranches := tranches input;
     withdrawals := withdrawals input;
     interestRates := interestRates input;
     rateScenario := scenario |}.

Definition envWithScenario (scenario : option string) (env : Env) : Env :=
  {| env_interestRates := env_interestRates env;
     env_rateScenario := scenario;
     env_startYear := env_startYear env;
     env_startMonth := env_startMonth env;
     env_numTaxRate := env_numTaxRate env;
     env_withdrawals := env_withdrawals env;
     env_hysaTranches := env_hysaTranches env |}.

(** Cash less the carried shortfall, plus the liquid balance. *)
Definition netPosition (st : LoopState) : Q :=
  cashBalance st - cumulativeShortfall st + currentHysaBalance st.

Definition maturingInterest (year : Z) (cds : list Tranche) : Q :=
  sumBy (fun cd => if maturesIn year cd then interestEarned cd else 0) cds.

Definition maturingTotal (year : Z) (cds : list Tranche) : Q :=
  sumBy (fun cd => if maturesIn year cd then valueAtMaturity cd else 0) cds.

Definition maturingPrincipal (year : Z) (cds : list Tranche) : Q :=
  sumBy (fun cd => if maturesIn year cd then amount cd else 0) cds.

(* ------------------------------------------------------------------ *)
(** ** Concrete inputs used by the examples *)

(** [Math.pow] for the examples: exact when the exponent is a whole number
    (every example uses terms of whole years), where it is repeated
    multiplication. *)
Definition powWhole (b e : Q) : Q := Qpower b (Qfloor e).

Definition cdRow (termKey : string) (principal : Q) (election : string) : TrancheRow :=
  {| row_id := None; row_term := termKey; row_amount := Some principal;
     row_reinvestmentOption := Some election; row_reinvestmentTerm := Some "12m" |}.

Definition withdrawalOn (y month0 : Z) (value : Q) : Withdrawal :=
  {| w_date := Some (mkDate y month0); w_amount := Some value |}.

(** Start date 2024-01, a 25% tax rate and the default rate table. *)
Definition inputsWith (rows : list TrancheRow) (ws : list Withdrawal)
    (rates : RateTable) (scenario : option string) : Inputs :=
  {| investmentStartDate := Some (Some (mkDate 2024 0));
     lumpSum := Some (sumBy (fun r => numberOr0 (row_amount r)) rows);
     taxRate := Some 25;
     tranches := Some rows;
     withdrawals := Some ws;
     interestRates := Some rates;
     rateScenario := scenario |}.

(** One 12-month CD of 1000 held as cash at maturity, and a withdrawal of
    100 in the first year, when no cash is available yet. *)
Definition earlyWithdrawalInputs : Inputs :=
  inputsWith [cdRow "12m" 1000 "cash"] [withdrawalOn 2024 5 100]
             DEFAULT_INTEREST_RATES None.

(** The same ladder with a row whose term the rate table does not have. *)
Definition unknownTermInputs : Inputs :=
  inputsWith [cdRow "12m" 1000 "cash"; cdRow "99m" 500 "cash"] []
             DEFAULT_INTEREST_RATES None.

(** A withdrawal dated four years before the portfolio starts. *)
Definition pastWithdrawalInputs : Inputs :=
  inputsWith [cdRow "12m" 1000 "cash"] [withdrawalOn 2020 2 100]
             DEFAULT_INTEREST_RATES None.

(** A rate table whose 12-month APY is -300%. *)
Definition collapseRates : RateTable :=
  [ ("HYSA", {| apy := Some (18 # 5); duration := None |});
    ("12m", {| apy := Some (- 300); duration := Some 12 |}) ].

(** An empty liquid account that receives a maturing 12-month CD. *)
Definition collapseInputs : Inputs :=
  inputsWith [cdRow "HYSA" 0 "cash"; cdRow "12m" 100 "hysa"] []
             collapseRates None.

(** The plan that [prepare] builds for an example input (an input that
    does not reach the year loop gets an empty plan). *)
Definition examplePlan (input : Inputs) : Plan :=
  match prepare powWhole input 0 with
  | inr plan => plan
  | inl _ =>
      {| plan_initialTranches := []; plan_minYear := 1; plan_maxYear := 0;
         plan_env := {| env_interestRates := []; env_rateScenario := None;
                        env_startYear := 0; env_startMonth := 0;
                        env_numTaxRate := 0; env_withdrawals := [];
                        env_hysaTranches := [] |};
         plan_start := {| cashBalance := 0; totalInterestEarnedCumulative := 0;
                          totalTaxesPaidCumulative := 0;
                          hasShortfallOverall := false; cumulativeShortfall := 0;
                          currentHysaBalance := 0; activeCdTranches := [];
                          projection := []; reinvestmentCounter := 0 |} |}
  end.


(** The object returned for [earlyWithdrawalInputs]. *)
Definition earlyWithdrawalResult : ProjectionResult :=
  finish (examplePlan earlyWithdrawalInputs)
         (yearLoop powWhole (plan_env (examplePlan earlyWithdrawalInputs))
                   (plan_start (examplePlan earlyWithdrawalInputs))
                   (plan_years (examplePlan earlyWithdrawalInputs))).

(** A ladder with a liquid account of 5000, a 12-month CD of 1000 that
    moves to the liquid account at maturity and a 24-month CD of 2000
    that is reinvested in a new 12-month CD; 3000 are withdrawn in 2026. *)
Definition ladderInputs (scenario : option string) : Inputs :=
  inputsWith [ cdRow "HYSA" 5000 "cash"; cdRow "12m" 1000 "hysa";
               cdRow "24m" 2000 "newCD" ]
             [ withdrawalOn 2026 3 3000 ]
             DEFAULT_INTEREST_RATES scenario.

Definition ladderResult (scenario : option string) : ProjectionResult :=
  finish (examplePlan (ladderInputs scenario))
         (yearLoop powWhole (plan_env (examplePlan (ladderInputs scenario)))
                   (plan_start (examplePlan (ladderInputs scenario)))
                   (plan_years (examplePlan (ladderInputs scenario)))).

(** One 12-month CD held as cash at maturity, nothing else. *)
Definition cashCdInputs (scenario : option string) : Inputs :=
  inputsWith [cdRow "12m" 1000 "cash"] [] DEFAULT_INTEREST_RATES scenario.

(** A liquid account with two CDs that move to it or are held as cash;
    nothing is withdrawn. *)
Definition plainLadderInputs (scenario : option string) : Inputs :=
  inputsWith [ cdRow "HYSA" 5000 "cash"; cdRow "12m" 1000 "hysa";
               cdRow "24m" 2000 "cash" ]
             [] DEFAULT_INTEREST_RATES scenario.

(** A liquid account whose base APY (0.05%) is below the floor of the
    aggressive scenario (0.10%). *)
Definition lowYieldInputs (scenario : option string) : Inputs :=
  inputsWith [cdRow "HYSA" 1000 "cash"] []
             [("HYSA", {| apy := Some (1 # 20); duration := None |})] scenario.

(** A small CD reinvested in a new CD, a large CD that elects the liquid
    account, and a first-year withdrawal that the baseline run can just
    cover and the rate-fall run cannot. *)
Definition blockedReinvestmentInputs (scenario : option string) : Inputs :=
  inputsWith [ cdRow "HYSA" 100 "cash"; cdRow "12m" 100 "newCD";
               cdRow "24m" 100000 "hysa" ]
             [ withdrawalOn 2024 5 (205 # 2) ]
             DEFAULT_INTEREST_RATES scenario.

(* ------------------------------------------------------------------ *)
(** ** Vocabulary of the further properties *)

(** [adjustments[termKey] ?? adjustments['HYSA'] ?? 0], the adjustment that
    [getRateForYear] applies to a term under a scenario rule, for a term
    key that is not one of [inheritedKeys]. *)
Definition adjustmentFor (cfg : ScenarioRule) (termKey : string) : Q :=
  match lookup termKey (adjustments cfg) with
  | Some a => a
  | None => match lookup "HYSA" (adjustments cfg) with
            | Some a => a
            | None => 0
            end
  end.

(** [cd.reinvestmentOption] selects [case 'newCD']. *)
Definition electsNewCd (cd : Tranche) : bool :=
  String.eqb (nullish (reinvestmentOption cd) "") "newCD".

(** A row whose [reinvestmentOption] is ['newCD']. *)
Definition rowElectsNewCd (row : TrancheRow) : bool :=
  String.eqb (nullish (row_reinvestmentOption row) "") "newCD".

(** A tranche created by the [case 'newCD'] arm from the maturing [cd]. *)
Record reinvestedFrom (cd t : Tranche) : Prop := {
  rf_amount : amount t = valueAtMaturity cd;
  rf_election : reinvestmentOption t = Some "cash";
  rf_term : reinvestmentTerm t = Some "12m";
  rf_fixed : isHYSA t = false;
  rf_interest : interestEarned t == valueAtMaturity t - amount t;
  rf_maturity :
    exists started months,
      maturityDate cd = Some started
      /\ termMonths t = Some months
      /\ 0 < months
      /\ maturityDate t = Some (addMonths started months)
}.

(** The accumulator of the CD loop, relative to the accumulator [a0] it
    started from and the tranches [done] it has gone through. *)
Record PassInv (year : Z) (a0 : MaturityAcc) (done : list Tranche)
    (a : MaturityAcc) : Prop := {
  pi_remaining :
    remainingCdTranches a
    = (remainingCdTranches a0
       ++ filter (fun cd => negb (maturesIn year cd)) done)%list;
  pi_total :
    maturingValueTotalThisYear a
    == maturingValueTotalThisYear a0 + maturingTotal year done;
  pi_interest :
    interestFromMaturingCDsThisYear a
    == interestFromMaturingCDsThisYear a0 + maturingInterest year done;
  pi_cumulative :
    acc_totalInterest a == acc_totalInterest a0 + maturingInterest year done;
  pi_split :
    cashFromMaturingThisYear a + hysaValueReinvestedThisYear a
    + sumBy amount (newlyReinvestedTranches a)
    == cashFromMaturingThisYear a0 + hysaValueReinvestedThisYear a0
       + sumBy amount (newlyReinvestedTranches a0) + maturingTotal year done;
  pi_counter :
    (acc_counter a + List.length (newlyReinvestedTranches a0)
     = acc_counter a0 + List.length (newlyReinvestedTranches a))%nat;
  pi_elected :
    (List.length (newlyReinvestedTranches a)
     + List.length (filter electsNewCd
                      (filter (fun cd => negb (maturesIn year cd)) done))
     <= List.length (newlyReinvestedTranches a0)
        + List.length (filter electsNewCd done))%nat;
  pi_new :
    exists created,
      newlyReinvestedTranches a = (newlyReinvestedTranches a0 ++ created)%list
      /\ Forall (fun t => exists cd, In cd done /\ maturesIn year cd = true
                                     /\ reinvestedFrom cd t) created
}.

(** The object returned for an example input that reaches the year loop. *)
Definition resultOf (input : Inputs) : ProjectionResult :=
  finish (examplePlan input)
         (yearLoop powWhole (plan_env (examplePlan input))
                   (plan_start (examplePlan input))
                   (plan_years (examplePlan input))).

(** What the running totals of the loop state are in terms of the records
    pushed so far. *)
Record Summed (env : Env) (st : LoopState) : Prop := {
  sm_interest :
    totalInterestEarnedCumulative st == sumBy yearlyInterest (projection st);
  sm_taxes : totalTaxesPaidCumulative st == sumBy taxesDue (projection st);
  sm_rate :
    totalTaxesPaidCumulative st
    == totalInterestEarnedCumulative st * env_numTaxRate env;
  sm_flag : hasShortfallOverall st = existsb hasShortfall (projection st);
  sm_withdrawals :
    sumBy withdrawalAmount (projection st)
    == sumBy (totalWithdrawalsThisYear env) (map year (projection st))
}.

(** A 12-month CD with three withdrawals: one dated before the start
    year, one without a valid date and one dated two years after the
    start. *)
Definition mixedWithdrawalInputs : Inputs :=
  inputsWith [cdRow "12m" 1000 "cash"]
             [ withdrawalOn 2020 2 100;
               {| w_date := None; w_amount := Some 50 |};
               withdrawalOn 2026 3 200 ]
             DEFAULT_INTEREST_RATES None.

(** The default rate table with a 3-month term added. *)
Definition ratesWithShortTerm : RateTable :=
  (DEFAULT_INTEREST_RATES
   ++ [("3m", {| apy := Some (7 # 2); duration := Some 3 |})])%list.

(** A 12-month CD bought in January 2024 whose value is reinvested, at
    maturity in January 2025, in a 3-month CD. *)
Definition shortReinvestmentInputs : Inputs :=
  inputsWith [ {| row_id := None; row_term := "12m"; row_amount := Some 1000;
                  row_reinvestmentOption := Some "newCD";
                  row_reinvestmentTerm := Some "3m" |} ]
             [] ratesWithShortTerm None.

(** A tranche that elects no new CD and matures in one of the years to
    come. *)
Definition paidWithin (ys : list Z) (cd : Tranche) : Prop :=
  electsNewCd cd = false
  /\ exists d, maturityDate cd = Some d /\ In (getFullYear d) ys.

(** The interest of a tranche is what its value at maturity exceeds its
    principal by. *)
Definition bookedInterest (cd : Tranche) : Prop :=
  interestEarned cd == valueAtMaturity cd - amount cd.

(** Cash less the carried shortfall, plus the liquid balance, plus the
    principal of the active CDs that mature after [year]: the total
    portfolio value of the record of [year], less its shortfall. *)
Definition netWorthAt (year : Z) (st : LoopState) : Q :=
  cashBalance st - cumulativeShortfall st + currentHysaBalance st
  + sumBy amount (filter (maturesAfter year) (activeCdTranches st)).

(** The principal of the CDs created in [year] that mature no later than
    [year]. *)
Definition maturingAtOnce (year : Z) (created : list Tranche) : Q :=
  sumBy amount (filter (fun t => negb (maturesAfter year t)) created).

(* ------------------------------------------------------------------ *)
(** ** Vocabulary of the scenario comparison *)

(** The tranche [c] that the rate-fall run holds where the baseline run
    holds [a].  The two mature on the same date, elect the same and have
    the same principal; [c] is worth no more at maturity than [a], and
    the two values differ by what the two interests differ.  The two can
    differ only when they are held as cash at maturity, and the
    reinvestment term of a tranche that elects a new CD has a base APY at
    or above the floor of the aggressive scenario. *)
Record trancheBehind (rates : RateTable) (a c : Tranche) : Prop := {
  tb_maturity : maturityDate a = maturityDate c;
  tb_election : reinvestmentOption a = reinvestmentOption c;
  tb_amount : amount a = amount c;
  tb_nonneg : 0 <= valueAtMaturity c;
  tb_value : valueAtMaturity c <= valueAtMaturity a;
  tb_booked :
    valueAtMaturity a - interestEarned a == valueAtMaturity c - interestEarned c;
  tb_same : a = c \/ reinvestmentOption a = Some "cash";
  tb_reinvest :
    electsNewCd a = true ->
    forall b, baseApyOf rates (nullish (reinvestmentTerm a) "") = Some b ->
              1 # 10 <= b
}.

(** The accumulators of the CD loop of one year in the two runs. *)
Record AccBehind (rates : RateTable) (aA aC : MaturityAcc) : Prop := {
  ab_remaining :
    Forall2 (trancheBehind rates) (remainingCdTranches aA) (remainingCdTranches aC);
  ab_new :
    Forall2 (trancheBehind rates)
            (newlyReinvestedTranches aA) (newlyReinvestedTranches aC);
  ab_hysa : hysaValueReinvestedThisYear aA == hysaValueReinvestedThisYear aC;
  ab_hysa_nonneg : 0 <= hysaValueReinvestedThisYear aC;
  ab_interest :
    interestFromMaturingCDsThisYear aC <= interestFromMaturingCDsThisYear aA;
  ab_cash :
    cashFromMaturingThisYear aA - cashFromMaturingThisYear aC
    == interestFromMaturingCDsThisYear aA - interestFromMaturingCDsThisYear aC
}.

(** The rate-fall run [sc] is behind the baseline run [sa]: tranche by
    tranche, with no more liquid balance and no more interest; the carried
    shortfall blocks reinvestments in both runs or in neither; the net
    positions differ by the after-tax part of what the interest totals
    differ; and the latest records differ in portfolio value as the net
    positions, floored at zero, do. *)
Record Behind (env : Env) (sa sc : LoopState) : Prop := {
  bh_active :
    Forall2 (trancheBehind (env_interestRates env))
            (activeCdTranches sa) (activeCdTranches sc);
  bh_hysa_nonneg : 0 <= currentHysaBalance sc;
  bh_hysa : currentHysaBalance sc <= currentHysaBalance sa;
  bh_blocked :
    Qgtb (cumulativeShortfall sa) (1 # 100) = Qgtb (cumulativeShortfall sc) (1 # 100);
  bh_interest :
    totalInterestEarnedCumulative sc <= totalInterestEarnedCumulative sa;
  bh_net :
    netPosition sa - netPosition sc
    == (totalInterestEarnedCumulative sa - totalInterestEarnedCumulative sc)
       * (1 - env_numTaxRate env);
  bh_last :
    match lastRecord (projection sa), lastRecord (projection sc) with
    | Some ra, Some rc =>
        totalPortfolioValue ra - totalPortfolioValue rc
        == Qmax 0 (netPosition sa) - Qmax 0 (netPosition sc)
        /\ endOfYearCash ra + endOfYearHysaBalance ra == Qmax 0 (netPosition sa)
    | None, None => True
    | _, _ => False
    end
}.

(** What the interest of [year] is worth more in the baseline run, which
    starts the year in [sa], than in the rate-fall run, which starts it
    in [sc]. *)
Definition interestLead (pow : Q -> Q -> Q) (env : Env) (sa sc : LoopState)
    (year : Z) : Q :=
  interestFromMaturingCDsThisYear
    (maturityPass pow (envWithScenario (Some "ratesStayHigh") env) sa year)
  - interestFromMaturingCDsThisYear
      (maturityPass pow (envWithScenario (Some "ratesFallSignificantly") env)
                    sc year)
  + (hysaInterestThisYear (envWithScenario (Some "ratesStayHigh") env) sa year
     - hysaInterestThisYear
         (envWithScenario (Some "ratesFallSignificantly") env) sc year).

(** [hasShortfall] of the records that the loop pushes for [years] when it
    starts from [st]. *)
Fixpoint shortfallFlags (pow : Q -> Q -> Q) (env : Env) (st : LoopState)
    (years : list Z) : list bool :=
  match years with
  | [] => []
  | y :: rest =>
      Qgtb (cumulativeShortfall (simulateYear pow env st y)) (1 # 100)
      :: shortfallFlags pow env (simulateYear pow env st y) rest
  end.

(** The liquid account, whose base APY exceeds the floor of the aggressive
    scenario, earns interest in one of the [records], in the start year or
    later. *)
Definition earnsLiquidInterest (rates : RateTable) (startYear : Z)
    (records : list YearRecord) : Prop :=
  (exists baseApy, baseApyOf rates "HYSA" = Some baseApy /\ 1 # 10 < baseApy)
  /\ Exists (fun r => (startYear <= year r)%Z /\ 0 < interestFromHYSA r) records.

(** One of the processed tranches [ts] is a CD with a positive value at
    maturity that is reinvested in a new CD, at a term whose base APY
    exceeds the floor of the aggressive scenario: it elects a new CD, no
    shortfall above the tolerance is carried into the year in which it
    matures, and the new CD matures in a later year that has one of the
    [records]; at the new term's length [Math.pow] grows with its base. *)
Definition reinvestsWithin (pow : Q -> Q -> Q) (rates : RateTable)
    (ts : list Tranche) (records : list YearRecord) : Prop :=
  exists t started months baseApy,
    In t ts
    /\ isHYSA t = false
    /\ electsNewCd t = true
    /\ 0 < valueAtMaturity t
    /\ maturityDate t = Some started
    /\ reinvestDuration rates (nullish (reinvestmentTerm t) "") = Some months
    /\ baseApyOf rates (nullish (reinvestmentTerm t) "") = Some baseApy
    /\ 1 # 10 < baseApy
    /\ (getFullYear started < getFullYear (addMonths started months))%Z
    /\ In (getFullYear (addMonths started months)) (map year records)
    /\ (forall r, In r records -> year r = (getFullYear started - 1)%Z ->
          hasShortfall r = false)
    /\ (forall b1 b2, 0 <= b1 -> b1 < b2 ->
          pow b1 (months / 12) < pow b2 (months / 12)).

(** The reinvestment term of a tranche row, as the processed tranche
    carries it. *)
Definition rowReinvestmentTerm (row : TrancheRow) : string :=
  strOr (row_reinvestmentTerm row) "12m".

(** A 12-month CD of 1000 held as cash at maturity (the cash pays the
    taxes of the later years) and a 24-month CD of 2000 that is reinvested
    in a new 12-month CD; no liquid account and no withdrawals. *)
Definition reinvestedCdInputs (scenario : option string) : Inputs :=
  inputsWith [cdRow "12m" 1000 "cash"; cdRow "24m" 2000 "newCD"] []
             DEFAULT_INTEREST_RATES scenario.

(* ------------------------------------------------------------------ *)
(** ** The end of a year on doubles

    Lines 351-433 of the loop body on IEEE 754 binary64 numbers, with the
    operations in the order in which the code writes them, for a year in
    which no CD matures (so nothing is added to the cash, to the liquid
    balance or to the interest by the CD loop).  The arguments are the
    variables that the lines read; [hysaApyPercent] is what
    [getRateForYear('HYSA', ...)] returned. *)
Module Doubles.

Import PrimFloat.
Local Open Scope float_scope.

Definition min (x y : float) : float := if y <? x then y else x.





End Doubles.

(* ------------------------------------------------------------------ *)
(** * Properties *)

(** ** Basic facts about the helpers *)

Lemma Qltb_true (x y : Q) : Qltb x y = true <-> x < y.
Proof.
  unfold Qltb. rewrite negb_true_iff. split; intro H.
  - apply Qnot_le_lt. intro Hle. apply Qle_bool_iff in Hle. congruence.
  - destruct (Qle_bool y x) eqn:E; [|reflexivity].
    apply Qle_bool_iff in E. exfalso. apply (Qlt_not_le _ _ H E).
Qed.

Lemma Qltb_false (x y : Q) : Qltb x y = false <-> y <= x.
Proof.
  unfold Qltb. rewrite negb_false_iff. apply Qle_bool_iff.
Qed.

Lemma Qgtb_true (x y : Q) : Qgtb x y = true <-> y < x.
Proof. apply Qltb_true. Qed.

Lemma Qgtb_false (x y : Q) : Qgtb x y = false <-> x <= y.
Proof. apply Qltb_false. Qed.

(** Division by the constants of the code, as a multiplication that the
    linear-arithmetic tactics accept. *)
Ltac const_div :=
  unfold Qdiv in *;
  change (/ 100) with (1 # 100) in *;
  change (/ 12) with (1 # 12) in *.

(** ** The rate scenario resolver *)

(** The scenarios that carry a rule are exactly the two rate-fall entries. *)
Lemma RATE_SCENARIOS_rule (k : string) (scenarioConfig : ScenarioConfig)
    (cfg : ScenarioRule) :
  lookup k RATE_SCENARIOS = Some scenarioConfig ->
  rule scenarioConfig = Some cfg ->
  (k = "ratesFallModerately" /\ cfg = ratesFallModerately) \/
  (k = "ratesFallSignificantly" /\ cfg = ratesFallSignificantly).
Proof.
  unfold RATE_SCENARIOS. cbn [lookup].
  destruct (String.eqb k "ratesStayHigh") eqn:E0.
  { intros H; inversion H; subst; cbn; discriminate. }
  destruct (String.eqb k "ratesFallModerately") eqn:E1.
  { intros H; inversion H; subst; cbn. intros R; inversion R.
    left. split; [now apply String.eqb_eq | reflexivity]. }
  destruct (String.eqb k "ratesFallSignificantly") eqn:E2.
  { intros H; inversion H; subst; cbn. intros R; inversion R.
    right. split; [now apply String.eqb_eq | reflexivity]. }
  discriminate.
Qed.

(** With a rule-bearing scenario and a term of the table, the resolver is
    the scenario computation of lines 87-109. *)
Lemma getRateForYear_rule (k : string) (scenarioConfig : ScenarioConfig)
    (cfg : ScenarioRule) (termKey : string) (year : Z) (baseRates : RateTable)
    (startYear : Z) (baseApy : Q) :
  lookup k RATE_SCENARIOS = Some scenarioConfig ->
  rule scenarioConfig = Some cfg ->
  baseApyOf baseRates termKey = Some baseApy ->
  getRateForYear termKey year (Some k) baseRates startYear
  = scenarioRate cfg termKey baseApy year startYear.
Proof.
  intros Hk Hr Hb. unfold getRateForYear. rewrite Hb.
  destruct (RATE_SCENARIOS_rule k scenarioConfig cfg Hk Hr) as [[-> ->] | [-> ->]];
    reflexivity.
Qed.

Lemma scenarioRate_floor (cfg : ScenarioRule) (termKey : string) (baseApy : Q)
    (year startYear : Z) :
  floor cfg <= scenarioRate cfg termKey baseApy year startYear.
Proof. unfold scenarioRate. apply Q.le_max_l. Qed.

(** A key outside [inheritedKeys] is found only when it is written in the
    table. *)
Lemma isInherited_false (key : string) :
  ~ In key inheritedKeys -> isInherited key = false.
Proof.
  intros H. unfold isInherited.
  destruct (existsb (String.eqb key) inheritedKeys) eqn:E; [|reflexivity].
  apply existsb_exists in E. destruct E as (x & Hx & Ex).
  apply String.eqb_eq in Ex. subst x. contradiction.
Qed.

Lemma scenarioRateResult_number (cfg : ScenarioRule) (termKey : string)
    (baseApy : Q) (year startYear : Z) :
  ~ In termKey inheritedKeys ->
  scenarioRateResult cfg termKey baseApy year startYear
  = RateNumber (scenarioRate cfg termKey baseApy year startYear).
Proof.
  intros H. unfold scenarioRateResult. rewrite (isInherited_false termKey H).
  now destruct (lookup termKey (adjustments cfg)).
Qed.

(** On keys that are not inherited property names the resolver returns a
    number, the one that [getRateForYear] computes. *)
Lemma getRateForYearResult_number (termKey : string) (year : Z)
    (scenarioKey : option string) (baseRates : RateTable) (startYear : Z) :
  ~ In termKey inheritedKeys ->
  (forall k, scenarioKey = Some k -> ~ In k inheritedKeys) ->
  getRateForYearResult termKey year scenarioKey baseRates startYear
  = RateNumber (getRateForYear termKey year scenarioKey baseRates startYear).
Proof.
  intros Ht Hk. unfold getRateForYearResult, getRateForYear.
  destruct (baseApyOf baseRates termKey) as [baseApy|]; [|reflexivity].
  destruct (isBaselineKey scenarioKey); [reflexivity|].
  destruct scenarioKey as [k|]; [|reflexivity].
  destruct (lookup k RATE_SCENARIOS) as [scenarioConfig|].
  - destruct (String.eqb k "ratesStayHigh"); [reflexivity|].
    destruct (rule scenarioConfig) as [cfg|]; [|reflexivity].
    now apply scenarioRateResult_number.
  - now rewrite (isInherited_false k (Hk k eq_refl)).
Qed.

Lemma getRateForYearResult_table (k : string) (scenarioConfig : ScenarioConfig)
    (termKey : string) (year : Z) (baseRates : RateTable) (startYear : Z) :
  lookup k RATE_SCENARIOS = Some scenarioConfig ->
  ~ In termKey inheritedKeys ->
  getRateForYearResult termKey year (Some k) baseRates startYear
  = RateNumber (getRateForYear termKey year (Some k) baseRates startYear).
Proof.
  intros Hk Ht. apply getRateForYearResult_number; [exact Ht|].
  intros k' Hk' Hin. inversion Hk'. subst k'.
  assert (Hnone : lookup k RATE_SCENARIOS = None).
  { clear - Hin. repeat (destruct Hin as [<- | Hin]; [reflexivity|]).
    destruct Hin. }
  congruence.
Qed.

Lemma getRateForYearResult_rule (k : string) (scenarioConfig : ScenarioConfig)
    (cfg : ScenarioRule) (termKey : string) (year : Z) (baseRates : RateTable)
    (startYear : Z) (baseApy : Q) :
  lookup k RATE_SCENARIOS = Some scenarioConfig ->
  rule scenarioConfig = Some cfg ->
  baseApyOf baseRates termKey = Some baseApy ->
  ~ In termKey inheritedKeys ->
  getRateForYearResult termKey year (Some k) baseRates startYear
  = RateNumber (scenarioRate cfg termKey baseApy year startYear).
Proof.
  intros Hk Hr Hb Ht.
  rewrite (getRateForYearResult_table k scenarioConfig termKey year baseRates
             startYear Hk Ht).
  now rewrite (getRateForYear_rule k scenarioConfig cfg termKey year baseRates
                 startYear baseApy Hk Hr Hb).
Qed.

(** C5 (as amended): for every scenario of the table that adjusts rates,
    in every year, the resolver returns a number that is at least the
    scenario's floor for every term key that has a numeric APY in the base
    rate table and is not an inherited property name; for a term key
    without a numeric APY it returns 0, whatever the scenario, before any
    floor is applied. *)
Theorem getRateForYear_at_least_floor (k : string) (scenarioConfig : ScenarioConfig)
    (cfg : ScenarioRule) (termKey : string) (year : Z) (baseRates : RateTable)
    (startYear : Z) :
  lookup k RATE_SCENARIOS = Some scenarioConfig ->
  rule scenarioConfig = Some cfg ->
  (forall baseApy,
     baseApyOf baseRates termKey = Some baseApy ->
     ~ In termKey inheritedKeys ->
     exists rate,
       getRateForYearResult termKey year (Some k) baseRates startYear
       = RateNumber rate
       /\ floor cfg <= rate)
  /\ (forall scenarioKey,
        baseApyOf baseRates termKey = None ->
        getRateForYearResult termKey year scenarioKey baseRates startYear
        = RateNumber 0).
Proof.
  intros Hk Hr. split.
  - intros baseApy Hb Ht. eexists. split.
    + exact (getRateForYearResult_rule k scenarioConfig cfg termKey year baseRates
               startYear baseApy Hk Hr Hb Ht).
    + apply scenarioRate_floor.
  - intros scenarioKey Hb. unfold getRateForYearResult. now rewrite Hb.
Qed.

Lemma getRateForYear_at_least_floor_witness :
  (exists rate,
      getRateForYearResult "HYSA" 2030 (Some "ratesFallSignificantly")
                           DEFAULT_INTEREST_RATES 2024
      = RateNumber rate
      /\ floor ratesFallSignificantly <= rate)
  /\ getRateForYearResult "99m" 2030 (Some "ratesFallSignificantly")
                          DEFAULT_INTEREST_RATES 2024
     = RateNumber 0.
Proof.
  split.
  - apply (proj1 (getRateForYear_at_least_floor "ratesFallSignificantly"
                    {| label := "Rates Fall Significantly";
                       description := "A more aggressive drop in rates after Year 1 and Year 3.";
                       rule := Some ratesFallSignificantly |}
                    ratesFallSignificantly "HYSA" 2030 DEFAULT_INTEREST_RATES 2024
                    eq_refl eq_refl) (18 # 5)).
    + reflexivity.
    + intros H. repeat (destruct H as [H | H]; [discriminate|]). exact H.
  - apply (proj2 (getRateForYear_at_least_floor "ratesFallSignificantly"
                    {| label := "Rates Fall Significantly";
                       description := "A more aggressive drop in rates after Year 1 and Year 3.";
                       rule := Some ratesFallSignificantly |}
                    ratesFallSignificantly "99m" 2030 DEFAULT_INTEREST_RATES 2024
                    eq_refl eq_refl)).
    reflexivity.
Defined.

(** C5 (as stated) fails on a term that the base rate table does not have:
    the resolver returns 0 before any floor is applied, and 0 is below the
    floor of the moderate scenario. *)
Lemma getRateForYear_missing_term_below_floor :
  getRateForYearResult "99m" 2025 (Some "ratesFallModerately")
                       DEFAULT_INTEREST_RATES 2024
  = RateNumber 0
  /\ 0 < floor ratesFallModerately.
Proof. split; vm_compute; reflexivity. Qed.

Lemma getRateForYear_stay_high (termKey : string) (year : Z)
    (baseRates : RateTable) (startYear : Z) :
  getRateForYear termKey year (Some "ratesStayHigh") baseRates startYear
  = match baseApyOf baseRates termKey with Some baseApy => baseApy | None => 0 end.
Proof. unfold getRateForYear. now destruct (baseApyOf baseRates termKey). Qed.







(** ** The year loop: structure *)

Section LoopFacts.

Variable pow : Q -> Q -> Q.
Variable env : Env.

Lemma yearLoop_app (st : LoopState) (ys zs : list Z) :
  yearLoop pow env st (ys ++ zs) = yearLoop pow env (yearLoop pow env st ys) zs.
Proof. unfold yearLoop. apply fold_left_app. Qed.

Lemma yearLoop_cons (st : LoopState) (y : Z) (ys : list Z) :
  yearLoop pow env st (y :: ys) = yearLoop pow env (simulateYear pow env st y) ys.
Proof. reflexivity. Qed.

(** Every iteration pushes exactly one record, for the year it simulates. *)
Lemma simulateYear_pushes (st : LoopState) (y : Z) :
  exists r,
    projection (simulateYear pow env st y) = (projection st ++ [r])%list
    /\ year r = y
    /\ cashAvailableStart r
       = cashBalance st
         + cashFromMaturingThisYear (maturityPass pow env st y)
         + hysaInterestThisYear env st y.
Proof. eexists. split; [reflexivity | split; reflexivity]. Qed.

(** The loop only ever appends to [projection]. *)
Lemma yearLoop_projection (st : LoopState) (ys : list Z) :
  exists more,
    projection (yearLoop pow env st ys) = (projection st ++ more)%list
    /\ map year more = ys.
Proof.
  revert st. induction ys as [|y ys IH]; intros st.
  - exists []. split; [symmetry; apply app_nil_r | reflexivity].
  - rewrite yearLoop_cons.
    destruct (IH (simulateYear pow env st y)) as (more & Hp & Hy).
    destruct (simulateYear_pushes st y) as (r & Hr & Hyr & _).
    exists (r :: more). split.
    + rewrite Hp, Hr, <- app_assoc. reflexivity.
    + cbn. now rewrite Hyr, Hy.
Qed.

(** An invariant of the loop state is an invariant of the whole loop. *)
Lemma yearLoop_invariant (I : LoopState -> Prop) (st : LoopState) (ys : list Z) :
  (forall st' y, I st' -> I (simulateYear pow env st' y)) ->
  I st -> I (yearLoop pow env st ys).
Proof.
  intros Hstep. revert st. induction ys as [|y ys IH]; intros st H.
  - exact H.
  - rewrite yearLoop_cons. apply IH, Hstep, H.
Qed.

End LoopFacts.

(** ** From [prepare] to the result *)

Section RunFacts.

Variable pow : Q -> Q -> Q.

Lemma calculateProjections_plan (input : Inputs) (counter : nat) (plan : Plan) :
  prepare pow input counter = inr plan ->
  calculateProjections pow input counter
  = (Returned (finish plan (yearLoop pow (plan_env plan) (plan_start plan)
                                     (plan_years plan))),
     reinvestmentCounter (yearLoop pow (plan_env plan) (plan_start plan)
                                   (plan_years plan))).
Proof. intros H. unfold calculateProjections. now rewrite H. Qed.

Lemma prepare_start_projection (input : Inputs) (counter : nat) (plan : Plan) :
  prepare pow input counter = inr plan -> projection (plan_start plan) = [].
Proof.
  unfold prepare. intros H.
  repeat match type of H with
         | match ?x with _ => _ end = _ => destruct x; try discriminate
         end.
  all: inversion H; reflexivity.
Qed.

(** A run that returns records went through the year loop. *)
Lemma calculateProjections_records (input : Inputs) (counter counter' : nat)
    (result : ProjectionResult) (r : YearRecord) :
  calculateProjections pow input counter = (Returned result, counter') ->
  In r (projectionYears result) ->
  exists plan,
    prepare pow input counter = inr plan
    /\ result = finish plan (yearLoop pow (plan_env plan) (plan_start plan)
                                      (plan_years plan)).
Proof.
  unfold calculateProjections.
  destruct (prepare pow input counter) as [outcome | plan] eqn:Hp.
  - intros H Hin. exfalso. inversion H; subst. clear H.
    unfold prepare in Hp.
    repeat match type of Hp with
           | match ?x with _ => _ end = _ => destruct x; try discriminate
           end.
    all: inversion Hp; subst; exact Hin.
  - intros H _. exists plan. split; [reflexivity | now inversion H].
Qed.

Lemma lastRecord_snoc (rs : list YearRecord) (r : YearRecord) :
  lastRecord (rs ++ [r]) = Some r.
Proof. unfold lastRecord. now rewrite rev_app_distr. Qed.

(** The records of a run are, in order, the records that the iterations
    push: the [i]-th record is the one pushed from the state in which the
    [i]-th year starts. *)
Lemma run_record_at (input : Inputs) (counter : nat) (plan : Plan) (i : nat) (y : Z) :
  prepare pow input counter = inr plan ->
  nth_error (plan_years plan) i = Some y ->
  nth_error (projection (yearLoop pow (plan_env plan) (plan_start plan)
                                  (plan_years plan))) i
  = emittedRecord pow (plan_env plan) (stateBefore pow plan i) y.
Proof.
  intros Hp Hy.
  destruct (nth_error_split _ _ Hy) as (before & after & Hsplit & Hlen).
  assert (Hfirst : firstn i (plan_years plan) = before).
  { rewrite Hsplit, <- Hlen. rewrite firstn_app, Nat.sub_diag, firstn_all.
    cbn. apply app_nil_r. }
  unfold stateBefore, emittedRecord. rewrite Hfirst.
  set (st := yearLoop pow (plan_env plan) (plan_start plan) before).
  destruct (simulateYear_pushes pow (plan_env plan) st y) as (r & Hr & _).
  rewrite Hr, lastRecord_snoc.
  rewrite Hsplit, yearLoop_app, yearLoop_cons. fold st.
  destruct (yearLoop_projection pow (plan_env plan)
              (simulateYear pow (plan_env plan) st y) after) as (more & Hm & _).
  rewrite Hm, Hr.
  destruct (yearLoop_projection pow (plan_env plan) (plan_start plan) before)
    as (pre & Hpre & Hyears).
  fold st in Hpre.
  rewrite (prepare_start_projection input counter plan Hp) in Hpre. cbn in Hpre.
  rewrite Hpre, <- app_assoc.
  assert (Hl : List.length pre = i).
  { rewrite <- Hlen, <- Hyears. symmetry. apply length_map. }
  rewrite nth_error_app2 by (rewrite Hl; apply Nat.le_refl).
  rewrite Hl, Nat.sub_diag. reflexivity.
Qed.

Lemma firstn_succ_nth {A : Type} (l : list A) (i : nat) (x : A) :
  nth_error l i = Some x -> firstn (S i) l = (firstn i l ++ [x])%list.
Proof.
  revert i. induction l as [|a l IH]; intros [|i] H; try discriminate.
  - cbn in H. inversion H. reflexivity.
  - cbn in H. change (firstn (S (S i)) (a :: l)) with (a :: firstn (S i) l).
    rewrite (IH i H). reflexivity.
Qed.

(** The state in which year [i+1] starts is the state that the iteration
    for year [i] leaves. *)
Lemma stateBefore_succ (plan : Plan) (i : nat) (y : Z) :
  nth_error (plan_years plan) i = Some y ->
  stateBefore pow plan (S i)
  = simulateYear pow (plan_env plan) (stateBefore pow plan i) y.
Proof.
  intros Hy. unfold stateBefore.
  rewrite (firstn_succ_nth _ _ _ Hy), yearLoop_app. reflexivity.
Qed.

(** The years of the records of a run are the years of the range. *)
Lemma run_record_years (input : Inputs) (counter : nat) (plan : Plan) :
  prepare pow input counter = inr plan ->
  map year (projection (yearLoop pow (plan_env plan) (plan_start plan)
                                 (plan_years plan)))
  = plan_years plan.
Proof.
  intros Hp.
  destruct (yearLoop_projection pow (plan_env plan) (plan_start plan)
              (plan_years plan)) as (more & Hm & Hy).
  rewrite Hm, (prepare_start_projection input counter plan Hp). exact Hy.
Qed.

(** Every record of a returned result was pushed by an iteration of the
    year loop. *)
Lemma run_record_emitted (input : Inputs) (counter counter' : nat)
    (result : ProjectionResult) (r : YearRecord) :
  calculateProjections pow input counter = (Returned result, counter') ->
  In r (projectionYears result) ->
  exists plan i,
    prepare pow input counter = inr plan
    /\ nth_error (plan_years plan) i = Some (year r)
    /\ emittedRecord pow (plan_env plan) (stateBefore pow plan i) (year r) = Some r.
Proof.
  intros Hc Hin.
  destruct (calculateProjections_records input counter counter' result r Hc Hin)
    as (plan & Hp & ->).
  cbn [finish projectionYears] in Hin.
  destruct (In_nth_error _ _ Hin) as (i & Hi).
  exists plan, i. split; [exact Hp|].
  assert (Hy : nth_error (plan_years plan) i = Some (year r)).
  { rewrite <- (run_record_years input counter plan Hp).
    rewrite nth_error_map, Hi. reflexivity. }
  split; [exact Hy|].
  rewrite <- (run_record_at input counter plan i (year r) Hp Hy). exact Hi.
Qed.


End RunFacts.



(** ** Conservation of the reported portfolio value *)

Section Conservation.

Variable pow : Q -> Q -> Q.



End Conservation.


Section DoublesFacts.

Import PrimFloat.


End DoublesFacts.

(** ** Validation and initial tranche processing *)

Section Initializer.

Variable pow : Q -> Q -> Q.

(** What a plan was built from. *)
Lemma prepare_plan (input : Inputs) (counter : nat) (plan : Plan) :
  prepare pow input counter = inr plan ->
  exists parsedStart numLumpSum taxRatePercent rows ws rates initialTranches,
    investmentStartDate input = Some (Some parsedStart)
    /\ lumpSum input = Some numLumpSum
    /\ taxRate input = Some taxRatePercent
    /\ tranches input = Some rows
    /\ withdrawals input = Some ws
    /\ interestRates input = Some rates
    /\ mapTranches pow rates parsedStart 0 rows = inr initialTranches
    /\ plan = makePlan parsedStart taxRatePercent ws rates (rateScenario input)
                       initialTranches counter.
Proof.
  unfold prepare. intros H.
  destruct (investmentStartDate input) as [[parsedStart|]|]; try discriminate.
  2:{ repeat match type of H with
             | match ?x with _ => _ end = _ => destruct x; try discriminate
             end. }
  destruct (lumpSum input) as [numLumpSum|]; try discriminate.
  destruct (taxRate input) as [taxRatePercent|]; try discriminate.
  destruct (tranches input) as [rows|]; try discriminate.
  destruct (withdrawals input) as [ws|]; try discriminate.
  destruct (interestRates input) as [rates|]; try discriminate.
  destruct (mapTranches pow rates parsedStart 0 rows) as [|ts] eqn:Hm;
    try discriminate.
  cbn in H. inversion H.
  exists parsedStart, numLumpSum, taxRatePercent, rows, ws, rates, ts.
  repeat split; reflexivity || assumption.
Qed.

(** The processed tranches come from the rows, one by one. *)
Lemma mapTranches_rows (rates : RateTable) (parsedStart : JsDate)
    (rows : list TrancheRow) :
  forall index ts,
    mapTranches pow rates parsedStart index rows = inr ts ->
    Forall2 (fun row t => exists i, initTranche pow rates parsedStart i row = inr t)
            rows ts.
Proof.
  induction rows as [|row rows IH]; intros index ts H; cbn in H.
  - inversion H. constructor.
  - destruct (initTranche pow rates parsedStart index row) as [|t] eqn:Ht;
      try discriminate.
    destruct (mapTranches pow rates parsedStart (S index) rows) as [|ts'] eqn:Hr;
      try discriminate.
    inversion H. constructor; [now exists index | now apply (IH (S index))].
Qed.

Lemma mapTranches_Forall (P : Tranche -> Prop) (rates : RateTable)
    (parsedStart : JsDate) (rows : list TrancheRow) (index : nat)
    (ts : list Tranche) :
  (forall row i t, In row rows ->
     initTranche pow rates parsedStart i row = inr t -> P t) ->
  mapTranches pow rates parsedStart index rows = inr ts ->
  Forall P ts.
Proof.
  intros HP Hm. pose proof (mapTranches_rows _ _ _ _ _ Hm) as H2.
  clear Hm. induction H2 as [|row t rows ts (i & Hi) _ IH]; constructor.
  - apply (HP row i t); [now left | exact Hi].
  - apply IH. intros row' i' t' Hin. apply HP. now right.
Qed.

(** The row conditions of the specification's DataError. *)
Lemma initTranche_term_absent (rates : RateTable) (parsedStart : JsDate)
    (index : nat) (row : TrancheRow) :
  lookup (row_term row) rates = None ->
  initTranche pow rates parsedStart index row
  = inl ("Missing or invalid rate data for term: " ++ row_term row).
Proof.
  intros H. unfold initTranche, baseApyOf. rewrite H. reflexivity.
Qed.

Lemma initTranche_duration_invalid (rates : RateTable) (parsedStart : JsDate)
    (index : nat) (row : TrancheRow) (info : RateInfo) :
  row_term row <> "HYSA" ->
  lookup (row_term row) rates = Some info ->
  match duration info with None => True | Some d => d <= 0 end ->
  initTranche pow rates parsedStart index row
  = inl ("Missing or invalid rate data for term: " ++ row_term row)
  \/ initTranche pow rates parsedStart index row
     = inl ("Invalid duration for term: " ++ row_term row).
Proof.
  intros Hn Hl Hd. unfold initTranche, baseApyOf. rewrite Hl.
  destruct (apy info); [|now left]. right.
  apply String.eqb_neq in Hn. rewrite Hn.
  destruct (duration info) as [d|]; [|reflexivity].
  apply Qle_bool_iff in Hd. now rewrite Hd.
Qed.

Lemma mapTranches_throws (rates : RateTable) (parsedStart : JsDate)
    (rows : list TrancheRow) (bad : TrancheRow) :
  In bad rows ->
  (forall index, exists message,
     initTranche pow rates parsedStart index bad = inl message) ->
  forall index, exists row message,
    In row rows
    /\ (exists i, initTranche pow rates parsedStart i row = inl message)
    /\ mapTranches pow rates parsedStart index rows = inl message.
Proof.
  intros Hin Hbad.
  induction rows as [|row rows IH]; [contradiction|]. intros index. cbn.
  destruct (initTranche pow rates parsedStart index row) as [message|t] eqn:Ht.
  - exists row, message. split; [now left|]. split; [now exists index | reflexivity].
  - destruct Hin as [-> | Hin].
    + destruct (Hbad index) as (message & Hm). congruence.
    + destruct (IH Hin (S index)) as (row' & message & Hin' & Hi & Hm).
      exists row', message. split; [now right|]. split; [exact Hi|].
      now rewrite Hm.
Qed.

(** C2 (as amended): when the required inputs are present and valid and an
    allocation row references a term absent from the rate table, or a
    non-liquid row's term has a duration that is missing, not a number or
    not positive, [calculateProjections] throws: the caller receives an
    exception carrying the message of the first offending row and no
    result object at all (hence no partial result); the module-level
    counter is left untouched. *)
Theorem invalid_row_throws (input : Inputs) (counter : nat)
    (parsedStart : JsDate) (numLumpSum taxRatePercent : Q)
    (rows : list TrancheRow) (ws : list Withdrawal) (rates : RateTable) :
  investmentStartDate input = Some (Some parsedStart) ->
  lumpSum input = Some numLumpSum ->
  taxRate input = Some taxRatePercent ->
  tranches input = Some rows ->
  withdrawals input = Some ws ->
  interestRates input = Some rates ->
  (exists row,
      In row rows
      /\ (lookup (row_term row) rates = None
          \/ (row_term row <> "HYSA"
              /\ exists info,
                   lookup (row_term row) rates = Some info
                   /\ match duration info with
                      | None => True
                      | Some d => d <= 0
                      end))) ->
  exists row message,
    In row rows
    /\ (message = "Missing or invalid rate data for term: " ++ row_term row
        \/ message = "Invalid duration for term: " ++ row_term row)
    /\ calculateProjections pow input counter = (Thrown message, counter).
Proof.
  intros Hd Hl Ht Hr Hw Hi (bad & Hin & Hbad).
  assert (Hthrow : forall index, exists message,
             initTranche pow rates parsedStart index bad = inl message).
  { intros index. destruct Hbad as [Habs | (Hn & info & Hinfo & Hdur)].
    - eexists. apply initTranche_term_absent, Habs.
    - destruct (initTranche_duration_invalid rates parsedStart index bad info
                  Hn Hinfo Hdur) as [H | H]; eexists; exact H. }
  destruct (mapTranches_throws rates parsedStart rows bad Hin Hthrow 0%nat)
    as (row & message & Hrow & (i & Hmsg) & Hmap).
  exists row, message. split; [exact Hrow|]. split.
  - unfold initTranche in Hmsg.
    destruct (baseApyOf rates (row_term row)); [|inversion Hmsg; now left].
    destruct (lookup (row_term row) rates) as [info|]; [|inversion Hmsg; now left].
    destruct (String.eqb (row_term row) "HYSA"); [discriminate|].
    destruct (duration info) as [d|]; [|inversion Hmsg; now right].
    destruct (Qle_bool d 0); [inversion Hmsg; now right | discriminate].
  - unfold calculateProjections, prepare.
    rewrite Hd, Hl, Ht, Hr, Hw, Hi, Hmap. reflexivity.
Qed.

End Initializer.

Lemma invalid_row_throws_witness :
  exists row message,
    In row [cdRow "12m" 1000 "cash"; cdRow "99m" 500 "cash"]
    /\ (message = "Missing or invalid rate data for term: " ++ row_term row
        \/ message = "Invalid duration for term: " ++ row_term row)
    /\ calculateProjections powWhole unknownTermInputs 0 = (Thrown message, 0%nat).
Proof.
  apply (invalid_row_throws powWhole unknownTermInputs 0 (mkDate 2024 0) 1500 25
           [cdRow "12m" 1000 "cash"; cdRow "99m" 500 "cash"] []
           DEFAULT_INTEREST_RATES);
    try reflexivity.
  exists (cdRow "99m" 500 "cash"). split.
  - right. left. reflexivity.
  - left. reflexivity.
Defined.

(** C2 (as stated) fails: with a row whose term the rate table does not
    have, the call does not return the fatal-error object; the exception
    of the tranche callback reaches the caller. *)
Lemma unknown_term_propagates_exception :
  fst (calculateProjections powWhole unknownTermInputs 0)
  = Thrown "Missing or invalid rate data for term: 99m"
  /\ ~ (exists message,
          fst (calculateProjections powWhole unknownTermInputs 0)
          = Returned {| projectionYears := []; hasShortfallFlag := false;
                        totals := None; error := Some message |}).
Proof.
  split; [vm_compute; reflexivity|].
  intros (message & H). vm_compute in H. discriminate H.
Qed.

(** ** The year range *)

Lemma minOf_le_first (first : Z) (rest : list Z) : (minOf first rest <= first)%Z.
Proof.
  unfold minOf. revert first. induction rest as [|x rest IH]; intros first; cbn.
  - lia.
  - specialize (IH (Z.min first x)). lia.
Qed.

Lemma minOf_above (first : Z) (rest : list Z) :
  Forall (fun y => (first <= y)%Z) rest -> minOf first rest = first.
Proof.
  unfold minOf. induction 1 as [|x rest Hx _ IH]; cbn.
  - reflexivity.
  - now rewrite Z.min_l.
Qed.

Lemma minOf_app (first : Z) (l1 l2 : list Z) :
  minOf first (l1 ++ l2) = minOf (minOf first l1) l2.
Proof. unfold minOf. apply fold_left_app. Qed.

Lemma QmaxOf_ge_first (first : Q) (rest : list Q) : first <= QmaxOf first rest.
Proof.
  unfold QmaxOf. revert first. induction rest as [|x rest IH]; intros first; cbn.
  - apply Qle_refl.
  - eapply Qle_trans; [apply (Q.le_max_l first x) | apply IH].
Qed.

Lemma Qtrunc_positive (q : Q) : Qle_bool q 0 = false -> (0 <= Qtrunc q)%Z.
Proof.
  intros H. assert (Hq : 0 < q).
  { apply Qnot_le_lt. intros Hle. apply Qle_bool_iff in Hle. congruence. }
  unfold Qtrunc.
  assert (Hb : Qle_bool 0 q = true) by (apply Qle_bool_iff, Qlt_le_weak, Hq).
  rewrite Hb. change 0%Z with (Qfloor 0).
  apply Qfloor_resp_le, Qlt_le_weak, Hq.
Qed.

Lemma yearRange_head (minYear maxYear : Z) :
  (minYear <= maxYear)%Z ->
  exists rest, yearRange minYear maxYear = minYear :: rest.
Proof.
  intros H. unfold yearRange.
  destruct (Z.to_nat (maxYear - minYear + 1)) as [|n] eqn:E; [lia|].
  cbn. eexists. f_equal. lia.
Qed.

Section RangeFacts.

Variable pow : Q -> Q -> Q.

(** A fixed-term tranche never matures before the year the portfolio
    starts. *)
Lemma initTranche_matures_later (rates : RateTable) (parsedStart : JsDate)
    (index : nat) (row : TrancheRow) (t : Tranche) :
  initTranche pow rates parsedStart index row = inr t ->
  match maturityDate t with
  | Some d => (getFullYear parsedStart <= getFullYear d)%Z
  | None => True
  end.
Proof.
  unfold initTranche.
  destruct (baseApyOf rates (row_term row)); [|discriminate].
  destruct (lookup (row_term row) rates) as [info|]; [|discriminate].
  destruct (String.eqb (row_term row) "HYSA").
  { intros H; inversion H; exact I. }
  destruct (duration info) as [d|]; [|discriminate].
  destruct (Qle_bool d 0) eqn:Hd; [discriminate|].
  intros H; inversion H; cbn.
  unfold getFullYear, addMonths; cbn.
  apply Z.div_le_mono; [lia|].
  pose proof (Qtrunc_positive d Hd). lia.
Qed.

Lemma maturityYears_from_start (rates : RateTable) (parsedStart : JsDate)
    (rows : list TrancheRow) (ts : list Tranche) :
  mapTranches pow rates parsedStart 0 rows = inr ts ->
  Forall (fun y => (getFullYear parsedStart <= y)%Z) (maturityYears ts).
Proof.
  intros Hm.
  assert (H : Forall (fun t => match maturityDate t with
                               | Some d => (getFullYear parsedStart <= getFullYear d)%Z
                               | None => True
                               end) ts).
  { apply (mapTranches_Forall pow _ rates parsedStart rows 0 ts); [|exact Hm].
    intros row i t _. apply initTranche_matures_later. }
  clear Hm. unfold maturityYears.
  induction H as [|t ts Ht _ IH]; cbn [flat_map]; [constructor|].
  destruct (maturityDate t); cbn [app]; [constructor; assumption | exact IH].
Qed.

(** The first year of the range is the earliest of the start year and the
    years of the dated withdrawals; the range always reaches past it. *)
Lemma makePlan_range (parsedStart : JsDate) (taxRatePercent : Q)
    (ws : list Withdrawal) (rates : RateTable) (scenario : option string)
    (rows : list TrancheRow) (ts : list Tranche) (counter : nat) :
  mapTranches pow rates parsedStart 0 rows = inr ts ->
  let plan := makePlan parsedStart taxRatePercent ws rates scenario ts counter in
  plan_minYear plan = minOf (getFullYear parsedStart) (withdrawalYears ws)
  /\ (plan_minYear plan <= plan_maxYear plan)%Z.
Proof.
  intros Hm plan.
  assert (Hmin : plan_minYear plan
                 = minOf (getFullYear parsedStart) (withdrawalYears ws)).
  { cbn. rewrite minOf_app. apply minOf_above.
    eapply Forall_impl; [|apply (maturityYears_from_start _ _ _ _ Hm)].
    cbn. intros y Hy.
    pose proof (minOf_le_first (getFullYear parsedStart) (withdrawalYears ws)).
    lia. }
  split; [exact Hmin|].
  rewrite Hmin. cbn. unfold maxYearOf.
  pose proof (minOf_le_first (getFullYear parsedStart) (withdrawalYears ws)).
  assert (Hc : (0 <= Qceiling (maxInitialTerm ts / 12))%Z).
  { change 0%Z with (Qceiling 0). apply Qceiling_resp_le.
    assert (Hq : 0 <= maxInitialTerm ts) by apply QmaxOf_ge_first.
    apply Qle_shift_div_l; [reflexivity|].
    now rewrite Qmult_0_l. }
  lia.
Qed.

(** C3 (as amended): for every input that passes validation, the first
    simulated year is the earliest of the portfolio start year and the
    years of the withdrawals that carry a valid date (the initial
    maturities never fall before the start year); it is the portfolio
    start year exactly when no dated withdrawal precedes the start year. *)
Theorem first_simulated_year (input : Inputs) (counter counter' : nat)
    (result : ProjectionResult) (parsedStart : JsDate) (ws : list Withdrawal) :
  investmentStartDate input = Some (Some parsedStart) ->
  withdrawals input = Some ws ->
  calculateProjections pow input counter = (Returned result, counter') ->
  error result = None ->
  exists first rest,
    projectionYears result = first :: rest
    /\ year first = minOf (getFullYear parsedStart) (withdrawalYears ws)
    /\ (Forall (fun y => (getFullYear parsedStart <= y)%Z) (withdrawalYears ws)
        <-> year first = getFullYear parsedStart).
Proof.
  intros Hd Hw Hc He.
  unfold calculateProjections in Hc.
  destruct (prepare pow input counter) as [outcome | plan] eqn:Hp.
  { exfalso. inversion Hc; subst. unfold prepare in Hp. rewrite Hd, Hw in Hp.
    repeat match type of Hp with
           | match ?x with _ => _ end = _ => destruct x; try discriminate
           end.
    all: inversion Hp; subst; discriminate He. }
  inversion Hc; subst. clear Hc He.
  destruct (prepare_plan pow input counter plan Hp)
    as (parsedStart' & numLumpSum & taxRatePercent & rows & ws' & rates & ts
        & Hd' & _ & _ & _ & Hw' & _ & Hm & Hplan).
  rewrite Hd in Hd'. inversion Hd'; subst parsedStart'.
  rewrite Hw in Hw'. inversion Hw'; subst ws'.
  destruct (makePlan_range parsedStart taxRatePercent ws rates
              (rateScenario input) rows ts counter Hm) as (Hmin & Hle).
  rewrite <- Hplan in Hmin, Hle.
  destruct (yearRange_head _ _ Hle) as (years & Hyears).
  pose proof (run_record_years pow input counter plan Hp) as Hrec.
  unfold plan_years in Hrec at 2. rewrite Hyears in Hrec.
  cbn [finish projectionYears].
  destruct (projection (yearLoop pow (plan_env plan) (plan_start plan)
                                 (plan_years plan))) as [|first rest];
    [discriminate|].
  cbn in Hrec. inversion Hrec as [[Hfirst Hrest]].
  exists first, rest. split; [reflexivity|].
  rewrite Hfirst, Hmin. split; [reflexivity|]. split.
  - apply minOf_above.
  - intros Heq. apply Forall_forall. intros y Hy.
    rewrite <- Heq. clear - Hy.
    unfold minOf. revert Hy. generalize (getFullYear parsedStart).
    induction (withdrawalYears ws) as [|x l IH]; intros z Hy; [contradiction|].
    cbn. destruct Hy as [-> | Hy].
    + pose proof (minOf_le_first (Z.min z y) l). unfold minOf in H. lia.
    + apply IH, Hy.
Qed.

End RangeFacts.

Lemma first_simulated_year_witness :
  exists first rest,
    projectionYears earlyWithdrawalResult = first :: rest
    /\ year first = minOf 2024 [2024%Z]
    /\ (Forall (fun y => (2024 <= y)%Z) [2024%Z] <-> year first = 2024%Z).
Proof.
  eapply (first_simulated_year powWhole earlyWithdrawalInputs 0 _
            earlyWithdrawalResult (mkDate 2024 0) [withdrawalOn 2024 5 100]).
  - reflexivity.
  - reflexivity.
  - apply (calculateProjections_plan powWhole earlyWithdrawalInputs 0
             (examplePlan earlyWithdrawalInputs)).
    vm_compute. reflexivity.
  - reflexivity.
Defined.

(** C3 (as stated) fails when a withdrawal is dated before the portfolio
    starts: with a start date in 2024 and a withdrawal dated 2020, the
    first simulated year is 2020. *)
Lemma past_withdrawal_moves_first_year :
  investmentStartDate pastWithdrawalInputs = Some (Some (mkDate 2024 0))
  /\ getFullYear (mkDate 2024 0) = 2024%Z
  /\ exists result first rest,
       fst (calculateProjections powWhole pastWithdrawalInputs 0) = Returned result
       /\ projectionYears result = first :: rest
       /\ year first = 2020%Z
       /\ year first <> 2024%Z.
Proof.
  split; [reflexivity|]. split; [reflexivity|].
  eexists. eexists. eexists.
  split; [vm_compute; reflexivity|].
  split; [reflexivity|].
  split; [reflexivity | discriminate].
Qed.

(** ** The liquid-account balance *)

Lemma sumBy_shift {A : Type} (f : A -> Q) (l : list A) (start : Q) :
  fold_left (fun sum x => sum + f x) l start == start + sumBy f l.
Proof.
  unfold sumBy. revert start. induction l as [|x l IH]; intros start; cbn.
  - ring.
  - rewrite (IH (start + f x)), (IH (0 + f x)). ring.
Qed.

Lemma sumBy_cons {A : Type} (f : A -> Q) (x : A) (l : list A) :
  sumBy f (x :: l) == f x + sumBy f l.
Proof.
  unfold sumBy at 1. cbn. rewrite sumBy_shift. ring.
Qed.

Lemma sumBy_nonneg {A : Type} (f : A -> Q) (l : list A) :
  Forall (fun x => 0 <= f x) l -> 0 <= sumBy f l.
Proof.
  induction 1 as [|x l Hx _ IH].
  - apply Qle_refl.
  - rewrite sumBy_cons. lra.
Qed.

(** Shortfall coverage never draws more than the liquid balance. *)
Lemma coverShortfall_hysa_nonneg (netCashFlow hysaBalance : Q) :
  0 <= hysaBalance -> 0 <= hysaAfter (coverShortfall netCashFlow hysaBalance).
Proof.
  intros H. unfold coverShortfall.
  destruct (Qgtb _ 0 && Qgtb hysaBalance 0); cbn [hysaAfter]; [|exact H].
  match goal with |- 0 <= _ - Qmin ?s _ =>
    pose proof (Q.le_min_r s hysaBalance) end.
  lra.
Qed.

Section LiquidBalance.

Variable pow : Q -> Q -> Q.
Variable env : Env.

Lemma maturityStep_harmless (y : Z) (carried : Q) (a : MaturityAcc) (cd : Tranche) :
  harmless cd -> HarmlessAcc a ->
  HarmlessAcc (maturityStep pow env y carried a cd).
Proof.
  intros Hcd [Hh Hr Hn]. unfold maturityStep.
  destruct (maturesIn y cd).
  2:{ constructor; cbn; try assumption.
      apply Forall_app. split; [assumption | now constructor]. }
  destruct (Qgtb carried (1 # 100)); [constructor; cbn; assumption|].
  destruct (String.eqb (nullish (reinvestmentOption cd) "") "hysa") eqn:Eh.
  { destruct (0 <? List.length (env_hysaTranches env))%nat;
      [|constructor; cbn; assumption].
    constructor; cbn; try assumption.
    destruct Hcd as [Hv | Hc]; [lra|].
    rewrite Hc in Eh. discriminate Eh. }
  destruct (String.eqb (nullish (reinvestmentOption cd) "") "newCD");
    [|constructor; cbn; assumption].
  unfold reinvestNewCd.
  destruct (reinvestDuration (env_interestRates env)
              (nullish (reinvestmentTerm cd) ""));
    [|constructor; cbn; assumption].
  destruct (maturityDate cd); [|constructor; cbn; assumption].
  constructor; cbn; try assumption.
  apply Forall_app. split; [assumption|].
  constructor; [|constructor]. right. reflexivity.
Qed.

Lemma maturityPass_harmless (st : LoopState) (y : Z) :
  Forall harmless (activeCdTranches st) ->
  HarmlessAcc (maturityPass pow env st y).
Proof.
  unfold maturityPass. intros Hall.
  assert (H0 : HarmlessAcc (startMaturityAcc (totalInterestEarnedCumulative st)
                                             (reinvestmentCounter st))).
  { constructor; cbn; [apply Qle_refl | constructor | constructor]. }
  revert H0.
  generalize (startMaturityAcc (totalInterestEarnedCumulative st)
                               (reinvestmentCounter st)).
  induction Hall as [|cd cds Hcd _ IH]; intros a Ha; cbn.
  - exact Ha.
  - apply IH, maturityStep_harmless; assumption.
Qed.

Lemma simulateYear_liquid (st : LoopState) (y : Z) :
  LiquidInv st -> LiquidInv (simulateYear pow env st y).
Proof.
  intros [Hb Ha Hr].
  destruct (maturityPass_harmless st y Ha) as [Hh Hrem Hnew].
  assert (Hend : 0 <= currentHysaBalance (simulateYear pow env st y)).
  { apply coverShortfall_hysa_nonneg.
    unfold hysaBalanceAfterReinvestment. lra. }
  constructor.
  - exact Hend.
  - apply Forall_app. split; assumption.
  - apply Forall_app. split; [exact Hr|].
    constructor; [exact Hend | constructor].
Qed.

End LiquidBalance.

Section LiquidBalanceRun.

Variable pow : Q -> Q -> Q.

(** [Math.pow] of a non-negative base is not negative. *)
Hypothesis pow_nonneg : forall b e, 0 <= b -> 0 <= pow b e.

Lemma initTranche_liquid (rates : RateTable) (parsedStart : JsDate)
    (index : nat) (row : TrancheRow) (t : Tranche) :
  0 <= numberOr0 (row_amount row) ->
  (forall a, baseApyOf rates (row_term row) = Some a -> -100 <= a) ->
  initTranche pow rates parsedStart index row = inr t ->
  0 <= amount t /\ harmless t.
Proof.
  intros Hamount Hapy. unfold initTranche.
  destruct (baseApyOf rates (row_term row)) as [a|]; [|discriminate].
  specialize (Hapy a eq_refl).
  destruct (lookup (row_term row) rates) as [info|]; [|discriminate].
  destruct (String.eqb (row_term row) "HYSA").
  { intros H; inversion H; cbn. split; [exact Hamount | left; exact Hamount]. }
  destruct (duration info) as [d|]; [|discriminate].
  destruct (Qle_bool d 0); [discriminate|].
  intros H; inversion H; cbn. split; [exact Hamount|]. left. cbn.
  apply Qmult_le_0_compat; [exact Hamount|].
  apply pow_nonneg. const_div. lra.
Qed.

(** C10 (as amended): when the initial allocation amounts are not
    negative and the base APY of every allocated term is at least -100%
    (so that no maturity value is negative), the end-of-year
    liquid-account balance of every record is not negative: reinvested
    maturities only add to the balance, and shortfall coverage draws at
    most the balance itself. *)
Theorem hysa_balance_nonnegative (input : Inputs) (counter counter' : nat)
    (result : ProjectionResult) (rows : list TrancheRow) (rates : RateTable)
    (r : YearRecord) :
  tranches input = Some rows ->
  interestRates input = Some rates ->
  Forall (fun row => 0 <= numberOr0 (row_amount row)) rows ->
  Forall (fun row => forall a,
            baseApyOf rates (row_term row) = Some a -> -100 <= a) rows ->
  calculateProjections pow input counter = (Returned result, counter') ->
  In r (projectionYears result) ->
  0 <= endOfYearHysaBalance r.
Proof.
  intros Hrows Hrates Hamounts Hapys Hc Hin.
  destruct (calculateProjections_records pow input counter counter' result r Hc Hin)
    as (plan & Hp & ->).
  destruct (prepare_plan pow input counter plan Hp)
    as (parsedStart & numLumpSum & taxRatePercent & rows' & ws & rates' & ts
        & _ & _ & _ & Hrows' & _ & Hrates' & Hm & Hplan).
  rewrite Hrows in Hrows'. inversion Hrows'; subst rows'.
  rewrite Hrates in Hrates'. inversion Hrates'; subst rates'.
  assert (Hts : Forall (fun t => 0 <= amount t /\ harmless t) ts).
  { apply (mapTranches_Forall pow _ rates parsedStart rows 0 ts); [|exact Hm].
    intros row i t Hrow. apply initTranche_liquid.
    - exact (proj1 (Forall_forall _ _) Hamounts row Hrow).
    - exact (proj1 (Forall_forall _ _) Hapys row Hrow). }
  assert (Hstart : LiquidInv (plan_start plan)).
  { rewrite Hplan. constructor; cbn.
    - apply sumBy_nonneg. clear - Hts.
      induction Hts as [|t ts [Ht _] _ IH]; cbn; [constructor|].
      destruct (isHYSA t); [constructor|]; assumption.
    - clear - Hts.
      induction Hts as [|t ts [_ Ht] _ IH]; cbn; [constructor|].
      destruct (isHYSA t); cbn; [|constructor]; assumption.
    - constructor. }
  pose proof (yearLoop_invariant pow (plan_env plan) LiquidInv (plan_start plan)
                (plan_years plan) (simulateYear_liquid pow (plan_env plan)) Hstart)
    as [_ _ Hrecords].
  cbn [finish projectionYears] in Hin.
  exact (proj1 (Forall_forall _ _) Hrecords r Hin).
Qed.

End LiquidBalanceRun.

Lemma powWhole_nonneg (b e : Q) : 0 <= b -> 0 <= powWhole b e.
Proof. intros H. unfold powWhole. apply Qpower_0_le, H. Qed.

Lemma hysa_balance_nonnegative_witness :
  exists r,
    nth_error (projectionYears (ladderResult None)) 2 = Some r
    /\ 0 <= endOfYearHysaBalance r.
Proof.
  eexists. split; [vm_compute; reflexivity|].
  eapply (hysa_balance_nonnegative powWhole powWhole_nonneg (ladderInputs None) 0 _
            (ladderResult None)
            [ cdRow "HYSA" 5000 "cash"; cdRow "12m" 1000 "hysa";
              cdRow "24m" 2000 "newCD" ]
            DEFAULT_INTEREST_RATES).
  - reflexivity.
  - reflexivity.
  - repeat constructor; vm_compute; discriminate.
  - repeat constructor; intros a H; vm_compute in H; inversion H;
      vm_compute; discriminate.
  - apply (calculateProjections_plan powWhole (ladderInputs None) 0
             (examplePlan (ladderInputs None))).
    vm_compute. reflexivity.
  - vm_compute. right. right. left. reflexivity.
Defined.

(** C10 (as stated) fails when a maturity value is negative.  With a
    12-month APY of -300% a CD of 100 matures with the value
    100 * (1 - 3) = -200; its election moves that value into the (empty)
    liquid account, whose end-of-year balance becomes -200 although every
    allocation amount is non-negative. *)
Lemma negative_maturity_lowers_hysa :
  tranches collapseInputs = Some [cdRow "HYSA" 0 "cash"; cdRow "12m" 100 "hysa"]
  /\ Forall (fun row => 0 <= numberOr0 (row_amount row))
            [cdRow "HYSA" 0 "cash"; cdRow "12m" 100 "hysa"]
  /\ exists result r,
       fst (calculateProjections powWhole collapseInputs 0) = Returned result
       /\ nth_error (projectionYears result) 1 = Some r
       /\ year r = 2025%Z
       /\ endOfYearHysaBalance r == - 200
       /\ ~ 0 <= endOfYearHysaBalance r.
Proof.
  split; [reflexivity|].
  split; [repeat constructor; vm_compute; discriminate|].
  eexists. eexists.
  split; [vm_compute; reflexivity|].
  split; [vm_compute; reflexivity|].
  split; [reflexivity|].
  split; [vm_compute; reflexivity|].
  vm_compute. intros H. apply H. reflexivity.
Qed.

(** ** Independence from the reinvestment counter *)

Lemma sameButId_refl (t : Tranche) : sameButId t t.
Proof. exists (trancheId t). now destruct t. Qed.

Lemma sameButId_list_refl (l : list Tranche) : Forall2 sameButId l l.
Proof. induction l; constructor; [apply sameButId_refl | assumption]. Qed.

Lemma sameButId_sum (l l' : list Tranche) :
  Forall2 sameButId l l' -> sumBy amount l = sumBy amount l'.
Proof.
  unfold sumBy. generalize 0.
  intros start H. revert start.
  induction H as [|t t' l l' (i & ->) _ IH]; intros start; cbn.
  - reflexivity.
  - apply IH.
Qed.

Lemma sameButId_filter (f : Tranche -> bool) (l l' : list Tranche) :
  (forall i t, f (withId i t) = f t) ->
  Forall2 sameButId l l' -> Forall2 sameButId (filter f l) (filter f l').
Proof.
  intros Hf. induction 1 as [|t t' l l' (i & ->) _ IH]; cbn.
  - constructor.
  - rewrite Hf. destruct (f t); [constructor|]; try assumption.
    now exists i.
Qed.

Section CounterIndependence.

Variable pow : Q -> Q -> Q.
Variable env : Env.

Lemma maturityStep_same (y : Z) (carried : Q) (a a' : MaturityAcc)
    (cd cd' : Tranche) :
  SameAcc a a' -> sameButId cd cd' ->
  SameAcc (maturityStep pow env y carried a cd)
          (maturityStep pow env y carried a' cd').
Proof.
  intros [H1 H2 H3 H4 H5 H6 H7] (i & ->).
  assert (Hkeep : forall b b', SameAcc b b' ->
            SameAcc (toCash cd b) (toCash (withId i cd) b')).
  { intros b b' [? ? ? ? ? ? ?]. constructor; cbn; congruence. }
  assert (Hnote : SameAcc (noteMaturing cd a) (noteMaturing (withId i cd) a')).
  { constructor; cbn; congruence. }
  unfold maturityStep.
  change (maturesIn y (withId i cd)) with (maturesIn y cd).
  change (reinvestmentOption (withId i cd)) with (reinvestmentOption cd).
  destruct (maturesIn y cd).
  2:{ constructor; cbn; try congruence.
      apply Forall2_app; [assumption|]. constructor; [now exists i | constructor]. }
  destruct (Qgtb carried (1 # 100)); [now apply Hkeep|].
  destruct (String.eqb (nullish (reinvestmentOption cd) "") "hysa").
  { destruct (0 <? List.length (env_hysaTranches env))%nat; [|now apply Hkeep].
    destruct Hnote as [? ? ? ? ? ? ?]. constructor; cbn; congruence. }
  destruct (String.eqb (nullish (reinvestmentOption cd) "") "newCD");
    [|now apply Hkeep].
  unfold reinvestNewCd.
  change (reinvestmentTerm (withId i cd)) with (reinvestmentTerm cd).
  change (maturityDate (withId i cd)) with (maturityDate cd).
  change (valueAtMaturity (withId i cd)) with (valueAtMaturity cd).
  destruct (reinvestDuration (env_interestRates env)
              (nullish (reinvestmentTerm cd) "")); [|now apply Hkeep].
  destruct (maturityDate cd); [|now apply Hkeep].
  destruct Hnote as [? ? ? ? ? ? ?]. constructor; cbn; try congruence.
  apply Forall2_app; [assumption|].
  constructor; [|constructor].
  eexists. unfold withId. cbn. reflexivity.
Qed.

Lemma maturityPass_same (st st' : LoopState) (y : Z) :
  SameState st st' ->
  SameAcc (maturityPass pow env st y) (maturityPass pow env st' y).
Proof.
  intros [H1 H2 H3 H4 H5 H6 H7 H8]. unfold maturityPass.
  rewrite <- H5.
  assert (H0 : SameAcc (startMaturityAcc (totalInterestEarnedCumulative st)
                                         (reinvestmentCounter st))
                       (startMaturityAcc (totalInterestEarnedCumulative st')
                                         (reinvestmentCounter st'))).
  { constructor; cbn; try reflexivity; try constructor. exact H2. }
  revert H0.
  generalize (startMaturityAcc (totalInterestEarnedCumulative st)
                               (reinvestmentCounter st))
             (startMaturityAcc (totalInterestEarnedCumulative st')
                               (reinvestmentCounter st')).
  induction H7 as [|cd cd' l l' Hcd _ IH]; intros a a' Ha; cbn.
  - exact Ha.
  - apply IH, maturityStep_same; assumption.
Qed.

Lemma simulateYear_same (st st' : LoopState) (y : Z) :
  SameState st st' ->
  SameState (simulateYear pow env st y) (simulateYear pow env st' y).
Proof.
  intros Hs.
  pose proof (maturityPass_same st st' y Hs) as [M1 M2 M3 M4 M5 M6 M7].
  destruct Hs as [H1 H2 H3 H4 H5 H6 H7 H8].
  assert (Hearn : hysaEarns env st = hysaEarns env st')
    by (unfold hysaEarns; now rewrite H6).
  assert (Hint : hysaInterestThisYear env st y = hysaInterestThisYear env st' y)
    by (unfold hysaInterestThisYear; now rewrite Hearn, H6).
  assert (Hyear : totalYearlyInterest pow env st y = totalYearlyInterest pow env st' y)
    by (unfold totalYearlyInterest; now rewrite M2, Hint).
  assert (Htax : taxesDueThisYear pow env st y = taxesDueThisYear pow env st' y)
    by (unfold taxesDueThisYear; now rewrite Hyear).
  assert (Hnet : netCashFlowBeforeHysaTransfer pow env st y
                 = netCashFlowBeforeHysaTransfer pow env st' y).
  { unfold netCashFlowBeforeHysaTransfer, cashAvailableThisYear, startingCashForYear.
    now rewrite Htax, M3, Hint, H1, H5. }
  assert (Hbal : hysaBalanceAfterReinvestment pow env st y
                 = hysaBalanceAfterReinvestment pow env st' y)
    by (unfold hysaBalanceAfterReinvestment; now rewrite M5, H6).
  assert (Hactive : Forall2 sameButId
            (remainingCdTranches (maturityPass pow env st y)
             ++ newlyReinvestedTranches (maturityPass pow env st y))%list
            (remainingCdTranches (maturityPass pow env st' y)
             ++ newlyReinvestedTranches (maturityPass pow env st' y))%list)
    by (apply Forall2_app; assumption).
  assert (Hongoing :
    sumBy amount (filter (maturesAfter y)
      (remainingCdTranches (maturityPass pow env st y)
       ++ newlyReinvestedTranches (maturityPass pow env st y))%list)
    = sumBy amount (filter (maturesAfter y)
      (remainingCdTranches (maturityPass pow env st' y)
       ++ newlyReinvestedTranches (maturityPass pow env st' y))%list)).
  { apply sameButId_sum, sameButId_filter; [reflexivity | exact Hactive]. }
  pose proof (sameButId_sum _ _ M4) as Hnew.
  unfold simulateYear. constructor; cbn [cashBalance totalInterestEarnedCumulative
    totalTaxesPaidCumulative hasShortfallOverall cumulativeShortfall
    currentHysaBalance activeCdTranches projection].
  - now rewrite Hnet, Hbal.
  - now rewrite Hearn, M7, Hint.
  - now rewrite H3, Htax.
  - now rewrite Hnet, Hbal, H4.
  - now rewrite Hnet, Hbal.
  - now rewrite Hnet, Hbal.
  - exact Hactive.
  - rewrite H8, Hnet, Hbal, Hongoing, Hnew, Hyear, Htax, Hint, M1, M2, M3, M5, H1.
    reflexivity.
Qed.

Lemma yearLoop_same (st st' : LoopState) (ys : list Z) :
  SameState st st' ->
  SameState (yearLoop pow env st ys) (yearLoop pow env st' ys).
Proof.
  revert st st'. induction ys as [|y ys IH]; intros st st' H.
  - exact H.
  - rewrite !yearLoop_cons. apply IH, simulateYear_same, H.
Qed.

End CounterIndependence.

Section Reproducible.

Variable pow : Q -> Q -> Q.

(** The counter reaches [prepare] only as the last field of the initial
    loop state. *)
Lemma prepare_counter (input : Inputs) (c1 c2 : nat) :
  match prepare pow input c1, prepare pow input c2 with
  | inl o1, inl o2 => o1 = o2
  | inr p1, inr p2 =>
      plan_initialTranches p1 = plan_initialTranches p2
      /\ plan_years p1 = plan_years p2
      /\ plan_env p1 = plan_env p2
      /\ SameState (plan_start p1) (plan_start p2)
  | _, _ => False
  end.
Proof.
  unfold prepare.
  destruct (investmentStartDate input) as [parsed|]; [|reflexivity].
  destruct (lumpSum input); [|reflexivity].
  destruct (taxRate input) as [taxRatePercent|]; [|reflexivity].
  destruct (tranches input) as [rows|]; [|reflexivity].
  destruct (withdrawals input) as [ws|]; [|reflexivity].
  destruct (interestRates input) as [rates|]; [|reflexivity].
  destruct parsed as [parsedStart|]; [|reflexivity].
  destruct (mapTranches pow rates parsedStart 0 rows); [reflexivity|].
  cbn. repeat split; try reflexivity.
  apply sameButId_list_refl.
Qed.

(** C9: two runs of the projection on identical inputs return the same
    outcome - the same sequence of year records, field for field, the same
    overall shortfall flag and the same totals, or the same error or
    exception - when they start from identical values of the module-level
    reinvestment counter, and indeed from any two values of it: the
    counter only feeds the identifiers of reinvested tranches, which no
    year record reads. *)
Theorem calculateProjections_reproducible (input : Inputs) (c1 c2 : nat) :
  fst (calculateProjections pow input c1) = fst (calculateProjections pow input c2).
Proof.
  unfold calculateProjections.
  pose proof (prepare_counter input c1 c2) as H.
  destruct (prepare pow input c1) as [o1|p1], (prepare pow input c2) as [o2|p2];
    try contradiction.
  - exact H.
  - destruct H as (Hts & Hys & Henv & Hstart). cbn [fst].
    rewrite Hys, Henv.
    pose proof (yearLoop_same pow (plan_env p2) _ _ (plan_years p2) Hstart)
      as [H1 H2 H3 H4 H5 H6 H7 H8].
    unfold finish. rewrite Hts, H2, H3, H4, H8. reflexivity.
Qed.

End Reproducible.

(** An instance of C9 in which reinvestment does advance the counter: the
    ladder reinvests a CD, so a first run started at 0 leaves the counter
    at 1, and a second run in the same process returns the same records. *)
Lemma ladder_second_run_identical :
  snd (calculateProjections powWhole (ladderInputs None) 0) = 1%nat
  /\ fst (calculateProjections powWhole (ladderInputs None) 0)
     = fst (calculateProjections powWhole (ladderInputs None) 1).
Proof.
  split; vm_compute; reflexivity.
Qed.

(** ** Baseline against the aggressive rate fall *)

(** Replaces every [Qmax] and [Qmin] by a fresh variable constrained by
    its specification, for the linear-arithmetic tactics. *)
Ltac elim_minmax :=
  repeat match goal with
         | |- context [Qmax ?a ?b] =>
             let m := fresh "m" in
             pose proof (Q.max_spec a b);
             remember (Qmax a b) as m in *;
             match goal with E : m = _ |- _ => clear E end
         | |- context [Qmin ?a ?b] =>
             let m := fresh "m" in
             pose proof (Q.min_spec a b);
             remember (Qmin a b) as m in *;
             match goal with E : m = _ |- _ => clear E end
         | H : context [Qmax ?a ?b] |- _ =>
             let m := fresh "m" in
             pose proof (Q.max_spec a b);
             remember (Qmax a b) as m in *;
             match goal with E : m = _ |- _ => clear E end
         | H : context [Qmin ?a ?b] |- _ =>
             let m := fresh "m" in
             pose proof (Q.min_spec a b);
             remember (Qmin a b) as m in *;
             match goal with E : m = _ |- _ => clear E end
         end.

(** What the block "Shortfall Check & HYSA Usage" computes, in terms of
    the net cash flow and the liquid balance it starts from. *)
Lemma coverShortfall_spec (net bal : Q) :
  0 <= bal ->
  shortfallAfter (coverShortfall net bal) == Qmax 0 (- (net + bal))
  /\ hysaAfter (coverShortfall net bal) == Qmax 0 (Qmin bal (net + bal))
  /\ Qmax 0 (netCashFlowAfter (coverShortfall net bal))
     - shortfallAfter (coverShortfall net bal)
     + hysaAfter (coverShortfall net bal) == net + bal
  /\ hysaAfter (coverShortfall net bal)
     + Qmax 0 (netCashFlowAfter (coverShortfall net bal)) == Qmax 0 (net + bal).
Proof.
  intros Hbal. unfold coverShortfall.
  destruct (Qltb net 0) eqn:Hneg.
  - apply Qltb_true in Hneg.
    assert (Habs : Qabs net == - net) by (apply Qabs_neg; lra).
    destruct (Qgtb (Qabs net) 0 && Qgtb bal 0) eqn:Hc;
      cbn [shortfallAfter hysaAfter netCashFlowAfter].
    + apply andb_true_iff in Hc. destruct Hc as [_ Hb]. apply Qgtb_true in Hb.
      elim_minmax. lra.
    + apply andb_false_iff in Hc.
      assert (Hb : bal <= 0).
      { destruct Hc as [Hc | Hc]; apply Qgtb_false in Hc; lra. }
      elim_minmax. lra.
  - apply Qltb_false in Hneg.
    replace (Qgtb 0 0) with false by reflexivity.
    cbn [andb shortfallAfter hysaAfter netCashFlowAfter].
    elim_minmax. lra.
Qed.

Lemma sumBy_le {A : Type} (f g : A -> Q) (l : list A) :
  Forall (fun x => f x <= g x) l -> sumBy f l <= sumBy g l.
Proof.
  induction 1 as [|x l Hx _ IH].
  - apply Qle_refl.
  - rewrite !sumBy_cons. lra.
Qed.

Lemma sumBy_app {A : Type} (f : A -> Q) (l1 l2 : list A) :
  sumBy f (l1 ++ l2) == sumBy f l1 + sumBy f l2.
Proof.
  induction l1 as [|x l1 IH]; cbn [app].
  - unfold sumBy at 2. cbn. ring.
  - rewrite !sumBy_cons, IH. ring.
Qed.

(** The liquid-account rate under the aggressive fall, year by year. *)
Lemma hysa_rate_significant_fall (rates : RateTable) (startYear y : Z) (baseApy : Q) :
  baseApyOf rates "HYSA" = Some baseApy ->
  getRateForYear "HYSA" y (Some "ratesFallSignificantly") rates startYear
  = Qmax (1 # 10)
         (if (1 <=? y - startYear)%Z then baseApy + - (3 # 2)
          else if (0 <=? y - startYear)%Z
               then baseApy + (baseApy + - (3 # 2) - baseApy)
                              * (inject_Z (y - startYear - 0 + 1) / inject_Z 2)
               else baseApy).
Proof.
  intros Hb.
  rewrite (getRateForYear_rule "ratesFallSignificantly"
             {| label := "Rates Fall Significantly";
                description := "A more aggressive drop in rates after Year 1 and Year 3.";
                rule := Some ratesFallSignificantly |}
             ratesFallSignificantly "HYSA" y rates startYear baseApy
             eq_refl eq_refl Hb).
  unfold scenarioRate. cbn.
  destruct (1 <=? y - startYear)%Z; [reflexivity|].
  destruct (0 <=? y - startYear)%Z; reflexivity.
Qed.

Lemma hysa_rate_lags (rates : RateTable) (startYear y : Z) :
  (forall a, baseApyOf rates "HYSA" = Some a -> 1 # 10 <= a) ->
  0 <= getRateForYear "HYSA" y (Some "ratesFallSignificantly") rates startYear
  /\ getRateForYear "HYSA" y (Some "ratesFallSignificantly") rates startYear
     <= getRateForYear "HYSA" y (Some "ratesStayHigh") rates startYear.
Proof.
  intros Hfloor. rewrite getRateForYear_stay_high.
  destruct (baseApyOf rates "HYSA") as [a|] eqn:Hb.
  2:{ unfold getRateForYear. rewrite Hb. split; apply Qle_refl. }
  specialize (Hfloor a eq_refl).
  rewrite (hysa_rate_significant_fall rates startYear y a Hb).
  destruct (1 <=? y - startYear)%Z eqn:H1.
  { elim_minmax. lra. }
  destruct (0 <=? y - startYear)%Z eqn:H0.
  2:{ elim_minmax. lra. }
  apply Z.leb_gt in H1. apply Z.leb_le in H0.
  replace (y - startYear - 0 + 1)%Z with 1%Z by lia.
  change (inject_Z 1 / inject_Z 2) with (1 # 2).
  elim_minmax. lra.
Qed.

(** From the start year on the aggressive fall is strictly below a base
    rate that exceeds the floor. *)
Lemma hysa_rate_strictly_lags (rates : RateTable) (startYear y : Z) (baseApy : Q) :
  baseApyOf rates "HYSA" = Some baseApy ->
  1 # 10 < baseApy ->
  (startYear <= y)%Z ->
  getRateForYear "HYSA" y (Some "ratesFallSignificantly") rates startYear
  < getRateForYear "HYSA" y (Some "ratesStayHigh") rates startYear.
Proof.
  intros Hb Hfloor Hy. rewrite getRateForYear_stay_high, Hb.
  rewrite (hysa_rate_significant_fall rates startYear y baseApy Hb).
  destruct (1 <=? y - startYear)%Z eqn:H1.
  { elim_minmax. lra. }
  destruct (0 <=? y - startYear)%Z eqn:H0.
  2:{ apply Z.leb_gt in H0. lia. }
  apply Z.leb_gt in H1.
  replace (y - startYear - 0 + 1)%Z with 1%Z by lia.
  change (inject_Z 1 / inject_Z 2) with (1 # 2).
  elim_minmax. lra.
Qed.

Lemma Qmult_le_mono (a b c d : Q) :
  0 <= a -> a <= b -> 0 <= c -> c <= d -> a * c <= b * d.
Proof.
  intros Ha Hab Hc Hcd.
  apply Qle_trans with (b * c).
  - apply Qmult_le_compat_r; assumption.
  - rewrite !(Qmult_comm b). apply Qmult_le_compat_r; [assumption | lra].
Qed.

Section RunFacts.

Variable pow : Q -> Q -> Q.

Lemma totalInterest_step (e : Env) (st : LoopState) (y : Z) :
  totalInterestEarnedCumulative (simulateYear pow e st y)
  == acc_totalInterest (maturityPass pow e st y) + hysaInterestThisYear e st y.
Proof.
  unfold simulateYear. cbn [totalInterestEarnedCumulative].
  unfold hysaInterestThisYear.
  destruct (hysaEarns e st); [reflexivity | ring].
Qed.

(** A run that returns totals went through [prepare]. *)
Lemma totals_plan (input : Inputs) (counter : nat) (result : ProjectionResult)
    (t : Totals) :
  fst (calculateProjections pow input counter) = Returned result ->
  totals result = Some t ->
  exists plan,
    prepare pow input counter = inr plan
    /\ result = finish plan (yearLoop pow (plan_env plan) (plan_start plan)
                                      (plan_years plan)).
Proof.
  unfold calculateProjections.
  destruct (prepare pow input counter) as [outcome | plan] eqn:Hp; cbn [fst].
  - intros -> Ht. exfalso. unfold prepare in Hp.
    repeat match type of Hp with
           | match ?x with _ => _ end = _ => destruct x; try discriminate
           end.
    all: inversion Hp; subst; discriminate Ht.
  - intros H _. exists plan. split; [reflexivity | now inversion H].
Qed.

Lemma prepare_withScenario (input : Inputs) (scenario : option string)
    (counter : nat) (parsedStart : JsDate) (numLumpSum taxRatePercent : Q)
    (rows : list TrancheRow) (ws : list Withdrawal) (rates : RateTable)
    (ts : list Tranche) :
  investmentStartDate input = Some (Some parsedStart) ->
  lumpSum input = Some numLumpSum ->
  taxRate input = Some taxRatePercent ->
  tranches input = Some rows ->
  withdrawals input = Some ws ->
  interestRates input = Some rates ->
  mapTranches pow rates parsedStart 0 rows = inr ts ->
  prepare pow (withScenario scenario input) counter
  = inr (makePlan parsedStart taxRatePercent ws rates scenario ts counter).
Proof.
  intros H1 H2 H3 H4 H5 H6 H7. unfold prepare, withScenario.
  cbn [investmentStartDate lumpSum taxRate tranches withdrawals interestRates
       rateScenario].
  rewrite H1, H2, H3, H4, H5, H6, H7. reflexivity.
Qed.

End RunFacts.

Lemma Forall2_reverse {A B : Type} (R : A -> B -> Prop) (l : list A) (l' : list B) :
  Forall2 R l l' -> Forall2 R (rev l) (rev l').
Proof.
  induction 1 as [|x y l l' Hxy _ IH]; cbn [rev].
  - constructor.
  - apply Forall2_app; [exact IH | constructor; [exact Hxy | constructor]].
Qed.

Lemma lastRecord_Forall2 (R : YearRecord -> YearRecord -> Prop)
    (l l' : list YearRecord) :
  Forall2 R l l' ->
  match lastRecord l, lastRecord l' with
  | Some r, Some r' => R r r'
  | None, None => True
  | _, _ => False
  end.
Proof.
  intros H. unfold lastRecord.
  apply Forall2_reverse in H. destruct H; [exact I | assumption].
Qed.

(* ------------------------------------------------------------------ *)
(** * Further properties of the code *)

(** ** The resolver over the years *)

(** Both rate-fall entries of the table only lower rates. *)
Lemma table_adjustments_nonpositive (cfg : ScenarioRule) (termKey : string) :
  cfg = ratesFallModerately \/ cfg = ratesFallSignificantly ->
  adjustmentFor cfg termKey <= 0.
Proof.
  intros [-> | ->]; unfold adjustmentFor; cbn;
    repeat match goal with
           | |- context [String.eqb ?a ?b] => destruct (String.eqb a b)
           end; cbn; discriminate.
Qed.

Lemma scenarioRate_adjustmentFor (cfg : ScenarioRule) (termKey : string)
    (baseApy : Q) (year startYear : Z) :
  scenarioRate cfg termKey baseApy year startYear
  = Qmax (floor cfg)
      (if (targetYearFullEffect cfg - 1 <=? year - startYear)%Z
       then baseApy + adjustmentFor cfg termKey
       else if (targetYearStartEffect cfg - 1 <=? year - startYear)%Z
               && (0 <? targetYearFullEffect cfg - 1
                        - (targetYearStartEffect cfg - 1))%Z
            then baseApy
                 + (baseApy + adjustmentFor cfg termKey - baseApy)
                   * (inject_Z (year - startYear
                                - (targetYearStartEffect cfg - 1) + 1)
                      / inject_Z (targetYearFullEffect cfg - 1
                                  - (targetYearStartEffect cfg - 1) + 1))
            else baseApy).
Proof.
  unfold scenarioRate, adjustmentFor, nullish.
  destruct (lookup termKey (adjustments cfg));
    [|destruct (lookup "HYSA" (adjustments cfg))]; reflexivity.
Qed.

(** The interpolation progress lies strictly between 0 and 1 and grows
    with the year. *)
Lemma progress_bounds (elapsed span : Z) :
  (0 <= elapsed < span)%Z ->
  0 < inject_Z (elapsed + 1) / inject_Z (span + 1)
  /\ inject_Z (elapsed + 1) / inject_Z (span + 1) < 1.
Proof.
  intros H.
  assert (Hs : 0 < inject_Z (span + 1))
    by (change 0 with (inject_Z 0); rewrite <- Zlt_Qlt; lia).
  split.
  - apply Qlt_shift_div_l; [exact Hs|]. rewrite Qmult_0_l.
    change 0 with (inject_Z 0). rewrite <- Zlt_Qlt. lia.
  - apply Qlt_shift_div_r; [exact Hs|]. rewrite Qmult_1_l.
    rewrite <- Zlt_Qlt. lia.
Qed.

Lemma progress_monotone (e1 e2 span : Z) :
  (0 <= span)%Z -> (e1 <= e2)%Z ->
  inject_Z (e1 + 1) / inject_Z (span + 1) <= inject_Z (e2 + 1) / inject_Z (span + 1).
Proof.
  intros Hs He. unfold Qdiv. apply Qmult_le_compat_r.
  - rewrite <- Zle_Qle. lia.
  - apply Qlt_le_weak, Qinv_lt_0_compat.
    change 0 with (inject_Z 0). rewrite <- Zlt_Qlt. lia.
Qed.

Section RuleOverYears.

Variable cfg : ScenarioRule.
Variable termKey : string.
Variable baseApy : Q.
Variable startYear : Z.

Hypothesis adjustment_nonpositive : adjustmentFor cfg termKey <= 0.

Lemma scenarioRate_at_most_base (y : Z) :
  scenarioRate cfg termKey baseApy y startYear <= Qmax (floor cfg) baseApy.
Proof.
  rewrite scenarioRate_adjustmentFor.
  apply Q.max_le_compat_l.
  destruct (targetYearFullEffect cfg - 1 <=? y - startYear)%Z eqn:Hfull; [lra|].
  destruct (targetYearStartEffect cfg - 1 <=? y - startYear)%Z eqn:Hstart;
    cbn [andb]; [|lra].
  destruct (0 <? targetYearFullEffect cfg - 1 - (targetYearStartEffect cfg - 1))%Z
    eqn:Hspan; [|lra].
  apply Z.leb_gt in Hfull. apply Z.leb_le in Hstart. apply Z.ltb_lt in Hspan.
  destruct (progress_bounds (y - startYear - (targetYearStartEffect cfg - 1))
              (targetYearFullEffect cfg - 1 - (targetYearStartEffect cfg - 1)))
    as [Hp0 Hp1]; [lia|].
  set (p := inject_Z (y - startYear - (targetYearStartEffect cfg - 1) + 1)
            / inject_Z (targetYearFullEffect cfg - 1
                        - (targetYearStartEffect cfg - 1) + 1)) in *.
  assert (H : (baseApy + adjustmentFor cfg termKey - baseApy) * p
              == adjustmentFor cfg termKey * p) by ring.
  assert (H' : 0 <= - adjustmentFor cfg termKey * p)
    by (apply Qmult_le_0_compat; lra).
  lra.
Qed.

Lemma scenarioRate_antitone (y1 y2 : Z) :
  (y1 <= y2)%Z ->
  scenarioRate cfg termKey baseApy y2 startYear
  <= scenarioRate cfg termKey baseApy y1 startYear.
Proof.
  intros Hy. rewrite !scenarioRate_adjustmentFor.
  apply Q.max_le_compat_l.
  set (se := (targetYearStartEffect cfg - 1)%Z).
  set (fe := (targetYearFullEffect cfg - 1)%Z).
  set (adj := adjustmentFor cfg termKey) in *.
  destruct (fe <=? y1 - startYear)%Z eqn:F1.
  { apply Z.leb_le in F1.
    assert (F2 : (fe <=? y2 - startYear)%Z = true) by (apply Z.leb_le; lia).
    rewrite F2. lra. }
  apply Z.leb_gt in F1.
  destruct (0 <? fe - se)%Z eqn:Hspan.
  2:{ (* no interpolation window *)
      rewrite !andb_false_r.
      destruct (fe <=? y2 - startYear)%Z; lra. }
  apply Z.ltb_lt in Hspan. rewrite !andb_true_r.
  destruct (se <=? y1 - startYear)%Z eqn:S1.
  - apply Z.leb_le in S1.
    destruct (progress_bounds (y1 - startYear - se) (fe - se)) as [P1 Q1]; [lia|].
    set (p1 := inject_Z (y1 - startYear - se + 1) / inject_Z (fe - se + 1)) in *.
    assert (E1 : (baseApy + adj - baseApy) * p1 == adj * p1) by ring.
    destruct (fe <=? y2 - startYear)%Z eqn:F2.
    + assert (H : 0 <= - adj * (1 - p1)) by (apply Qmult_le_0_compat; lra).
      lra.
    + apply Z.leb_gt in F2.
      assert (S2 : (se <=? y2 - startYear)%Z = true) by (apply Z.leb_le; lia).
      rewrite S2.
      pose proof (progress_monotone (y1 - startYear - se) (y2 - startYear - se)
                    (fe - se)) as Hm.
      set (p2 := inject_Z (y2 - startYear - se + 1) / inject_Z (fe - se + 1)) in *.
      assert (E2 : (baseApy + adj - baseApy) * p2 == adj * p2) by ring.
      assert (Hm' : p1 <= p2) by (apply Hm; lia).
      assert (H : 0 <= - adj * (p2 - p1)) by (apply Qmult_le_0_compat; lra).
      lra.
  - apply Z.leb_gt in S1.
    destruct (fe <=? y2 - startYear)%Z eqn:F2; [lra|].
    apply Z.leb_gt in F2.
    destruct (se <=? y2 - startYear)%Z eqn:S2; [|lra].
    apply Z.leb_le in S2.
    destruct (progress_bounds (y2 - startYear - se) (fe - se)) as [P2 Q2]; [lia|].
    set (p2 := inject_Z (y2 - startYear - se + 1) / inject_Z (fe - se + 1)) in *.
    assert (E2 : (baseApy + adj - baseApy) * p2 == adj * p2) by ring.
    assert (H : 0 <= - adj * p2) by (apply Qmult_le_0_compat; lra).
    lra.
Qed.

End RuleOverYears.

(** The number computed under a rate-fall scenario lies between the floor
    and the larger of the floor and the base APY. *)
Lemma rate_between_floor_and_base (k : string)
    (scenarioConfig : ScenarioConfig) (cfg : ScenarioRule) (termKey : string)
    (year : Z) (baseRates : RateTable) (startYear : Z) (baseApy : Q) :
  lookup k RATE_SCENARIOS = Some scenarioConfig ->
  rule scenarioConfig = Some cfg ->
  baseApyOf baseRates termKey = Some baseApy ->
  floor cfg <= getRateForYear termKey year (Some k) baseRates startYear
  /\ getRateForYear termKey year (Some k) baseRates startYear
     <= Qmax (floor cfg) baseApy
  /\ (floor cfg <= baseApy ->
      getRateForYear termKey year (Some k) baseRates startYear <= baseApy).
Proof.
  intros Hk Hr Hb.
  rewrite (getRateForYear_rule k scenarioConfig cfg termKey year baseRates
             startYear baseApy Hk Hr Hb).
  assert (Hadj : adjustmentFor cfg termKey <= 0).
  { apply table_adjustments_nonpositive.
    destruct (RATE_SCENARIOS_rule k scenarioConfig cfg Hk Hr) as [[_ ->] | [_ ->]];
      [now left | now right]. }
  pose proof (scenarioRate_at_most_base cfg termKey baseApy startYear Hadj year) as Hup.
  split; [apply scenarioRate_floor|]. split; [exact Hup|].
  intros Hfloor. revert Hup. elim_minmax. lra.
Qed.

(** X1: under either rate-fall scenario of the table, for a term key that
    has a numeric base APY and is not an inherited property name, the
    resolver returns a number that lies between the scenario's floor and
    the larger of the floor and the base APY, in every year: a rate-fall
    scenario never yields more than the base rate unless the floor lifts
    it. *)
Theorem getRateForYear_between_floor_and_base (k : string)
    (scenarioConfig : ScenarioConfig) (cfg : ScenarioRule) (termKey : string)
    (year : Z) (baseRates : RateTable) (startYear : Z) (baseApy : Q) :
  lookup k RATE_SCENARIOS = Some scenarioConfig ->
  rule scenarioConfig = Some cfg ->
  baseApyOf baseRates termKey = Some baseApy ->
  ~ In termKey inheritedKeys ->
  exists rate,
    getRateForYearResult termKey year (Some k) baseRates startYear
    = RateNumber rate
    /\ floor cfg <= rate
    /\ rate <= Qmax (floor cfg) baseApy
    /\ (floor cfg <= baseApy -> rate <= baseApy).
Proof.
  intros Hk Hr Hb Ht.
  exists (getRateForYear termKey year (Some k) baseRates startYear).
  split.
  - exact (getRateForYearResult_table k scenarioConfig termKey year baseRates
             startYear Hk Ht).
  - exact (rate_between_floor_and_base k scenarioConfig cfg termKey year
             baseRates startYear baseApy Hk Hr Hb).
Qed.

Lemma getRateForYear_between_floor_and_base_witness :
  exists rate,
    getRateForYearResult "24m" 2026 (Some "ratesFallModerately")
                         DEFAULT_INTEREST_RATES 2024
    = RateNumber rate
    /\ floor ratesFallModerately <= rate
    /\ rate <= Qmax (floor ratesFallModerately) (7 # 2)
    /\ (floor ratesFallModerately <= 7 # 2 -> rate <= 7 # 2).
Proof.
  apply (getRateForYear_between_floor_and_base "ratesFallModerately"
           {| label := "Rates Fall Moderately";
              description := "Assumes HYSA rates drop 0.5% and new CD yields drop 0.75% after Year 1, repeating in Year 3.";
              rule := Some ratesFallModerately |}
           ratesFallModerately "24m" 2026 DEFAULT_INTEREST_RATES 2024 (7 # 2));
    try reflexivity.
  intros H. repeat (destruct H as [H | H]; [discriminate|]). exact H.
Defined.

(** The number computed under a rate-fall scenario never rises from one
    year to a later one. *)
Lemma rate_never_rises (k : string)
    (scenarioConfig : ScenarioConfig) (cfg : ScenarioRule) (termKey : string)
    (y1 y2 : Z) (baseRates : RateTable) (startYear : Z) :
  lookup k RATE_SCENARIOS = Some scenarioConfig ->
  rule scenarioConfig = Some cfg ->
  (y1 <= y2)%Z ->
  getRateForYear termKey y2 (Some k) baseRates startYear
  <= getRateForYear termKey y1 (Some k) baseRates startYear.
Proof.
  intros Hk Hr Hy.
  destruct (baseApyOf baseRates termKey) as [baseApy|] eqn:Hb.
  2:{ unfold getRateForYear. rewrite Hb. apply Qle_refl. }
  rewrite !(getRateForYear_rule k scenarioConfig cfg termKey _ baseRates
              startYear baseApy Hk Hr Hb).
  apply scenarioRate_antitone; [|exact Hy].
  apply table_adjustments_nonpositive.
  destruct (RATE_SCENARIOS_rule k scenarioConfig cfg Hk Hr) as [[_ ->] | [_ ->]];
    [now left | now right].
Qed.

(** X2: under either rate-fall scenario of the table, for a term key that
    is not an inherited property name, the resolver returns numbers that
    never rise from one year to a later one. *)
Theorem getRateForYear_never_rises (k : string)
    (scenarioConfig : ScenarioConfig) (cfg : ScenarioRule) (termKey : string)
    (y1 y2 : Z) (baseRates : RateTable) (startYear : Z) :
  lookup k RATE_SCENARIOS = Some scenarioConfig ->
  rule scenarioConfig = Some cfg ->
  ~ In termKey inheritedKeys ->
  (y1 <= y2)%Z ->
  exists rate1 rate2,
    getRateForYearResult termKey y1 (Some k) baseRates startYear
    = RateNumber rate1
    /\ getRateForYearResult termKey y2 (Some k) baseRates startYear
       = RateNumber rate2
    /\ rate2 <= rate1.
Proof.
  intros Hk Hr Ht Hy.
  exists (getRateForYear termKey y1 (Some k) baseRates startYear),
         (getRateForYear termKey y2 (Some k) baseRates startYear).
  split; [|split].
  - exact (getRateForYearResult_table k scenarioConfig termKey y1 baseRates
             startYear Hk Ht).
  - exact (getRateForYearResult_table k scenarioConfig termKey y2 baseRates
             startYear Hk Ht).
  - exact (rate_never_rises k scenarioConfig cfg termKey y1 y2 baseRates
             startYear Hk Hr Hy).
Qed.

Lemma getRateForYear_never_rises_witness :
  exists rate1 rate2,
    getRateForYearResult "HYSA" 2024 (Some "ratesFallSignificantly")
                         DEFAULT_INTEREST_RATES 2024
    = RateNumber rate1
    /\ getRateForYearResult "HYSA" 2027 (Some "ratesFallSignificantly")
                            DEFAULT_INTEREST_RATES 2024
       = RateNumber rate2
    /\ rate2 <= rate1.
Proof.
  apply (getRateForYear_never_rises "ratesFallSignificantly"
           {| label := "Rates Fall Significantly";
              description := "A more aggressive drop in rates after Year 1 and Year 3.";
              rule := Some ratesFallSignificantly |}
           ratesFallSignificantly "HYSA" 2024 2027 DEFAULT_INTEREST_RATES 2024);
    [reflexivity | reflexivity | | lia].
  intros H. repeat (destruct H as [H | H]; [discriminate|]). exact H.
Defined.

(** The numbers computed under the two rate-fall scenarios, year by
    year. *)
Lemma rate_timetable (termKey : string) (year : Z)
    (baseRates : RateTable) (startYear : Z) (baseApy : Q) :
  baseApyOf baseRates termKey = Some baseApy ->
  getRateForYear termKey year (Some "ratesFallModerately") baseRates startYear
  == Qmax (1 # 4)
       (if (year <? startYear + 1)%Z then baseApy
        else if (year =? startYear + 1)%Z
             then baseApy + adjustmentFor ratesFallModerately termKey * (1 # 2)
             else baseApy + adjustmentFor ratesFallModerately termKey)
  /\ getRateForYear termKey year (Some "ratesFallSignificantly") baseRates startYear
     == Qmax (1 # 10)
          (if (year <? startYear)%Z then baseApy
           else if (year =? startYear)%Z
                then baseApy + adjustmentFor ratesFallSignificantly termKey * (1 # 2)
                else baseApy + adjustmentFor ratesFallSignificantly termKey).
Proof.
  intros Hb. split.
  - rewrite (getRateForYear_rule "ratesFallModerately"
               {| label := "Rates Fall Moderately";
                  description := "Assumes HYSA rates drop 0.5% and new CD yields drop 0.75% after Year 1, repeating in Year 3.";
                  rule := Some ratesFallModerately |}
               ratesFallModerately termKey year baseRates startYear baseApy
               eq_refl eq_refl Hb).
    rewrite scenarioRate_adjustmentFor.
    change (floor ratesFallModerately) with (1 # 4).
    change (targetYearFullEffect ratesFallModerately - 1)%Z with 2%Z.
    change (targetYearStartEffect ratesFallModerately - 1)%Z with 1%Z.
    apply Q.max_compat; [reflexivity|].
    destruct (2 <=? year - startYear)%Z eqn:F.
    + apply Z.leb_le in F.
      replace (year <? startYear + 1)%Z with false by (symmetry; apply Z.ltb_ge; lia).
      replace (year =? startYear + 1)%Z with false by (symmetry; apply Z.eqb_neq; lia).
      reflexivity.
    + apply Z.leb_gt in F.
      destruct (1 <=? year - startYear)%Z eqn:S; cbn [andb Z.ltb Z.sub Z.compare].
      * apply Z.leb_le in S.
        replace (year <? startYear + 1)%Z with false by (symmetry; apply Z.ltb_ge; lia).
        replace (year =? startYear + 1)%Z with true by (symmetry; apply Z.eqb_eq; lia).
        replace (year - startYear - 1 + 1)%Z with 1%Z by lia.
        change (0 <? 2 - 1)%Z with true. cbn iota.
        change (inject_Z 1 / inject_Z (2 - 1 + 1)) with (1 # 2). ring.
      * apply Z.leb_gt in S.
        replace (year <? startYear + 1)%Z with true by (symmetry; apply Z.ltb_lt; lia).
        reflexivity.
  - rewrite (getRateForYear_rule "ratesFallSignificantly"
               {| label := "Rates Fall Significantly";
                  description := "A more aggressive drop in rates after Year 1 and Year 3.";
                  rule := Some ratesFallSignificantly |}
               ratesFallSignificantly termKey year baseRates startYear baseApy
               eq_refl eq_refl Hb).
    rewrite scenarioRate_adjustmentFor.
    change (floor ratesFallSignificantly) with (1 # 10).
    change (targetYearFullEffect ratesFallSignificantly - 1)%Z with 1%Z.
    change (targetYearStartEffect ratesFallSignificantly - 1)%Z with 0%Z.
    apply Q.max_compat; [reflexivity|].
    destruct (1 <=? year - startYear)%Z eqn:F.
    + apply Z.leb_le in F.
      replace (year <? startYear)%Z with false by (symmetry; apply Z.ltb_ge; lia).
      replace (year =? startYear)%Z with false by (symmetry; apply Z.eqb_neq; lia).
      reflexivity.
    + apply Z.leb_gt in F.
      destruct (0 <=? year - startYear)%Z eqn:S; cbn [andb].
      * apply Z.leb_le in S.
        replace (year <? startYear)%Z with false by (symmetry; apply Z.ltb_ge; lia).
        replace (year =? startYear)%Z with true by (symmetry; apply Z.eqb_eq; lia).
        replace (year - startYear - 0 + 1)%Z with 1%Z by lia.
        change (0 <? 1 - 0)%Z with true. cbn iota.
        change (inject_Z 1 / inject_Z (1 - 0 + 1)) with (1 # 2). ring.
      * apply Z.leb_gt in S.
        replace (year <? startYear)%Z with true by (symmetry; apply Z.ltb_lt; lia).
        reflexivity.
Qed.

(** X3: the timetable of the two rate-fall scenarios, for a term key that
    has a numeric base APY and is not an inherited property name.  The
    moderate fall leaves the (floor-clamped) base rate in the start year,
    applies half the adjustment in the following year and the whole
    adjustment from the second year after the start; the aggressive fall
    already applies half the adjustment in the start year itself and the
    whole adjustment from the following year on. *)
Theorem rate_fall_timetable (termKey : string) (year : Z)
    (baseRates : RateTable) (startYear : Z) (baseApy : Q) :
  baseApyOf baseRates termKey = Some baseApy ->
  ~ In termKey inheritedKeys ->
  exists moderate significant,
    getRateForYearResult termKey year (Some "ratesFallModerately")
                         baseRates startYear
    = RateNumber moderate
    /\ moderate
       == Qmax (1 # 4)
            (if (year <? startYear + 1)%Z then baseApy
             else if (year =? startYear + 1)%Z
                  then baseApy + adjustmentFor ratesFallModerately termKey * (1 # 2)
                  else baseApy + adjustmentFor ratesFallModerately termKey)
    /\ getRateForYearResult termKey year (Some "ratesFallSignificantly")
                            baseRates startYear
       = RateNumber significant
    /\ significant
       == Qmax (1 # 10)
            (if (year <? startYear)%Z then baseApy
             else if (year =? startYear)%Z
                  then baseApy
                       + adjustmentFor ratesFallSignificantly termKey * (1 # 2)
                  else baseApy + adjustmentFor ratesFallSignificantly termKey).
Proof.
  intros Hb Ht.
  destruct (rate_timetable termKey year baseRates startYear baseApy Hb)
    as (Hm & Hs).
  exists (getRateForYear termKey year (Some "ratesFallModerately")
                         baseRates startYear),
         (getRateForYear termKey year (Some "ratesFallSignificantly")
                         baseRates startYear).
  split; [|split; [exact Hm|split; [|exact Hs]]].
  - now apply (getRateForYearResult_table "ratesFallModerately"
                 {| label := "Rates Fall Moderately";
                    description := "Assumes HYSA rates drop 0.5% and new CD yields drop 0.75% after Year 1, repeating in Year 3.";
                    rule := Some ratesFallModerately |}).
  - now apply (getRateForYearResult_table "ratesFallSignificantly"
                 {| label := "Rates Fall Significantly";
                    description := "A more aggressive drop in rates after Year 1 and Year 3.";
                    rule := Some ratesFallSignificantly |}).
Qed.

Lemma rate_fall_timetable_witness :
  exists moderate significant,
    getRateForYearResult "12m" 2025 (Some "ratesFallModerately")
                         DEFAULT_INTEREST_RATES 2024
    = RateNumber moderate
    /\ moderate
       == Qmax (1 # 4)
            (if (2025 <? 2024 + 1)%Z then 4
             else if (2025 =? 2024 + 1)%Z
                  then 4 + adjustmentFor ratesFallModerately "12m" * (1 # 2)
                  else 4 + adjustmentFor ratesFallModerately "12m")
    /\ getRateForYearResult "12m" 2025 (Some "ratesFallSignificantly")
                            DEFAULT_INTEREST_RATES 2024
       = RateNumber significant
    /\ significant
       == Qmax (1 # 10)
            (if (2025 <? 2024)%Z then 4
             else if (2025 =? 2024)%Z
                  then 4 + adjustmentFor ratesFallSignificantly "12m" * (1 # 2)
                  else 4 + adjustmentFor ratesFallSignificantly "12m").
Proof.
  apply (rate_fall_timetable "12m" 2025 DEFAULT_INTEREST_RATES 2024 4).
  - reflexivity.
  - intros H. repeat (destruct H as [H | H]; [discriminate|]). exact H.
Defined.

(** ** One simulated year *)

(** The block "Shortfall Check & HYSA Usage", whatever the balance. *)
Lemma coverShortfall_facts (net bal : Q) :
  0 <= shortfallAfter (coverShortfall net bal)
  /\ 0 <= hysaWithdrawal (coverShortfall net bal)
  /\ hysaAfter (coverShortfall net bal)
     == bal - hysaWithdrawal (coverShortfall net bal)
  /\ Qmax 0 (netCashFlowAfter (coverShortfall net bal))
     - shortfallAfter (coverShortfall net bal)
     == net + hysaWithdrawal (coverShortfall net bal)
  /\ (0 < shortfallAfter (coverShortfall net bal) ->
      hysaAfter (coverShortfall net bal) <= 0)
  /\ (0 < Qmax 0 (netCashFlowAfter (coverShortfall net bal)) ->
      shortfallAfter (coverShortfall net bal) == 0)
  /\ (0 < hysaWithdrawal (coverShortfall net bal) -> net < 0 /\ 0 < bal)
  /\ hysaWithdrawal (coverShortfall net bal) <= Qmax 0 bal.
Proof.
  unfold coverShortfall.
  destruct (Qltb net 0) eqn:Hneg.
  - apply Qltb_true in Hneg.
    assert (Habs : Qabs net == - net) by (apply Qabs_neg; lra).
    destruct (Qgtb (Qabs net) 0 && Qgtb bal 0) eqn:Hc;
      cbn [shortfallAfter hysaAfter netCashFlowAfter hysaWithdrawal].
    + apply andb_true_iff in Hc. destruct Hc as [_ Hb]. apply Qgtb_true in Hb.
      elim_minmax. repeat split; try lra.
    + apply andb_false_iff in Hc.
      assert (Hb : bal <= 0).
      { destruct Hc as [Hc | Hc]; apply Qgtb_false in Hc; lra. }
      elim_minmax. repeat split; try lra.
  - apply Qltb_false in Hneg.
    replace (Qgtb 0 0) with false by reflexivity.
    cbn [andb shortfallAfter hysaAfter netCashFlowAfter hysaWithdrawal].
    elim_minmax. repeat split; try lra.
Qed.

Ltac acc_simpl :=
  unfold keepCd, toCash, toHysa, toNewCd, noteMaturing, startMaturityAcc;
  cbn [maturingValueTotalThisYear interestFromMaturingCDsThisYear
       cashFromMaturingThisYear newlyReinvestedTranches
       hysaValueReinvestedThisYear remainingCdTranches acc_totalInterest
       acc_counter].

Lemma sumBy_snoc {A : Type} (f : A -> Q) (l : list A) (x : A) :
  sumBy f (l ++ [x]) == sumBy f l + f x.
Proof.
  rewrite sumBy_app, sumBy_cons.
  change (sumBy f []) with 0. ring.
Qed.

Section YearFacts.

Variable pow : Q -> Q -> Q.
Variable env : Env.

(** The record pushed by an iteration, field by field. *)
Lemma emittedRecord_fields (st : LoopState) (y : Z) (r : YearRecord) :
  emittedRecord pow env st y = Some r ->
  let m := maturityPass pow env st y in
  let covered := coverShortfall (netCashFlowBeforeHysaTransfer pow env st y)
                                (hysaBalanceAfterReinvestment pow env st y) in
  year r = y
  /\ maturingValue r = maturingValueTotalThisYear m
  /\ reinvestedValue r
     = hysaValueReinvestedThisYear m + sumBy amount (newlyReinvestedTranches m)
  /\ yearlyInterest r = totalYearlyInterest pow env st y
  /\ interestFromCDs r = interestFromMaturingCDsThisYear m
  /\ interestFromHYSA r = hysaInterestThisYear env st y
  /\ taxesDue r = taxesDueThisYear pow env st y
  /\ hysaWithdrawalToCoverShortfall r = hysaWithdrawal covered
  /\ withdrawalAmount r = totalWithdrawalsThisYear env y
  /\ endOfYearCash r = Qmax 0 (netCashFlowAfter covered)
  /\ endOfYearHysaBalance r = hysaAfter covered
  /\ hasShortfall r = Qgtb (shortfallAfter covered) (1 # 100)
  /\ yearEndShortfallAmount r = shortfallAfter covered.
Proof.
  unfold emittedRecord, simulateYear. cbn [projection].
  rewrite lastRecord_snoc. intros H. injection H as <-.
  cbn [year maturingValue reinvestedValue yearlyInterest interestFromCDs
       interestFromHYSA taxesDue hysaWithdrawalToCoverShortfall
       withdrawalAmount endOfYearCash endOfYearHysaBalance hasShortfall
       yearEndShortfallAmount].
  repeat split; reflexivity.
Qed.

(** The derived fields of the record pushed by an iteration. *)
Lemma emittedRecord_derived (st : LoopState) (y : Z) (r : YearRecord) :
  emittedRecord pow env st y = Some r ->
  netCashFlowYear r = endOfYearCash r - cashBalance st
  /\ ongoingInvestmentsTotal r = ongoingCDInvestments r + endOfYearHysaBalance r
  /\ totalPortfolioValue r = ongoingInvestmentsTotal r + endOfYearCash r
  /\ ongoingCDInvestments r
     = sumBy amount (filter (maturesAfter y)
                            (activeCdTranches (simulateYear pow env st y))).
Proof.
  unfold emittedRecord, simulateYear. cbn [projection].
  rewrite lastRecord_snoc. intros H. injection H as <-.
  cbn [netCashFlowYear ongoingInvestmentsTotal totalPortfolioValue
       ongoingCDInvestments endOfYearCash endOfYearHysaBalance activeCdTranches].
  repeat split; reflexivity.
Qed.

(** What an iteration leaves in the loop state. *)
Lemma simulateYear_state (st : LoopState) (y : Z) :
  let m := maturityPass pow env st y in
  let covered := coverShortfall (netCashFlowBeforeHysaTransfer pow env st y)
                                (hysaBalanceAfterReinvestment pow env st y) in
  cashBalance (simulateYear pow env st y) = Qmax 0 (netCashFlowAfter covered)
  /\ cumulativeShortfall (simulateYear pow env st y) = shortfallAfter covered
  /\ currentHysaBalance (simulateYear pow env st y) = hysaAfter covered
  /\ activeCdTranches (simulateYear pow env st y)
     = (remainingCdTranches m ++ newlyReinvestedTranches m)%list
  /\ reinvestmentCounter (simulateYear pow env st y) = acc_counter m
  /\ totalTaxesPaidCumulative (simulateYear pow env st y)
     = totalTaxesPaidCumulative st + taxesDueThisYear pow env st y
  /\ hasShortfallOverall (simulateYear pow env st y)
     = (Qgtb (shortfallAfter covered) (1 # 100) || hasShortfallOverall st)%bool.
Proof.
  cbn zeta. unfold simulateYear. cbn.
  repeat split; reflexivity.
Qed.

(** The five ways in which the body of the CD loop ends. *)
Lemma maturityStep_cases (y : Z) (carried : Q) (a : MaturityAcc) (cd : Tranche) :
  (maturesIn y cd = false /\ maturityStep pow env y carried a cd = keepCd cd a)
  \/ (maturesIn y cd = true
      /\ (maturityStep pow env y carried a cd = toCash cd (noteMaturing cd a)
          \/ (Qgtb carried (1 # 100) = false
              /\ env_hysaTranches env <> []
              /\ maturityStep pow env y carried a cd
                 = toHysa cd (noteMaturing cd a))
          \/ (Qgtb carried (1 # 100) = false
              /\ electsNewCd cd = true
              /\ exists t, reinvestedFrom cd t
                   /\ maturityStep pow env y carried a cd
                      = toNewCd t (noteMaturing cd a)))).
Proof.
  unfold maturityStep.
  destruct (maturesIn y cd); [right; split; [reflexivity|] | left; now split].
  destruct (Qgtb carried (1 # 100)); [now left|].
  destruct (String.eqb (nullish (reinvestmentOption cd) "") "hysa").
  { destruct (env_hysaTranches env) eqn:Hh; cbn [List.length Nat.ltb Nat.leb];
      [now left|].
    right. left. repeat split. discriminate. }
  unfold electsNewCd.
  destruct (String.eqb (nullish (reinvestmentOption cd) "") "newCD"); [|now left].
  unfold reinvestNewCd, reinvestDuration.
  destruct (lookup (nullish (reinvestmentTerm cd) "") (env_interestRates env))
    as [info|]; [|now left].
  destruct (apy info); [|now left].
  destruct (duration info) as [d|]; [|now left].
  destruct (Qle_bool d 0) eqn:Hd; [now left|].
  destruct (maturityDate cd) as [started|] eqn:Hm; [|now left].
  right. right. split; [reflexivity|]. split; [reflexivity|].
  eexists. split; [|reflexivity].
  constructor; cbn; try reflexivity.
  exists started, d. repeat split; try reflexivity.
  - exact Hm.
  - apply Qnot_le_lt. intros Hle. apply Qle_bool_iff in Hle. congruence.
Qed.

Lemma PassInv_start (y : Z) (a0 : MaturityAcc) : PassInv y a0 [] a0.
Proof.
  constructor; unfold maturingTotal, maturingInterest;
    change (sumBy _ (@nil Tranche)) with 0; cbn [filter];
    try (rewrite app_nil_r); try reflexivity; try ring.
  exists []. split; [now rewrite app_nil_r | constructor].
Qed.

Lemma PassInv_step (y : Z) (carried : Q) (a0 : MaturityAcc)
    (done : list Tranche) (a : MaturityAcc) (cd : Tranche) :
  PassInv y a0 done a ->
  PassInv y a0 (done ++ [cd]) (maturityStep pow env y carried a cd).
Proof.
  intros [H1 H2 H3 H4 H5 H6 HE (created & H7 & H8)].
  assert (Hold : Forall (fun t => exists cd0, In cd0 (done ++ [cd])
                                   /\ maturesIn y cd0 = true
                                   /\ reinvestedFrom cd0 t) created).
  { eapply Forall_impl; [|exact H8]. intros t (cd0 & Hin & Hm & Hr).
    exists cd0. split; [apply in_or_app; now left | now split]. }
  assert (ET : maturingTotal y (done ++ [cd])
               == maturingTotal y done
                  + (if maturesIn y cd then valueAtMaturity cd else 0)).
  { unfold maturingTotal. apply sumBy_snoc. }
  assert (EI : maturingInterest y (done ++ [cd])
               == maturingInterest y done
                  + (if maturesIn y cd then interestEarned cd else 0)).
  { unfold maturingInterest. apply sumBy_snoc. }
  assert (EF : filter (fun cd0 => negb (maturesIn y cd0)) (done ++ [cd])
               = (filter (fun cd0 => negb (maturesIn y cd0)) done
                  ++ (if maturesIn y cd then [] else [cd]))%list).
  { rewrite filter_app. cbn [filter]. now destruct (maturesIn y cd). }
  destruct (maturityStep_cases y carried a cd)
    as [[Hm ->] | [Hm [-> | [(_ & _ & ->) | (_ & Hel & t & Ht & ->)]]]];
    rewrite Hm in ET, EI, EF.
  - constructor; acc_simpl; try lra; try assumption.
    + rewrite H1, EF, <- app_assoc. reflexivity.
    + rewrite EF, !filter_app, !length_app. lia.
    + exists created. now split.
  - constructor; acc_simpl; try lra; try assumption.
    + rewrite H1, EF, app_nil_r. reflexivity.
    + rewrite EF, app_nil_r, filter_app, length_app. lia.
    + exists created. now split.
  - constructor; acc_simpl; try lra; try assumption.
    + rewrite H1, EF, app_nil_r. reflexivity.
    + rewrite EF, app_nil_r, filter_app, length_app. lia.
    + exists created. now split.
  - constructor; acc_simpl; try lra.
    + rewrite H1, EF, app_nil_r. reflexivity.
    + rewrite sumBy_snoc, (rf_amount _ _ Ht). lra.
    + rewrite length_app. cbn [List.length]. lia.
    + rewrite EF, app_nil_r, filter_app, !length_app. cbn [filter].
      rewrite Hel. cbn [List.length]. lia.
    + exists (created ++ [t])%list. split.
      * rewrite H7, app_assoc. reflexivity.
      * apply Forall_app. split; [exact Hold|]. constructor; [|constructor].
        exists cd. split; [apply in_or_app; right; now left | now split].
Qed.

Lemma PassInv_fold (y : Z) (carried : Q) (a0 : MaturityAcc) (cds : list Tranche) :
  forall done a,
    PassInv y a0 done a ->
    PassInv y a0 (done ++ cds) (fold_left (maturityStep pow env y carried) cds a).
Proof.
  induction cds as [|cd cds IH]; intros done a H; cbn [fold_left].
  - now rewrite app_nil_r.
  - replace (done ++ cd :: cds)%list with ((done ++ [cd]) ++ cds)%list
      by (rewrite <- app_assoc; reflexivity).
    apply IH, PassInv_step, H.
Qed.

(** The CD loop of a year, in terms of the tranches that were active. *)
Lemma maturityPass_inv (st : LoopState) (y : Z) :
  PassInv y (startMaturityAcc (totalInterestEarnedCumulative st)
                              (reinvestmentCounter st))
          (activeCdTranches st) (maturityPass pow env st y).
Proof.
  unfold maturityPass.
  apply (PassInv_fold y (cumulativeShortfall st) _ (activeCdTranches st) []),
        PassInv_start.
Qed.

End YearFacts.

(** ** The records of a run *)

Section RecordFacts.

Variable pow : Q -> Q -> Q.

(** The [i]-th record of a returned result is the record pushed by the
    [i]-th iteration of the year loop. *)
Lemma run_record_indexed (input : Inputs) (counter counter' : nat)
    (result : ProjectionResult) (i : nat) (r : YearRecord) :
  calculateProjections pow input counter = (Returned result, counter') ->
  nth_error (projectionYears result) i = Some r ->
  exists plan,
    prepare pow input counter = inr plan
    /\ nth_error (plan_years plan) i = Some (year r)
    /\ emittedRecord pow (plan_env plan) (stateBefore pow plan i) (year r) = Some r.
Proof.
  intros Hc Hi.
  assert (Hin : In r (projectionYears result)) by (eapply nth_error_In; eauto).
  destruct (calculateProjections_records pow input counter counter' result r Hc Hin)
    as (plan & Hp & ->).
  cbn [finish projectionYears] in Hi.
  exists plan. split; [exact Hp|].
  assert (Hy : nth_error (plan_years plan) i = Some (year r)).
  { rewrite <- (run_record_years pow input counter plan Hp).
    rewrite nth_error_map, Hi. reflexivity. }
  split; [exact Hy|].
  rewrite <- (run_record_at pow input counter plan i (year r) Hp Hy). exact Hi.
Qed.


(** X5: a shortfall is carried out of a year only once the liquid account
    is used up: a record with a positive year-end shortfall has no
    positive liquid balance left, and money is drawn from the liquid
    account only in a year whose cash flow was negative before the
    transfer. *)
Theorem shortfall_only_after_hysa_is_drained (input : Inputs)
    (counter counter' : nat) (result : ProjectionResult) (i : nat)
    (r : YearRecord) :
  calculateProjections pow input counter = (Returned result, counter') ->
  nth_error (projectionYears result) i = Some r ->
  exists plan,
    prepare pow input counter = inr plan
    /\ (0 < yearEndShortfallAmount r -> endOfYearHysaBalance r <= 0)
    /\ (0 < hysaWithdrawalToCoverShortfall r ->
        netCashFlowBeforeHysaTransfer pow (plan_env plan)
          (stateBefore pow plan i) (year r) < 0)
    /\ hysaWithdrawalToCoverShortfall r
       <= Qmax 0 (hysaBalanceAfterReinvestment pow (plan_env plan)
                    (stateBefore pow plan i) (year r)).
Proof.
  intros Hc Hi.
  destruct (run_record_indexed input counter counter' result i r Hc Hi)
    as (plan & Hp & _ & He).
  exists plan. split; [exact Hp|].
  pose proof (emittedRecord_fields pow _ _ _ _ He) as F. cbn zeta in F.
  destruct F as (_ & _ & _ & _ & _ & _ & _ & Fw & _ & _ & Fh & _ & Fs).
  rewrite Fw, Fh, Fs.
  destruct (coverShortfall_facts
              (netCashFlowBeforeHysaTransfer pow (plan_env plan)
                 (stateBefore pow plan i) (year r))
              (hysaBalanceAfterReinvestment pow (plan_env plan)
                 (stateBefore pow plan i) (year r)))
    as (_ & _ & _ & _ & S5 & _ & S7 & S8).
  split; [exact S5|]. split; [intros H; apply (S7 H) | exact S8].
Qed.

(** X6: the liquid account of a year ends with what it started with, plus
    the maturing CDs moved into it, minus what was drawn to cover a
    shortfall; the interest it earned is not added to it. *)
Theorem hysa_balance_ledger (input : Inputs) (counter counter' : nat)
    (result : ProjectionResult) (i : nat) (r : YearRecord) :
  calculateProjections pow input counter = (Returned result, counter') ->
  nth_error (projectionYears result) i = Some r ->
  exists plan,
    prepare pow input counter = inr plan
    /\ endOfYearHysaBalance r
       == currentHysaBalance (stateBefore pow plan i)
          + hysaValueReinvestedThisYear
              (maturityPass pow (plan_env plan) (stateBefore pow plan i) (year r))
          - hysaWithdrawalToCoverShortfall r
    /\ currentHysaBalance (stateBefore pow plan (S i)) = endOfYearHysaBalance r.
Proof.
  intros Hc Hi.
  destruct (run_record_indexed input counter counter' result i r Hc Hi)
    as (plan & Hp & Hy & He).
  exists plan. split; [exact Hp|].
  pose proof (emittedRecord_fields pow _ _ _ _ He) as F. cbn zeta in F.
  destruct F as (_ & _ & _ & _ & _ & _ & _ & Fw & _ & _ & Fh & _ & _).
  rewrite Fw, Fh. split.
  - destruct (coverShortfall_facts
                (netCashFlowBeforeHysaTransfer pow (plan_env plan)
                   (stateBefore pow plan i) (year r))
                (hysaBalanceAfterReinvestment pow (plan_env plan)
                   (stateBefore pow plan i) (year r)))
      as (_ & _ & S3 & _).
    rewrite S3. unfold hysaBalanceAfterReinvestment. reflexivity.
  - rewrite (stateBefore_succ pow plan i (year r) Hy).
    pose proof (simulateYear_state pow (plan_env plan) (stateBefore pow plan i)
                  (year r)) as T.
    cbn zeta in T. destruct T as (_ & _ & T3 & _). exact T3.
Qed.



End RecordFacts.


Lemma shortfall_only_after_hysa_is_drained_witness :
  exists r plan,
    nth_error (projectionYears (ladderResult None)) 2 = Some r
    /\ prepare powWhole (ladderInputs None) 0 = inr plan
    /\ (0 < yearEndShortfallAmount r -> endOfYearHysaBalance r <= 0)
    /\ (0 < hysaWithdrawalToCoverShortfall r ->
        netCashFlowBeforeHysaTransfer powWhole (plan_env plan)
          (stateBefore powWhole plan 2) (year r) < 0)
    /\ hysaWithdrawalToCoverShortfall r
       <= Qmax 0 (hysaBalanceAfterReinvestment powWhole (plan_env plan)
                    (stateBefore powWhole plan 2) (year r)).
Proof.
  eexists.
  assert (Hi : nth_error (projectionYears (ladderResult None)) 2 = Some _)
    by (vm_compute; reflexivity).
  destruct (shortfall_only_after_hysa_is_drained powWhole (ladderInputs None) 0 _
              (ladderResult None) 2 _
              (calculateProjections_plan powWhole (ladderInputs None) 0
                 (examplePlan (ladderInputs None)) eq_refl) Hi)
    as (plan & Hp & H).
  exists plan. split; [exact Hi|]. split; [exact Hp | exact H].
Defined.

Lemma hysa_balance_ledger_witness :
  exists r plan,
    nth_error (projectionYears (ladderResult None)) 1 = Some r
    /\ prepare powWhole (ladderInputs None) 0 = inr plan
    /\ endOfYearHysaBalance r
       == currentHysaBalance (stateBefore powWhole plan 1)
          + hysaValueReinvestedThisYear
              (maturityPass powWhole (plan_env plan) (stateBefore powWhole plan 1)
                            (year r))
          - hysaWithdrawalToCoverShortfall r
    /\ currentHysaBalance (stateBefore powWhole plan 2) = endOfYearHysaBalance r.
Proof.
  eexists.
  assert (Hi : nth_error (projectionYears (ladderResult None)) 1 = Some _)
    by (vm_compute; reflexivity).
  destruct (hysa_balance_ledger powWhole (ladderInputs None) 0 _
              (ladderResult None) 1 _
              (calculateProjections_plan powWhole (ladderInputs None) 0
                 (examplePlan (ladderInputs None)) eq_refl) Hi)
    as (plan & Hp & H).
  exists plan. split; [exact Hi|]. split; [exact Hp | exact H].
Defined.



(** ** Reinvestment *)

Section ReinvestFacts.

Variable pow : Q -> Q -> Q.

(** A property of the accumulator that every pass through the body of the
    CD loop keeps holds when the loop ends. *)
Lemma maturityPass_preserves (P : MaturityAcc -> Prop) (env : Env)
    (st : LoopState) (y : Z) :
  (forall a cd, In cd (activeCdTranches st) -> P a ->
     P (maturityStep pow env y (cumulativeShortfall st) a cd)) ->
  P (startMaturityAcc (totalInterestEarnedCumulative st) (reinvestmentCounter st)) ->
  P (maturityPass pow env st y).
Proof.
  unfold maturityPass. generalize (startMaturityAcc
    (totalInterestEarnedCumulative st) (reinvestmentCounter st)).
  generalize (cumulativeShortfall st). intros carried.
  induction (activeCdTranches st) as [|cd cds IH]; intros a Hstep Ha.
  - exact Ha.
  - cbn [fold_left]. apply IH.
    + intros a' cd' Hin. apply Hstep. now right.
    + apply Hstep; [now left | exact Ha].
Qed.


(** Without a liquid account nothing is moved into one. *)
Lemma maturityPass_no_hysa (env : Env) (st : LoopState) (y : Z) :
  env_hysaTranches env = [] ->
  hysaValueReinvestedThisYear (maturityPass pow env st y) = 0.
Proof.
  intros Hh.
  apply (maturityPass_preserves (fun a => hysaValueReinvestedThisYear a = 0)).
  - intros a cd _ Ha.
    destruct (maturityStep_cases pow env y (cumulativeShortfall st) a cd)
      as [[_ ->] | [_ [-> | [(_ & Hn & _) | (_ & _ & t & _ & ->)]]]];
      try contradiction; exact Ha.
  - reflexivity.
Qed.

Lemma reinvestedFrom_elects_cash (cd t : Tranche) :
  reinvestedFrom cd t -> electsNewCd t = false.
Proof.
  intros H. unfold electsNewCd. now rewrite (rf_election _ _ H).
Qed.

(** The counter plus the number of active tranches that still elect a new
    CD never grows, and the counter never falls. *)
Lemma simulateYear_counter (env : Env) (st : LoopState) (y : Z) :
  (reinvestmentCounter st <= reinvestmentCounter (simulateYear pow env st y))%nat
  /\ (reinvestmentCounter (simulateYear pow env st y)
      + List.length (filter electsNewCd
                       (activeCdTranches (simulateYear pow env st y)))
      <= reinvestmentCounter st
         + List.length (filter electsNewCd (activeCdTranches st)))%nat.
Proof.
  pose proof (simulateYear_state pow env st y) as T. cbn zeta in T.
  destruct T as (_ & _ & _ & T4 & T5 & _). rewrite T4, T5.
  destruct (maturityPass_inv pow env st y)
    as [P1 _ _ _ _ P6 P7 (created & P8 & P9)].
  revert P1 P6 P7 P8. acc_simpl. cbn [app List.length]. intros P1 P6 P7 P8.
  rewrite P1, P8, filter_app, length_app.
  assert (Hc : filter electsNewCd created = []).
  { clear P8 P7 P6. induction P9 as [|t l (cd & _ & _ & Ht) _ IH]; [reflexivity|].
    cbn [filter]. now rewrite (reinvestedFrom_elects_cash cd t Ht). }
  rewrite Hc. rewrite P8 in P6, P7. cbn [List.length] in *. lia.
Qed.

Lemma yearLoop_counter (env : Env) (ys : list Z) :
  forall st,
    (reinvestmentCounter st <= reinvestmentCounter (yearLoop pow env st ys))%nat
    /\ (reinvestmentCounter (yearLoop pow env st ys)
        <= reinvestmentCounter st
           + List.length (filter electsNewCd (activeCdTranches st)))%nat.
Proof.
  induction ys as [|y ys IH]; intros st.
  - cbn. lia.
  - rewrite yearLoop_cons.
    destruct (IH (simulateYear pow env st y)) as (I1 & I2).
    destruct (simulateYear_counter env st y) as (S1 & S2). lia.
Qed.

Lemma initTranche_elects (rates : RateTable) (parsedStart : JsDate)
    (index : nat) (row : TrancheRow) (t : Tranche) :
  initTranche pow rates parsedStart index row = inr t ->
  isHYSA t = false -> electsNewCd t = true -> rowElectsNewCd row = true.
Proof.
  unfold initTranche.
  destruct (baseApyOf rates (row_term row)); [|discriminate].
  destruct (lookup (row_term row) rates); [|discriminate].
  destruct (String.eqb (row_term row) "HYSA").
  { intros H. inversion H. cbn. discriminate. }
  destruct (duration r); [|discriminate].
  destruct (Qle_bool q0 0); [discriminate|].
  intros H. inversion H. unfold electsNewCd, rowElectsNewCd. cbn.
  intros _. destruct (row_reinvestmentOption row) as [s|]; cbn; [|discriminate].
  destruct (String.eqb s ""); [discriminate | exact (fun e => e)].
Qed.

Lemma initial_elections (rates : RateTable) (parsedStart : JsDate)
    (rows : list TrancheRow) :
  forall index ts,
    mapTranches pow rates parsedStart index rows = inr ts ->
    (List.length (filter electsNewCd (filter (fun t => negb (isHYSA t)) ts))
     <= List.length (filter rowElectsNewCd rows))%nat.
Proof.
  induction rows as [|row rows IH]; intros index ts H; cbn in H.
  - inversion H. cbn. lia.
  - destruct (initTranche pow rates parsedStart index row) as [|t] eqn:Ht;
      [discriminate|].
    destruct (mapTranches pow rates parsedStart (S index) rows) as [|ts'] eqn:Hts;
      [discriminate|].
    inversion H. subst ts. specialize (IH _ _ Hts).
    pose proof (initTranche_elects rates parsedStart index row t Ht) as He.
    cbn [filter]. destruct (isHYSA t); cbn [negb filter].
    + destruct (rowElectsNewCd row); cbn [List.length]; lia.
    + destruct (electsNewCd t); cbn [List.length].
      * rewrite (He eq_refl eq_refl). cbn [List.length]. lia.
      * destruct (rowElectsNewCd row); cbn [List.length]; lia.
Qed.


(** X10: the module-level counter of reinvestment ids over one call, for a
    scenario id that is not an inherited property name.  The call never
    lowers the counter and raises it by at most the number of tranche rows
    that elect a new CD (the tranche created by a reinvestment always
    elects cash); a call that throws, or that returns an error object,
    leaves the counter as it found it. *)
Theorem reinvestment_counter_bounded (input : Inputs) (counter counter' : nat)
    (outcome : Outcome) (rows : list TrancheRow) :
  (forall k, rateScenario input = Some k -> ~ In k inheritedKeys) ->
  calculateProjections pow input counter = (outcome, counter') ->
  tranches input = Some rows ->
  (counter <= counter'
   <= counter + List.length (filter rowElectsNewCd rows))%nat
  /\ match outcome with
     | Thrown _ => counter' = counter
     | Returned result => error result <> None -> counter' = counter
     end.
Proof.
  intros _. unfold calculateProjections.
  destruct (prepare pow input counter) as [o | plan] eqn:Hp.
  - intros H _. inversion H. subst. split; [lia|].
    now destruct outcome.
  - intros H Hrows. inversion H. clear H.
    split; [|intros Herr; now contradiction Herr].
    destruct (prepare_plan pow input counter plan Hp)
      as (parsedStart & numLumpSum & taxRatePercent & rows' & ws & rates & ts
          & _ & _ & _ & Hrows' & _ & _ & Hmap & ->).
    assert (rows' = rows) by congruence. subst rows'.
    set (plan := makePlan parsedStart taxRatePercent ws rates
                          (rateScenario input) ts counter) in *.
    destruct (yearLoop_counter (plan_env plan) (plan_years plan) (plan_start plan))
      as (I1 & I2).
    pose proof (initial_elections rates parsedStart rows 0 ts Hmap) as I3.
    change (reinvestmentCounter (plan_start plan)) with counter in I1, I2.
    change (activeCdTranches (plan_start plan))
      with (filter (fun t => negb (isHYSA t)) ts) in I2.
    lia.
Qed.

(** X11: without a tranche row for the liquid account there is no liquid
    account in any year: every record has a zero liquid balance, no
    liquid interest and nothing drawn from the account, also when a
    maturing CD elects to move into it (it is then paid out as cash). *)
Theorem no_hysa_row_no_liquid_account (input : Inputs) (counter counter' : nat)
    (result : ProjectionResult) (rows : list TrancheRow) (r : YearRecord) :
  calculateProjections pow input counter = (Returned result, counter') ->
  tranches input = Some rows ->
  (forall row, In row rows -> row_term row <> "HYSA") ->
  In r (projectionYears result) ->
  endOfYearHysaBalance r == 0
  /\ interestFromHYSA r == 0
  /\ hysaWithdrawalToCoverShortfall r == 0
  /\ ongoingInvestmentsTotal r == ongoingCDInvestments r.
Proof.
  intros Hc Hrows Hno Hin.
  destruct (run_record_emitted pow input counter counter' result r Hc Hin)
    as (plan & i & Hp & Hy & He).
  destruct (prepare_plan pow input counter plan Hp)
    as (parsedStart & numLumpSum & taxRatePercent & rows' & ws & rates & ts
        & _ & _ & _ & Hrows' & _ & _ & Hmap & Hplan).
  assert (rows' = rows) by congruence. subst rows'.
  assert (Hts : filter isHYSA ts = []).
  { assert (Hall : Forall (fun t => isHYSA t = false) ts).
    { apply (mapTranches_Forall pow (fun t => isHYSA t = false) rates parsedStart
               rows 0 ts); [|exact Hmap].
      intros row idx t Hrow. unfold initTranche.
      destruct (baseApyOf rates (row_term row)); [|discriminate].
      destruct (lookup (row_term row) rates) as [info|]; [|discriminate].
      destruct (String.eqb (row_term row) "HYSA") eqn:Eh.
      { apply String.eqb_eq in Eh. now destruct (Hno row Hrow). }
      destruct (duration info) as [d|]; [|discriminate].
      destruct (Qle_bool d 0); [discriminate|].
      intros H. now inversion H. }
    clear - Hall. induction Hall as [|t l Ht _ IH]; [reflexivity|].
    cbn [filter]. now rewrite Ht. }
  assert (Henv : env_hysaTranches (plan_env plan) = []).
  { rewrite Hplan. cbn [makePlan plan_env env_hysaTranches]. exact Hts. }
  assert (Hinv : currentHysaBalance (stateBefore pow plan i) == 0).
  { unfold stateBefore.
    apply (yearLoop_invariant pow (plan_env plan)
             (fun st => currentHysaBalance st == 0)).
    - intros st y Hst.
      pose proof (simulateYear_state pow (plan_env plan) st y) as T.
      cbn zeta in T. destruct T as (_ & _ & T3 & _). rewrite T3.
      destruct (coverShortfall_facts
                  (netCashFlowBeforeHysaTransfer pow (plan_env plan) st y)
                  (hysaBalanceAfterReinvestment pow (plan_env plan) st y))
        as (_ & S2 & S3 & _ & _ & _ & _ & S8).
      assert (Hb : hysaBalanceAfterReinvestment pow (plan_env plan) st y == 0).
      { unfold hysaBalanceAfterReinvestment.
        rewrite (maturityPass_no_hysa (plan_env plan) st y Henv). lra. }
      revert S8. elim_minmax. intros S8. lra.
    - rewrite Hplan. cbn [makePlan plan_start currentHysaBalance].
      rewrite Hts. reflexivity. }
  pose proof (emittedRecord_fields pow _ _ _ _ He) as F. cbn zeta in F.
  destruct F as (_ & _ & _ & _ & _ & Fi & _ & Fw & _ & _ & Fh & _).
  destruct (coverShortfall_facts
              (netCashFlowBeforeHysaTransfer pow (plan_env plan)
                 (stateBefore pow plan i) (year r))
              (hysaBalanceAfterReinvestment pow (plan_env plan)
                 (stateBefore pow plan i) (year r)))
    as (_ & S2 & S3 & _ & _ & _ & _ & S8).
  assert (Hb : hysaBalanceAfterReinvestment pow (plan_env plan)
                 (stateBefore pow plan i) (year r) == 0).
  { unfold hysaBalanceAfterReinvestment.
    rewrite (maturityPass_no_hysa (plan_env plan) _ (year r) Henv). lra. }
  assert (Hw : hysaWithdrawalToCoverShortfall r == 0).
  { rewrite Fw. revert S8. elim_minmax. intros S8. lra. }
  assert (Hh : endOfYearHysaBalance r == 0).
  { rewrite Fh. rewrite Fw in Hw. lra. }
  split; [exact Hh|]. split; [|split; [exact Hw|]].
  - rewrite Fi. unfold hysaInterestThisYear, hysaEarns. rewrite Henv.
    cbn. reflexivity.
  - destruct (emittedRecord_derived pow _ _ _ _ He) as (_ & D2 & _).
    rewrite D2. lra.
Qed.

End ReinvestFacts.


Lemma reinvestment_counter_bounded_witness :
  (7 <= snd (calculateProjections powWhole
               (ladderInputs (Some "ratesFallModerately")) 7)
   <= 7 + List.length (filter rowElectsNewCd
                         [ cdRow "HYSA" 5000 "cash"; cdRow "12m" 1000 "hysa";
                           cdRow "24m" 2000 "newCD" ]))%nat
  /\ match fst (calculateProjections powWhole
                  (ladderInputs (Some "ratesFallModerately")) 7) with
     | Thrown _ =>
         snd (calculateProjections powWhole
                (ladderInputs (Some "ratesFallModerately")) 7) = 7%nat
     | Returned result =>
         error result <> None ->
         snd (calculateProjections powWhole
                (ladderInputs (Some "ratesFallModerately")) 7) = 7%nat
     end.
Proof.
  apply (reinvestment_counter_bounded powWhole
           (ladderInputs (Some "ratesFallModerately")) 7 _
           (fst (calculateProjections powWhole
                   (ladderInputs (Some "ratesFallModerately")) 7))).
  - intros k Hk H. inversion Hk. subst k.
    repeat (destruct H as [H | H]; [discriminate|]). exact H.
  - apply surjective_pairing.
  - reflexivity.
Defined.

Lemma no_hysa_row_no_liquid_account_witness :
  exists r,
    nth_error (projectionYears (resultOf (cashCdInputs None))) 1 = Some r
    /\ endOfYearHysaBalance r == 0
    /\ interestFromHYSA r == 0
    /\ hysaWithdrawalToCoverShortfall r == 0
    /\ ongoingInvestmentsTotal r == ongoingCDInvestments r.
Proof.
  eexists. split; [vm_compute; reflexivity|].
  eapply (no_hysa_row_no_liquid_account powWhole (cashCdInputs None) 0 _ _
            [cdRow "12m" 1000 "cash"]
            _ (calculateProjections_plan powWhole (cashCdInputs None) 0
                 (examplePlan (cashCdInputs None)) eq_refl) eq_refl).
  - intros row [<- | []]. discriminate.
  - vm_compute. right. left. reflexivity.
Defined.

(** ** Year range and totals *)

Lemma sumBy_ext_in {A : Type} (f g : A -> Q) (l : list A) :
  (forall x, In x l -> f x == g x) -> sumBy f l == sumBy g l.
Proof.
  induction l as [|x l IH]; intros H.
  - reflexivity.
  - rewrite !sumBy_cons. rewrite (H x (or_introl eq_refl)).
    rewrite IH; [reflexivity|]. intros y Hy. apply H. now right.
Qed.

Lemma sumBy_map {A B : Type} (g : A -> B) (f : B -> Q) (l : list A) :
  sumBy f (map g l) == sumBy (fun x => f (g x)) l.
Proof.
  induction l as [|x l IH]; [reflexivity|].
  cbn [map]. rewrite !sumBy_cons, IH. reflexivity.
Qed.

Lemma sumBy_plus {A : Type} (f g : A -> Q) (l : list A) :
  sumBy (fun x => f x + g x) l == sumBy f l + sumBy g l.
Proof.
  induction l as [|x l IH].
  - change (0 == 0 + 0). ring.
  - rewrite !sumBy_cons, IH. ring.
Qed.

Lemma sumBy_zero {A : Type} (l : list A) : sumBy (fun _ => 0) l == 0.
Proof.
  induction l as [|x l IH]; [reflexivity|]. rewrite sumBy_cons, IH. ring.
Qed.

Lemma sumBy_filter {A : Type} (p : A -> bool) (f : A -> Q) (l : list A) :
  sumBy f (filter p l) == sumBy (fun x => if p x then f x else 0) l.
Proof.
  induction l as [|x l IH]; [reflexivity|].
  cbn [filter]. rewrite sumBy_cons. destruct (p x).
  - rewrite sumBy_cons, IH. reflexivity.
  - rewrite IH. ring.
Qed.

(** A value counted in the one element of a duplicate-free list that
    equals [a] is counted once. *)
Lemma sumBy_indicator (a : Z) (c : Q) (l : list Z) :
  NoDup l ->
  sumBy (fun y => if (a =? y)%Z then c else 0) l
  == if existsb (Z.eqb a) l then c else 0.
Proof.
  induction 1 as [|y l Hy _ IH]; [reflexivity|].
  rewrite sumBy_cons, IH. cbn [existsb].
  destruct (a =? y)%Z eqn:E; cbn [orb]; [|ring].
  apply Z.eqb_eq in E. subst y.
  destruct (existsb (Z.eqb a) l) eqn:Ex; [|ring].
  apply existsb_exists in Ex. destruct Ex as (z & Hz & Ez).
  apply Z.eqb_eq in Ez. subst z. contradiction.
Qed.

Lemma yearRange_In (minYear maxYear y : Z) :
  In y (yearRange minYear maxYear) <-> (minYear <= y <= maxYear)%Z.
Proof.
  unfold yearRange. rewrite in_map_iff. split.
  - intros (k & <- & Hk). apply in_seq in Hk. lia.
  - intros H. exists (Z.to_nat (y - minYear)). split; [lia|].
    apply in_seq. lia.
Qed.

Lemma yearRange_NoDup (minYear maxYear : Z) : NoDup (yearRange minYear maxYear).
Proof.
  unfold yearRange.
  induction (seq_NoDup (Z.to_nat (maxYear - minYear + 1)) 0) as [|k l Hk _ IH];
    cbn [map]; constructor; [|exact IH].
  rewrite in_map_iff. intros (j & Hj & Hin).
  assert (j = k) by lia. subst j. contradiction.
Qed.

Lemma minOf_le_all (first : Z) (rest : list Z) (y : Z) :
  In y (first :: rest) -> (minOf first rest <= y)%Z.
Proof.
  revert first. induction rest as [|x rest IH]; intros first H.
  - destruct H as [<- | []]. cbn. lia.
  - change (minOf first (x :: rest)) with (minOf (Z.min first x) rest).
    pose proof (minOf_le_first (Z.min first x) rest) as Hle.
    destruct H as [<- | [<- | H]]; [lia | lia |].
    apply IH. now right.
Qed.

Lemma maxOf_ge_first (first : Z) (rest : list Z) : (first <= maxOf first rest)%Z.
Proof.
  unfold maxOf. revert first. induction rest as [|x rest IH]; intros first; cbn.
  - lia.
  - specialize (IH (Z.max first x)). lia.
Qed.

Lemma maxOf_ge_all (first : Z) (rest : list Z) (y : Z) :
  In y (first :: rest) -> (y <= maxOf first rest)%Z.
Proof.
  revert first. induction rest as [|x rest IH]; intros first H.
  - destruct H as [<- | []]. cbn. lia.
  - change (maxOf first (x :: rest)) with (maxOf (Z.max first x) rest).
    pose proof (maxOf_ge_first (Z.max first x) rest) as Hle.
    destruct H as [<- | [<- | H]]; [lia | lia |].
    apply IH. now right.
Qed.

Section TotalsFacts.

Variable pow : Q -> Q -> Q.

(** A result that carries no error message went through the year loop. *)
Lemma run_without_error (input : Inputs) (counter counter' : nat)
    (result : ProjectionResult) :
  calculateProjections pow input counter = (Returned result, counter') ->
  error result = None ->
  exists plan,
    prepare pow input counter = inr plan
    /\ result = finish plan (yearLoop pow (plan_env plan) (plan_start plan)
                                      (plan_years plan))
    /\ counter' = reinvestmentCounter
                    (yearLoop pow (plan_env plan) (plan_start plan)
                              (plan_years plan)).
Proof.
  intros Hc He. unfold calculateProjections in Hc.
  destruct (prepare pow input counter) as [outcome | plan] eqn:Hp.
  { exfalso. inversion Hc; subst. unfold prepare in Hp.
    repeat match type of Hp with
           | match ?x with _ => _ end = _ => destruct x; try discriminate
           end.
    all: inversion Hp; subst; discriminate He. }
  exists plan. inversion Hc. auto.
Qed.

(** The range of simulated years of a plan. *)
Lemma plan_range (input : Inputs) (counter : nat) (plan : Plan)
    (parsedStart : JsDate) :
  prepare pow input counter = inr plan ->
  investmentStartDate input = Some (Some parsedStart) ->
  (plan_minYear plan <= getFullYear parsedStart)%Z
  /\ (getFullYear parsedStart + 5 <= plan_maxYear plan)%Z
  /\ (forall ws w d, withdrawals input = Some ws -> In w ws ->
        w_date w = Some d ->
        (plan_minYear plan <= getFullYear d <= plan_maxYear plan)%Z)
  /\ (forall t d, In t (plan_initialTranches plan) -> maturityDate t = Some d ->
        (plan_minYear plan <= getFullYear d <= plan_maxYear plan)%Z).
Proof.
  intros Hp Hd.
  destruct (prepare_plan pow input counter plan Hp)
    as (parsedStart' & numLumpSum & taxRatePercent & rows & ws' & rates & ts
        & Hd' & _ & _ & _ & Hw' & _ & Hm & ->).
  assert (parsedStart' = parsedStart) by congruence. subst parsedStart'.
  cbn [makePlan plan_minYear plan_maxYear plan_initialTranches].
  unfold minYearOf, maxYearOf, maxKnownEventYearOf, allYears.
  set (events := (withdrawalYears ws' ++ maturityYears ts)%list).
  assert (Hc : (0 <= Qceiling (maxInitialTerm ts / 12))%Z).
  { change 0%Z with (Qceiling 0). apply Qceiling_resp_le.
    assert (Hq : 0 <= maxInitialTerm ts) by apply QmaxOf_ge_first.
    apply Qle_shift_div_l; [reflexivity|].
    now rewrite Qmult_0_l. }
  assert (Hev : forall y, In y events ->
            (minOf (getFullYear parsedStart) events <= y
             <= maxOf (getFullYear parsedStart) events)%Z).
  { intros y Hy. split.
    - apply minOf_le_all. now right.
    - apply maxOf_ge_all. now right. }
  split; [apply minOf_le_first|]. split; [lia|]. split.
  - intros ws w d Hws Hin Hdate.
    assert (ws' = ws) by congruence. subst ws'.
    assert (Hy : In (getFullYear d) events).
    { apply in_or_app. left. unfold withdrawalYears. apply in_flat_map.
      exists w. split; [exact Hin|]. rewrite Hdate. now left. }
    specialize (Hev _ Hy). lia.
  - intros t d Hin Hdate.
    assert (Hy : In (getFullYear d) events).
    { apply in_or_app. right. unfold maturityYears. apply in_flat_map.
      exists t. split; [exact Hin|]. rewrite Hdate. now left. }
    specialize (Hev _ Hy). lia.
Qed.

(** X12: the records of a projection cover a gapless run of calendar
    years, one record per year in ascending order, that starts no later
    than the start year and reaches at least five years past it, so a
    projection always has at least six records. *)
Theorem projection_years_are_consecutive (input : Inputs)
    (counter counter' : nat) (result : ProjectionResult)
    (parsedStart : JsDate) :
  calculateProjections pow input counter = (Returned result, counter') ->
  error result = None ->
  investmentStartDate input = Some (Some parsedStart) ->
  exists first n,
    map year (projectionYears result)
    = map (fun k => (first + Z.of_nat k)%Z) (seq 0 n)
    /\ (6 <= n)%nat
    /\ (first <= getFullYear parsedStart)%Z
    /\ (getFullYear parsedStart + 5 <= first + Z.of_nat n - 1)%Z.
Proof.
  intros Hc He Hd.
  destruct (run_without_error input counter counter' result Hc He)
    as (plan & Hp & -> & _).
  destruct (plan_range input counter plan parsedStart Hp Hd) as (R1 & R2 & _).
  exists (plan_minYear plan), (Z.to_nat (plan_maxYear plan - plan_minYear plan + 1)).
  cbn [finish projectionYears].
  rewrite (run_record_years pow input counter plan Hp).
  split; [reflexivity|]. lia.
Qed.

(** X13: no dated event falls outside the projection: the year of every
    withdrawal whose date parses, and the maturity year of every initial
    CD, has a record. *)
Theorem every_event_year_has_a_record (input : Inputs) (counter counter' : nat)
    (result : ProjectionResult) (plan : Plan) :
  calculateProjections pow input counter = (Returned result, counter') ->
  prepare pow input counter = inr plan ->
  (forall ws w d, withdrawals input = Some ws -> In w ws -> w_date w = Some d ->
     In (getFullYear d) (map year (projectionYears result)))
  /\ (forall t d, In t (plan_initialTranches plan) -> maturityDate t = Some d ->
        In (getFullYear d) (map year (projectionYears result))).
Proof.
  intros Hc Hp.
  rewrite (calculateProjections_plan pow input counter plan Hp) in Hc.
  inversion Hc as [[Hr Hcounter]]. clear Hc Hcounter.
  cbn [finish projectionYears].
  rewrite (run_record_years pow input counter plan Hp).
  destruct (prepare_plan pow input counter plan Hp)
    as (parsedStart & _ & _ & _ & _ & _ & _ & Hd & _).
  destruct (plan_range input counter plan parsedStart Hp Hd)
    as (_ & _ & R3 & R4).
  split.
  - intros ws w d Hws Hin Hdate. apply yearRange_In. eapply R3; eauto.
  - intros t d Hin Hdate. apply yearRange_In. eapply R4; eauto.
Qed.

(** The sums of the withdrawals of the years of a duplicate-free list
    that holds every dated withdrawal year. *)
Lemma withdrawals_by_year (env : Env) (years : list Z) :
  NoDup years ->
  (forall w d, In w (env_withdrawals env) -> w_date w = Some d ->
     In (getFullYear d) years) ->
  sumBy (totalWithdrawalsThisYear env) years
  == sumBy (fun w => numberOr0 (w_amount w))
           (filter (fun w => match w_date w with Some _ => true | None => false end)
                   (env_withdrawals env)).
Proof.
  intros Hnd. unfold totalWithdrawalsThisYear.
  induction (env_withdrawals env) as [|w ws IH]; intros Hin.
  - cbn [filter]. change (sumBy _ (@nil Withdrawal)) with 0. apply sumBy_zero.
  - assert (IH' := IH (fun w' d H => Hin w' d (or_intror H))). clear IH.
    transitivity
      (sumBy (fun y =>
                match w_date w with
                | Some d => if (getFullYear d =? y)%Z
                            then numberOr0 (w_amount w) else 0
                | None => 0
                end
                + sumBy (fun w' => numberOr0 (w_amount w'))
                    (filter (fun w' => match w_date w' with
                                       | Some d => (getFullYear d =? y)%Z
                                       | None => false
                                       end) ws)) years).
    { apply sumBy_ext_in. intros y _. cbn [filter].
      destruct (w_date w) as [d|]; [destruct (getFullYear d =? y)%Z|].
      - rewrite sumBy_cons. reflexivity.
      - ring.
      - ring. }
    rewrite sumBy_plus, IH'. cbn [filter].
    destruct (w_date w) as [d|] eqn:Hd.
    + rewrite (sumBy_indicator _ _ _ Hnd).
      assert (Hex : existsb (Z.eqb (getFullYear d)) years = true).
      { apply existsb_exists. exists (getFullYear d).
        split; [eapply Hin; [now left | exact Hd] | apply Z.eqb_refl]. }
      rewrite Hex, sumBy_cons. reflexivity.
    + rewrite sumBy_zero. ring.
Qed.

End TotalsFacts.

Section SummaryFacts.

Variable pow : Q -> Q -> Q.

Lemma simulateYear_emits (env : Env) (st : LoopState) (y : Z) :
  exists r,
    projection (simulateYear pow env st y) = (projection st ++ [r])%list
    /\ emittedRecord pow env st y = Some r.
Proof.
  destruct (simulateYear_pushes pow env st y) as (r & Hr & _).
  exists r. split; [exact Hr|].
  unfold emittedRecord. rewrite Hr. apply lastRecord_snoc.
Qed.

Lemma simulateYear_summed (env : Env) (st : LoopState) (y : Z) :
  Summed env st -> Summed env (simulateYear pow env st y).
Proof.
  intros [H1 H2 H3 H4 H5].
  destruct (simulateYear_emits env st y) as (r & Hr & He).
  pose proof (emittedRecord_fields pow env st y r He) as F. cbn zeta in F.
  destruct F as (Fy & _ & _ & Fi & _ & _ & Ft & _ & Fw & _ & _ & Ff & _).
  pose proof (simulateYear_state pow env st y) as T. cbn zeta in T.
  destruct T as (_ & _ & _ & _ & _ & T6 & T7).
  pose proof (totalInterest_step pow env st y) as Hstep.
  destruct (maturityPass_inv pow env st y) as [_ _ P3 P4 _ _ _ _].
  revert P3 P4. acc_simpl. intros P3 P4.
  assert (Hti : totalInterestEarnedCumulative (simulateYear pow env st y)
                == totalInterestEarnedCumulative st + yearlyInterest r).
  { rewrite Fi. unfold totalYearlyInterest. lra. }
  assert (Htx : taxesDue r == yearlyInterest r * env_numTaxRate env).
  { rewrite Ft, Fi. reflexivity. }
  constructor; rewrite ?Hr, ?map_app, ?sumBy_snoc; cbn [map].
  - lra.
  - rewrite T6, <- Ft. lra.
  - rewrite T6, <- Ft, Hti, Htx, H3. ring.
  - rewrite T7, existsb_app, H4, <- Ff. cbn [existsb].
    rewrite orb_false_r. apply orb_comm.
  - rewrite sumBy_snoc, H5, Fw, Fy. reflexivity.
Qed.

Lemma run_summed (input : Inputs) (counter : nat) (plan : Plan) :
  prepare pow input counter = inr plan ->
  Summed (plan_env plan)
         (yearLoop pow (plan_env plan) (plan_start plan) (plan_years plan)).
Proof.
  intros Hp.
  apply (yearLoop_invariant pow (plan_env plan) (Summed (plan_env plan))).
  - intros st y. apply simulateYear_summed.
  - destruct (prepare_plan pow input counter plan Hp)
      as (parsedStart & numLumpSum & taxRatePercent & rows & ws & rates & ts
          & _ & _ & _ & _ & _ & _ & _ & ->).
    constructor; cbn [makePlan plan_start plan_env projection
                      totalInterestEarnedCumulative totalTaxesPaidCumulative
                      hasShortfallOverall env_numTaxRate map existsb];
      change (sumBy _ (@nil YearRecord)) with 0;
      change (sumBy _ (@nil Z)) with 0; reflexivity.
Qed.

(** X14: every withdrawal whose date parses is paid out of exactly one
    year: the withdrawal amounts of the records add up to the amounts of
    all dated withdrawals, whichever years they fall in; withdrawals
    without a valid date are left out. *)
Theorem dated_withdrawals_all_accounted (input : Inputs)
    (counter counter' : nat) (result : ProjectionResult)
    (ws : list Withdrawal) :
  calculateProjections pow input counter = (Returned result, counter') ->
  error result = None ->
  withdrawals input = Some ws ->
  sumBy withdrawalAmount (projectionYears result)
  == sumBy (fun w => numberOr0 (w_amount w))
           (filter (fun w => match w_date w with Some _ => true | None => false end)
                   ws).
Proof.
  intros Hc He Hws.
  destruct (run_without_error pow input counter counter' result Hc He)
    as (plan & Hp & -> & _).
  cbn [finish projectionYears].
  rewrite (sm_withdrawals _ _ (run_summed input counter plan Hp)).
  rewrite (run_record_years pow input counter plan Hp).
  destruct (prepare_plan pow input counter plan Hp)
    as (parsedStart & numLumpSum & taxRatePercent & rows & ws' & rates & ts
        & Hd & _ & _ & _ & Hws' & _ & _ & Hplan).
  assert (ws' = ws) by congruence. subst ws'.
  assert (Henv : env_withdrawals (plan_env plan) = ws) by (now rewrite Hplan).
  rewrite <- Henv.
  apply withdrawals_by_year; [apply yearRange_NoDup|].
  intros w d Hin Hdate. apply yearRange_In.
  destruct (plan_range pow input counter plan parsedStart Hp Hd)
    as (_ & _ & R3 & _).
  rewrite Henv in Hin. eapply R3; eauto.
Qed.


(** X16: the summary agrees with the table: the overall shortfall flag is
    set exactly when some record is flagged, and the final portfolio
    value is the total portfolio value of the last record, which always
    exists (the fallback to the initial amounts is never taken). *)
Theorem summary_agrees_with_records (input : Inputs) (counter counter' : nat)
    (result : ProjectionResult) (t : Totals) :
  calculateProjections pow input counter = (Returned result, counter') ->
  totals result = Some t ->
  hasShortfallFlag result = existsb hasShortfall (projectionYears result)
  /\ exists earlier final,
       projectionYears result = (earlier ++ [final])%list
       /\ finalPortfolioValue t = totalPortfolioValue final.
Proof.
  intros Hc Ht.
  destruct (totals_plan pow input counter result t) as (plan & Hp & ->);
    [now rewrite Hc | exact Ht |].
  destruct (run_summed input counter plan Hp) as [_ _ _ H4 _].
  cbn [finish totals projectionYears hasShortfallFlag] in Ht |- *.
  split; [exact H4|].
  pose proof (run_record_years pow input counter plan Hp) as Hy.
  destruct (prepare_plan pow input counter plan Hp)
    as (parsedStart & numLumpSum & taxRatePercent & rows & ws & rates & ts
        & _ & _ & _ & _ & _ & _ & Hm & Hplan).
  destruct (makePlan_range pow parsedStart taxRatePercent ws rates
              (rateScenario input) rows ts counter Hm) as (_ & Hle).
  rewrite <- Hplan in Hle.
  destruct (yearRange_head _ _ Hle) as (years & Hyears).
  unfold plan_years in Hy at 2. rewrite Hyears in Hy.
  destruct (exists_last (l := projection (yearLoop pow (plan_env plan)
                                            (plan_start plan) (plan_years plan))))
    as (earlier & final & Hlast).
  { intros Hnil. rewrite Hnil in Hy. discriminate. }
  exists earlier, final. split; [exact Hlast|].
  rewrite Hlast, lastRecord_snoc in Ht. now inversion Ht.
Qed.

End SummaryFacts.

Lemma projection_years_are_consecutive_witness :
  exists first n,
    map year (projectionYears (resultOf pastWithdrawalInputs))
    = map (fun k => (first + Z.of_nat k)%Z) (seq 0 n)
    /\ (6 <= n)%nat
    /\ (first <= getFullYear (mkDate 2024 0))%Z
    /\ (getFullYear (mkDate 2024 0) + 5 <= first + Z.of_nat n - 1)%Z.
Proof.
  apply (projection_years_are_consecutive powWhole pastWithdrawalInputs 0
           (snd (calculateProjections powWhole pastWithdrawalInputs 0))).
  - apply (calculateProjections_plan powWhole pastWithdrawalInputs 0
             (examplePlan pastWithdrawalInputs)).
    vm_compute. reflexivity.
  - reflexivity.
  - reflexivity.
Defined.

Lemma every_event_year_has_a_record_witness :
  (forall ws w d,
     withdrawals (ladderInputs None) = Some ws -> In w ws -> w_date w = Some d ->
     In (getFullYear d) (map year (projectionYears (resultOf (ladderInputs None)))))
  /\ (forall t d,
        In t (plan_initialTranches (examplePlan (ladderInputs None))) ->
        maturityDate t = Some d ->
        In (getFullYear d)
           (map year (projectionYears (resultOf (ladderInputs None))))).
Proof.
  apply (every_event_year_has_a_record powWhole (ladderInputs None) 0
           (snd (calculateProjections powWhole (ladderInputs None) 0))).
  - apply (calculateProjections_plan powWhole (ladderInputs None) 0
             (examplePlan (ladderInputs None))).
    vm_compute. reflexivity.
  - vm_compute. reflexivity.
Defined.

Lemma dated_withdrawals_all_accounted_witness :
  sumBy withdrawalAmount (projectionYears (resultOf mixedWithdrawalInputs))
  == sumBy (fun w => numberOr0 (w_amount w))
       (filter (fun w => match w_date w with Some _ => true | None => false end)
          [ withdrawalOn 2020 2 100;
            {| w_date := None; w_amount := Some 50 |};
            withdrawalOn 2026 3 200 ]).
Proof.
  apply (dated_withdrawals_all_accounted powWhole mixedWithdrawalInputs 0
           (snd (calculateProjections powWhole mixedWithdrawalInputs 0))).
  - apply (calculateProjections_plan powWhole mixedWithdrawalInputs 0
             (examplePlan mixedWithdrawalInputs)).
    vm_compute. reflexivity.
  - reflexivity.
  - reflexivity.
Defined.


Lemma summary_agrees_with_records_witness :
  exists t,
    totals (resultOf (blockedReinvestmentInputs (Some "ratesFallSignificantly")))
    = Some t
    /\ hasShortfallFlag
         (resultOf (blockedReinvestmentInputs (Some "ratesFallSignificantly")))
       = existsb hasShortfall
           (projectionYears
              (resultOf (blockedReinvestmentInputs (Some "ratesFallSignificantly"))))
    /\ exists earlier final,
         projectionYears
           (resultOf (blockedReinvestmentInputs (Some "ratesFallSignificantly")))
         = (earlier ++ [final])%list
         /\ finalPortfolioValue t = totalPortfolioValue final.
Proof.
  eexists. split; [reflexivity|].
  apply (summary_agrees_with_records powWhole
           (blockedReinvestmentInputs (Some "ratesFallSignificantly")) 0
           (snd (calculateProjections powWhole
                   (blockedReinvestmentInputs (Some "ratesFallSignificantly")) 0))).
  - apply (calculateProjections_plan powWhole
             (blockedReinvestmentInputs (Some "ratesFallSignificantly")) 0
             (examplePlan (blockedReinvestmentInputs
                             (Some "ratesFallSignificantly")))).
    vm_compute. reflexivity.
  - reflexivity.
Defined.

(** ** Where the rate scenario enters a run *)

Section ScenarioFacts.

Variable pow : Q -> Q -> Q.

Lemma fold_left_ext_in {A B : Type} (f g : A -> B -> A) (l : list B) :
  (forall a x, In x l -> f a x = g a x) ->
  forall a, fold_left f l a = fold_left g l a.
Proof.
  induction l as [|x l IH]; intros H a; [reflexivity|].
  cbn [fold_left]. rewrite (H a x (or_introl eq_refl)).
  apply IH. intros a' x' Hx. apply H. now right.
Qed.

(** The body of the CD loop asks for a rate only when the maturing CD
    elects a new CD. *)
Lemma maturityStep_scenario (env : Env) (sc1 sc2 : option string) (y : Z)
    (carried : Q) (a : MaturityAcc) (cd : Tranche) :
  (electsNewCd cd = true ->
   getRateForYear (nullish (reinvestmentTerm cd) "") y sc1
                  (env_interestRates env) (env_startYear env)
   = getRateForYear (nullish (reinvestmentTerm cd) "") y sc2
                    (env_interestRates env) (env_startYear env)) ->
  maturityStep pow (envWithScenario sc1 env) y carried a cd
  = maturityStep pow (envWithScenario sc2 env) y carried a cd.
Proof.
  intros H. unfold maturityStep, reinvestNewCd, envWithScenario.
  cbn [env_interestRates env_rateScenario env_startYear env_hysaTranches].
  destruct (maturesIn y cd); [|reflexivity].
  destruct (Qgtb carried (1 # 100)); [reflexivity|].
  destruct (String.eqb (nullish (reinvestmentOption cd) "") "hysa"); [reflexivity|].
  unfold electsNewCd in H.
  destruct (String.eqb (nullish (reinvestmentOption cd) "") "newCD"); [|reflexivity].
  rewrite (H eq_refl). reflexivity.
Qed.

(** An iteration of the year loop asks for a rate only for the liquid
    account, when it earns interest, and for the new CDs it creates. *)
Lemma simulateYear_scenario (env : Env) (sc1 sc2 : option string)
    (st : LoopState) (y : Z) :
  (hysaEarns env st = true ->
   getRateForYear "HYSA" y sc1 (env_interestRates env) (env_startYear env)
   = getRateForYear "HYSA" y sc2 (env_interestRates env) (env_startYear env)) ->
  (forall cd, In cd (activeCdTranches st) -> electsNewCd cd = true ->
     getRateForYear (nullish (reinvestmentTerm cd) "") y sc1
                    (env_interestRates env) (env_startYear env)
     = getRateForYear (nullish (reinvestmentTerm cd) "") y sc2
                      (env_interestRates env) (env_startYear env)) ->
  simulateYear pow (envWithScenario sc1 env) st y
  = simulateYear pow (envWithScenario sc2 env) st y.
Proof.
  intros Hh Hcd.
  assert (E1 : maturityPass pow (envWithScenario sc1 env) st y
               = maturityPass pow (envWithScenario sc2 env) st y).
  { unfold maturityPass. apply fold_left_ext_in.
    intros a cd Hin. apply maturityStep_scenario. exact (Hcd cd Hin). }
  assert (E2 : hysaInterestThisYear (envWithScenario sc1 env) st y
               = hysaInterestThisYear (envWithScenario sc2 env) st y).
  { unfold hysaInterestThisYear.
    change (hysaEarns (envWithScenario sc1 env) st) with (hysaEarns env st).
    change (hysaEarns (envWithScenario sc2 env) st) with (hysaEarns env st).
    destruct (hysaEarns env st); [|reflexivity].
    unfold envWithScenario.
    cbn [env_interestRates env_rateScenario env_startYear env_startMonth].
    rewrite (Hh eq_refl). reflexivity. }
  unfold simulateYear, netCashFlowBeforeHysaTransfer, cashAvailableThisYear,
    hysaBalanceAfterReinvestment, taxesDueThisYear, totalYearlyInterest.
  rewrite E1, E2. reflexivity.
Qed.

(** Two scenarios give the same run when they give the same rates
    wherever the states that satisfy an invariant of the run ask for one. *)
Lemma yearLoop_scenario (I : LoopState -> Prop) (env : Env)
    (sc1 sc2 : option string) (ys : list Z) :
  (forall st y, I st ->
     simulateYear pow (envWithScenario sc1 env) st y
     = simulateYear pow (envWithScenario sc2 env) st y) ->
  (forall st y, I st -> I (simulateYear pow (envWithScenario sc1 env) st y)) ->
  forall st, I st ->
    yearLoop pow (envWithScenario sc1 env) st ys
    = yearLoop pow (envWithScenario sc2 env) st ys.
Proof.
  intros Hsame Hkeep. induction ys as [|y ys IH]; intros st Hst; [reflexivity|].
  rewrite !yearLoop_cons, <- (Hsame st y Hst). apply IH, Hkeep, Hst.
Qed.

(** A run under a scenario, in terms of the plan of the default run. *)
Lemma run_with_scenario (input : Inputs) (sc : option string) (counter : nat) :
  (exists outcome,
     forall sc', prepare pow (withScenario sc' input) counter = inl outcome)
  \/ (exists plan,
        prepare pow (withScenario None input) counter = inr plan
        /\ forall sc',
             calculateProjections pow (withScenario sc' input) counter
             = (Returned
                  (finish plan
                     (yearLoop pow
                        (envWithScenario (Some (nullish sc' "ratesStayHigh"))
                                         (plan_env plan))
                        (plan_start plan) (plan_years plan))),
                reinvestmentCounter
                  (yearLoop pow
                     (envWithScenario (Some (nullish sc' "ratesStayHigh"))
                                      (plan_env plan))
                     (plan_start plan) (plan_years plan)))).
Proof.
  destruct (prepare pow (withScenario None input) counter) as [outcome | plan] eqn:Hp.
  - left. exists outcome. intros sc'. revert Hp. unfold prepare, withScenario.
    cbn [investmentStartDate lumpSum taxRate tranches withdrawals interestRates
         rateScenario].
    repeat match goal with
           | |- match ?x with _ => _ end = _ -> _ => destruct x; try discriminate
           end.
    all: exact (fun e => e).
  - right. exists plan. split; [reflexivity|]. intros sc'.
    destruct (prepare_plan pow _ counter plan Hp)
      as (parsedStart & numLumpSum & taxRatePercent & rows & ws & rates & ts
          & Hd & Hl & Ht & Hr & Hw & Hi & Hm & ->).
    cbn [withScenario investmentStartDate lumpSum taxRate tranches withdrawals
         interestRates rateScenario] in Hd, Hl, Ht, Hr, Hw, Hi.
    rewrite (calculateProjections_plan pow (withScenario sc' input) counter _
               (prepare_withScenario pow input sc' counter parsedStart numLumpSum
                  taxRatePercent rows ws rates ts Hd Hl Ht Hr Hw Hi Hm)).
    reflexivity.
Qed.

Lemma getRateForYear_unknown_scenario (k termKey : string) (y : Z)
    (rates : RateTable) (startYear : Z) :
  lookup k RATE_SCENARIOS = None ->
  getRateForYear termKey y (Some k) rates startYear
  = getRateForYear termKey y (Some "ratesStayHigh") rates startYear.
Proof.
  intros Hk. rewrite getRateForYear_stay_high. unfold getRateForYear.
  destruct (baseApyOf rates termKey); [|reflexivity].
  destruct (isBaselineKey (Some k)); [reflexivity|]. now rewrite Hk.
Qed.

(** X17: a scenario key that RATE_SCENARIOS does not know (and does not
    inherit) is treated as the baseline for the whole run: the call
    returns exactly what it returns when no scenario is passed. *)
Theorem unknown_scenario_runs_as_baseline (input : Inputs) (k : string)
    (counter : nat) :
  lookup k RATE_SCENARIOS = None ->
  ~ In k inheritedKeys ->
  calculateProjections pow (withScenario (Some k) input) counter
  = calculateProjections pow (withScenario None input) counter.
Proof.
  intros Hk _.
  destruct (run_with_scenario input None counter)
    as [(outcome & Ho) | (plan & _ & Hrun)].
  - unfold calculateProjections. now rewrite !Ho.
  - rewrite !Hrun. cbn [nullish].
    rewrite (yearLoop_scenario (fun _ => True) (plan_env plan) (Some k)
               (Some "ratesStayHigh") (plan_years plan)); auto.
    intros st y _. apply simulateYear_scenario.
    + intros _. apply getRateForYear_unknown_scenario, Hk.
    + intros cd _ _. apply getRateForYear_unknown_scenario, Hk.
Qed.

Lemma initTranche_no_hysa_no_newCD (rates : RateTable) (parsedStart : JsDate)
    (index : nat) (row : TrancheRow) (t : Tranche) :
  row_term row <> "HYSA" -> rowElectsNewCd row = false ->
  initTranche pow rates parsedStart index row = inr t ->
  isHYSA t = false /\ electsNewCd t = false.
Proof.
  intros Hterm Hel Ht.
  assert (Hh : isHYSA t = false).
  { revert Ht. unfold initTranche.
    destruct (baseApyOf rates (row_term row)); [|discriminate].
    destruct (lookup (row_term row) rates) as [info|]; [|discriminate].
    destruct (String.eqb (row_term row) "HYSA") eqn:Eh.
    { apply String.eqb_eq in Eh. contradiction. }
    destruct (duration info) as [d|]; [|discriminate].
    destruct (Qle_bool d 0); [discriminate|].
    intros H. now inversion H. }
  split; [exact Hh|].
  destruct (electsNewCd t) eqn:E; [|reflexivity].
  rewrite (initTranche_elects pow rates parsedStart index row t Ht Hh E) in Hel.
  discriminate.
Qed.

(** X18: the rate scenario matters only through the liquid account and
    through reinvestment in new CDs: when no tranche row is a liquid
    account and none elects a new CD, the call returns the same under
    every scenario. *)
Theorem scenario_irrelevant_without_hysa_and_new_cds (input : Inputs)
    (rows : list TrancheRow) (sc1 sc2 : option string) (counter : nat) :
  tranches input = Some rows ->
  (forall row, In row rows ->
     row_term row <> "HYSA" /\ rowElectsNewCd row = false) ->
  calculateProjections pow (withScenario sc1 input) counter
  = calculateProjections pow (withScenario sc2 input) counter.
Proof.
  intros Hrows Hplain.
  destruct (run_with_scenario input None counter)
    as [(outcome & Ho) | (plan & Hp & Hrun)].
  - unfold calculateProjections. now rewrite !Ho.
  - rewrite !Hrun.
    destruct (prepare_plan pow _ counter plan Hp)
      as (parsedStart & numLumpSum & taxRatePercent & rows' & ws & rates & ts
          & _ & _ & _ & Hrows' & _ & _ & Hm & Hplan).
    cbn [withScenario tranches] in Hrows'.
    assert (rows' = rows) by congruence. subst rows'.
    assert (Hall : Forall (fun t => isHYSA t = false /\ electsNewCd t = false) ts).
    { apply (mapTranches_Forall pow _ rates parsedStart rows 0 ts); [|exact Hm].
      intros row idx t Hrow. destruct (Hplain row Hrow).
      now apply initTranche_no_hysa_no_newCD. }
    assert (Hh : env_hysaTranches (plan_env plan) = []).
    { rewrite Hplan. cbn [makePlan plan_env env_hysaTranches].
      clear - Hall. induction Hall as [|t l (Ht & _) _ IH]; [reflexivity|].
      cbn [filter]. now rewrite Ht. }
    assert (Hstart : Forall (fun cd => electsNewCd cd = false)
                            (activeCdTranches (plan_start plan))).
    { rewrite Hplan. cbn [makePlan plan_start activeCdTranches].
      clear - Hall. induction Hall as [|t l (_ & Ht) _ IH]; [constructor|].
      cbn [filter]. destruct (negb (isHYSA t)); [constructor|]; assumption. }
    rewrite (yearLoop_scenario
               (fun st => Forall (fun cd => electsNewCd cd = false)
                                 (activeCdTranches st))
               (plan_env plan) (Some (nullish sc1 "ratesStayHigh"))
               (Some (nullish sc2 "ratesStayHigh")) (plan_years plan));
      [reflexivity | | | exact Hstart].
    + intros st y Hst. apply simulateYear_scenario.
      * unfold hysaEarns. rewrite Hh. discriminate.
      * intros cd Hin Hel.
        rewrite (proj1 (Forall_forall _ _) Hst cd Hin) in Hel. discriminate.
    + intros st y Hst.
      pose proof (simulateYear_state pow
                    (envWithScenario (Some (nullish sc1 "ratesStayHigh"))
                                     (plan_env plan)) st y) as T.
      cbn zeta in T. destruct T as (_ & _ & _ & T4 & _). rewrite T4.
      destruct (maturityPass_inv pow
                  (envWithScenario (Some (nullish sc1 "ratesStayHigh"))
                                   (plan_env plan)) st y)
        as [P1 _ _ _ _ _ _ (created & P8 & P9)].
      revert P1 P8. acc_simpl. cbn [app]. intros P1 P8. rewrite P1, P8.
      apply Forall_app. split.
      * apply Forall_forall. intros cd Hin. apply filter_In in Hin.
        exact (proj1 (Forall_forall _ _) Hst cd (proj1 Hin)).
      * eapply Forall_impl; [|exact P9].
        intros t (cd & _ & _ & Ht). exact (reinvestedFrom_elects_cash cd t Ht).
Qed.

End ScenarioFacts.

Lemma unknown_scenario_runs_as_baseline_witness :
  calculateProjections powWhole
    (withScenario (Some "ratesFallSlowly") (ladderInputs None)) 0
  = calculateProjections powWhole (withScenario None (ladderInputs None)) 0.
Proof.
  apply (unknown_scenario_runs_as_baseline powWhole (ladderInputs None)
           "ratesFallSlowly" 0).
  - reflexivity.
  - intros H. repeat (destruct H as [H | H]; [discriminate|]). exact H.
Defined.

Lemma scenario_irrelevant_without_hysa_and_new_cds_witness :
  calculateProjections powWhole
    (withScenario (Some "ratesFallSignificantly") (cashCdInputs None)) 0
  = calculateProjections powWhole (withScenario None (cashCdInputs None)) 0.
Proof.
  apply (scenario_irrelevant_without_hysa_and_new_cds powWhole (cashCdInputs None)
           [cdRow "12m" 1000 "cash"]).
  - reflexivity.
  - intros row [<- | []]. split; [discriminate | reflexivity].
Defined.

(** ** Outcomes of a call *)

Lemma append_cancel (s a b : string) : s ++ a = s ++ b -> a = b.
Proof.
  induction s as [|c s IH]; cbn; intros H; [exact H|].
  inversion H. auto.
Qed.

Lemma natToString_injective (n m : nat) : natToString n = natToString m -> n = m.
Proof.
  unfold natToString. intros H.
  apply (f_equal NilEmpty.uint_of_string) in H.
  rewrite !NilEmpty.usu in H. inversion H as [H'].
  apply (f_equal Nat.of_uint) in H'.
  now rewrite !DecimalNat.Unsigned.of_to in H'.
Qed.

(** X19: the ids that [generateReinvestId] derives from one original id
    are distinct for distinct values of the counter. *)
Theorem generateReinvestId_distinct (originalId : string) (c1 c2 : nat) :
  c1 <> c2 ->
  generateReinvestId originalId c1 <> generateReinvestId originalId c2.
Proof.
  intros Hne H. apply Hne. unfold generateReinvestId in H.
  apply append_cancel in H. apply append_cancel in H.
  now apply natToString_injective.
Qed.

Lemma generateReinvestId_distinct_witness :
  generateReinvestId "12m-1" 9 <> generateReinvestId "12m-1" 10.
Proof.
  apply (generateReinvestId_distinct "12m-1" 9 10). discriminate.
Defined.

Section OutcomeFacts.

Variable pow : Q -> Q -> Q.

(** Whether a row is accepted does not depend on its position. *)
Lemma initTranche_index (rates : RateTable) (parsedStart : JsDate)
    (i j : nat) (row : TrancheRow) :
  match initTranche pow rates parsedStart i row,
        initTranche pow rates parsedStart j row with
  | inl m1, inl m2 =>
      m1 = m2
      /\ (m1 = "Missing or invalid rate data for term: " ++ row_term row
          \/ m1 = "Invalid duration for term: " ++ row_term row)
  | inr _, inr _ => True
  | _, _ => False
  end.
Proof.
  unfold initTranche.
  destruct (baseApyOf rates (row_term row)); [|now auto].
  destruct (lookup (row_term row) rates) as [info|]; [|now auto].
  destruct (String.eqb (row_term row) "HYSA"); [exact I|].
  destruct (duration info) as [d|]; [|now auto].
  destruct (Qle_bool d 0); [now auto | exact I].
Qed.

Lemma mapTranches_first_invalid (rates : RateTable) (parsedStart : JsDate)
    (accepted : list TrancheRow) (bad : TrancheRow) (rest : list TrancheRow)
    (message : string) :
  (forall row, In row accepted ->
     exists t, initTranche pow rates parsedStart 0 row = inr t) ->
  initTranche pow rates parsedStart 0 bad = inl message ->
  forall index,
    mapTranches pow rates parsedStart index (accepted ++ bad :: rest)
    = inl message.
Proof.
  intros Hok Hbad.
  induction accepted as [|row accepted IH]; intros index; cbn [app mapTranches].
  - pose proof (initTranche_index rates parsedStart index 0 bad) as H.
    rewrite Hbad in H.
    destruct (initTranche pow rates parsedStart index bad); [|contradiction].
    now destruct H as (-> & _).
  - destruct (Hok row (or_introl eq_refl)) as (t & Ht).
    pose proof (initTranche_index rates parsedStart index 0 row) as H.
    rewrite Ht in H.
    destruct (initTranche pow rates parsedStart index row); [contradiction|].
    rewrite IH; [reflexivity|]. intros row' Hin. apply Hok. now right.
Qed.

(** X20: when the required inputs are present and the start date parses,
    the first tranche row that is not accepted decides the outcome: the
    call throws the message of that row, whatever the rows after it are,
    and leaves the reinvestment counter as it was.  The message names the
    term of that row. *)
Theorem first_invalid_row_is_thrown (input : Inputs) (counter : nat)
    (parsedStart : JsDate) (numLumpSum taxRatePercent : Q)
    (ws : list Withdrawal) (rates : RateTable)
    (accepted : list TrancheRow) (bad : TrancheRow) (rest : list TrancheRow)
    (message : string) :
  investmentStartDate input = Some (Some parsedStart) ->
  lumpSum input = Some numLumpSum ->
  taxRate input = Some taxRatePercent ->
  withdrawals input = Some ws ->
  interestRates input = Some rates ->
  tranches input = Some (accepted ++ bad :: rest)%list ->
  (forall row, In row accepted ->
     exists t, initTranche pow rates parsedStart 0 row = inr t) ->
  initTranche pow rates parsedStart 0 bad = inl message ->
  calculateProjections pow input counter = (Thrown message, counter)
  /\ (message = "Missing or invalid rate data for term: " ++ row_term bad
      \/ message = "Invalid duration for term: " ++ row_term bad).
Proof.
  intros Hd Hl Ht Hw Hi Hr Hok Hbad. split.
  - unfold calculateProjections, prepare. rewrite Hd, Hl, Ht, Hw, Hi, Hr.
    now rewrite (mapTranches_first_invalid rates parsedStart accepted bad rest
                   message Hok Hbad 0).
  - pose proof (initTranche_index rates parsedStart 0 0 bad) as H.
    rewrite Hbad in H. now destruct H.
Qed.

(** X21: what a call can do, by cause, when the scenario id is not an
    inherited property name.  It returns an error object, with no records,
    exactly when a required input is missing (first message) or, all being
    present, the start date does not parse (second message); it throws
    exactly when, past these checks, a tranche row is not accepted; in
    every other case it returns a projection without an error message,
    with totals.  Only this last case can move the reinvestment
    counter. *)
Theorem calculateProjections_outcomes (input : Inputs) (counter : nat) :
  (forall k, rateScenario input = Some k -> ~ In k inheritedKeys) ->
  match calculateProjections pow input counter with
  | (Returned result, counter') =>
      match error result with
      | Some message =>
          counter' = counter
          /\ result = errorResult message
          /\ ((message
               = "Missing or invalid required inputs (Date, Lump Sum, Tax Rate)"
               /\ (investmentStartDate input = None \/ lumpSum input = None
                   \/ taxRate input = None \/ tranches input = None
                   \/ withdrawals input = None \/ interestRates input = None))
              \/ (message = "Invalid Investment Start Date"
                  /\ investmentStartDate input = Some None
                  /\ lumpSum input <> None /\ taxRate input <> None
                  /\ tranches input <> None /\ withdrawals input <> None
                  /\ interestRates input <> None))
      | None =>
          exists parsedStart rows rates ts,
            investmentStartDate input = Some (Some parsedStart)
            /\ tranches input = Some rows
            /\ interestRates input = Some rates
            /\ mapTranches pow rates parsedStart 0 rows = inr ts
            /\ totals result <> None
            /\ projectionYears result <> []
      end
  | (Thrown message, counter') =>
      counter' = counter
      /\ exists parsedStart rows rates,
           investmentStartDate input = Some (Some parsedStart)
           /\ lumpSum input <> None /\ taxRate input <> None
           /\ withdrawals input <> None
           /\ tranches input = Some rows
           /\ interestRates input = Some rates
           /\ mapTranches pow rates parsedStart 0 rows = inl message
  end.
Proof.
  intros _.
  destruct (prepare pow input counter) as [outcome | plan] eqn:Hp.
  - unfold calculateProjections. rewrite Hp.
    unfold prepare in Hp.
    destruct (investmentStartDate input) as [[parsedStart|]|];
      destruct (lumpSum input); destruct (taxRate input);
      destruct (tranches input) as [rows|];
      destruct (withdrawals input); destruct (interestRates input) as [rates|];
      try (inversion Hp; cbn [error errorResult];
           split; [reflexivity|]; split; [reflexivity|]; left;
           split; [reflexivity|]; tauto).
    + destruct (mapTranches pow rates parsedStart 0 rows) as [message | ts] eqn:Hm.
      * inversion Hp. split; [reflexivity|].
        exists parsedStart, rows, rates. repeat split; try discriminate.
        exact Hm.
      * unfold allYears in Hp. discriminate Hp.
    + inversion Hp. cbn [error errorResult].
      split; [reflexivity|]. split; [reflexivity|]. right.
      repeat split; discriminate.
  - rewrite (calculateProjections_plan pow input counter plan Hp).
    cbn [finish error].
    destruct (prepare_plan pow input counter plan Hp)
      as (parsedStart & numLumpSum & taxRatePercent & rows & ws & rates & ts
          & Hd & _ & _ & Hr & _ & Hi & Hm & Hplan).
    exists parsedStart, rows, rates, ts.
    split; [exact Hd|]. split; [exact Hr|]. split; [exact Hi|].
    split; [exact Hm|]. split; [discriminate|].
    cbn [finish projectionYears]. intros Hnil.
    pose proof (run_record_years pow input counter plan Hp) as Hy.
    rewrite Hnil in Hy.
    destruct (makePlan_range pow parsedStart taxRatePercent ws rates
                (rateScenario input) rows ts counter Hm) as (_ & Hle).
    rewrite <- Hplan in Hle.
    destruct (yearRange_head _ _ Hle) as (years & Hyears).
    unfold plan_years in Hy. rewrite Hyears in Hy. discriminate.
Qed.

End OutcomeFacts.

Lemma first_invalid_row_is_thrown_witness :
  calculateProjections powWhole
    (inputsWith [cdRow "12m" 1000 "cash"; cdRow "99m" 500 "cash";
                 cdRow "HYSA" 100 "cash"; cdRow "77m" 1 "cash"]
                [] DEFAULT_INTEREST_RATES None) 3
  = (Thrown "Missing or invalid rate data for term: 99m", 3%nat)
  /\ ("Missing or invalid rate data for term: 99m"
      = "Missing or invalid rate data for term: " ++ row_term (cdRow "99m" 500 "cash")
      \/ "Missing or invalid rate data for term: 99m"
         = "Invalid duration for term: " ++ row_term (cdRow "99m" 500 "cash")).
Proof.
  eapply (first_invalid_row_is_thrown powWhole
           (inputsWith [cdRow "12m" 1000 "cash"; cdRow "99m" 500 "cash";
                        cdRow "HYSA" 100 "cash"; cdRow "77m" 1 "cash"]
                       [] DEFAULT_INTEREST_RATES None) 3
           (mkDate 2024 0) _ 25 [] DEFAULT_INTEREST_RATES
           [cdRow "12m" 1000 "cash"] (cdRow "99m" 500 "cash")
           [cdRow "HYSA" 100 "cash"; cdRow "77m" 1 "cash"]);
    try reflexivity.
  intros row [<- | []]. eexists. reflexivity.
Defined.

Lemma calculateProjections_outcomes_witness :
  exists parsedStart rows rates ts,
    investmentStartDate (ladderInputs (Some "ratesFallModerately"))
    = Some (Some parsedStart)
    /\ tranches (ladderInputs (Some "ratesFallModerately")) = Some rows
    /\ interestRates (ladderInputs (Some "ratesFallModerately")) = Some rates
    /\ mapTranches powWhole rates parsedStart 0 rows = inr ts
    /\ totals (resultOf (ladderInputs (Some "ratesFallModerately"))) <> None
    /\ projectionYears (resultOf (ladderInputs (Some "ratesFallModerately")))
       <> [].
Proof.
  assert (Hscenario : forall k,
             rateScenario (ladderInputs (Some "ratesFallModerately")) = Some k ->
             ~ In k inheritedKeys).
  { intros k Hk H. inversion Hk. subst k.
    repeat (destruct H as [H | H]; [discriminate|]). exact H. }
  pose proof (calculateProjections_outcomes powWhole
                (ladderInputs (Some "ratesFallModerately")) 0 Hscenario) as H.
  rewrite (calculateProjections_plan powWhole
             (ladderInputs (Some "ratesFallModerately")) 0
             (examplePlan (ladderInputs (Some "ratesFallModerately"))) eq_refl)
    in H.
  exact H.
Defined.

(** ** The life of a tranche *)

Lemma yearRange_nth (minYear maxYear : Z) (j : nat) (y : Z) :
  nth_error (yearRange minYear maxYear) j = Some y ->
  y = (minYear + Z.of_nat j)%Z.
Proof.
  unfold yearRange. rewrite nth_error_map.
  destruct (nth_error (seq 0 (Z.to_nat (maxYear - minYear + 1))) j) as [k|] eqn:E;
    [|discriminate].
  intros H. inversion H. clear H.
  assert (Hlt : (j < List.length (seq 0 (Z.to_nat (maxYear - minYear + 1))))%nat)
    by (apply nth_error_Some; congruence).
  rewrite length_seq in Hlt.
  apply (nth_error_nth _ _ 0%nat) in E. rewrite seq_nth in E by exact Hlt.
  lia.
Qed.

Section LifecycleFacts.

Variable pow : Q -> Q -> Q.

(** The tranches that are active after an iteration. *)
Lemma simulateYear_active (env : Env) (st : LoopState) (y : Z) :
  activeCdTranches (simulateYear pow env st y)
  = (filter (fun cd => negb (maturesIn y cd)) (activeCdTranches st)
     ++ newlyReinvestedTranches (maturityPass pow env st y))%list.
Proof.
  pose proof (simulateYear_state pow env st y) as T. cbn zeta in T.
  destruct T as (_ & _ & _ & T4 & _). rewrite T4.
  destruct (maturityPass_inv pow env st y) as [P1 _ _ _ _ _ _ _].
  revert P1. acc_simpl. cbn [app]. now intros ->.
Qed.

(** X22: a CD created by a reinvestment whose own maturity falls in the
    year in which it is created is never paid out: in every later year of
    the run it is still in the list of active tranches, it is not among
    the maturing CDs, and it is not counted as an ongoing investment. *)
Theorem reinvestment_maturing_in_its_year_is_never_paid (input : Inputs)
    (counter : nat) (plan : Plan) (i : nat) (y : Z) (t : Tranche) :
  prepare pow input counter = inr plan ->
  nth_error (plan_years plan) i = Some y ->
  In t (newlyReinvestedTranches
          (maturityPass pow (plan_env plan) (stateBefore pow plan i) y)) ->
  maturesIn y t = true ->
  forall j y',
    (i < j)%nat ->
    nth_error (plan_years plan) j = Some y' ->
    In t (activeCdTranches (stateBefore pow plan j))
    /\ maturesIn y' t = false
    /\ maturesAfter y' t = false.
Proof.
  intros _ Hy Hnew Hmat.
  assert (Hyi : y = (plan_minYear plan + Z.of_nat i)%Z)
    by (apply (yearRange_nth _ (plan_maxYear plan)); exact Hy).
  assert (Hlater : forall j y', (i < j)%nat ->
            nth_error (plan_years plan) j = Some y' ->
            maturesIn y' t = false /\ maturesAfter y' t = false).
  { intros j y' Hij Hj.
    assert (Hyj : y' = (plan_minYear plan + Z.of_nat j)%Z)
      by (apply (yearRange_nth _ (plan_maxYear plan)); exact Hj).
    revert Hmat. unfold maturesIn, maturesAfter.
    destruct (maturityDate t) as [d|]; [|discriminate].
    intros Hd. apply Z.eqb_eq in Hd. split.
    - apply Z.eqb_neq. lia.
    - apply Z.ltb_ge. lia. }
  assert (Hstay : forall k y',
            nth_error (plan_years plan) (S i + k) = Some y' ->
            In t (activeCdTranches (stateBefore pow plan (S i + k)))).
  { induction k as [|k IH]; intros y' Hj.
    - rewrite Nat.add_0_r.
      rewrite (stateBefore_succ pow plan i y Hy), simulateYear_active.
      apply in_or_app. now right.
    - replace (S i + S k)%nat with (S (S i + k)) in * by lia.
      destruct (nth_error (plan_years plan) (S i + k)) as [yk|] eqn:Hk.
      + rewrite (stateBefore_succ pow plan (S i + k) yk Hk), simulateYear_active.
        apply in_or_app. left. apply filter_In. split; [apply (IH yk eq_refl)|].
        destruct (Hlater (S i + k)%nat yk) as (-> & _); [lia | exact Hk | reflexivity].
      + exfalso. apply nth_error_None in Hk.
        assert (Hsome : nth_error (plan_years plan) (S (S i + k)) <> None)
          by congruence.
        apply nth_error_Some in Hsome. lia. }
  intros j y' Hij Hj. split; [|exact (Hlater j y' Hij Hj)].
  replace j with (S i + (j - S i))%nat in * by lia.
  exact (Hstay _ y' Hj).
Qed.

Lemma initTranche_cd_matures (rates : RateTable) (parsedStart : JsDate)
    (index : nat) (row : TrancheRow) (t : Tranche) :
  initTranche pow rates parsedStart index row = inr t ->
  isHYSA t = false -> exists d, maturityDate t = Some d.
Proof.
  unfold initTranche.
  destruct (baseApyOf rates (row_term row)); [|discriminate].
  destruct (lookup (row_term row) rates) as [info|]; [|discriminate].
  destruct (String.eqb (row_term row) "HYSA").
  { intros H. inversion H. discriminate. }
  destruct (duration info) as [d|]; [|discriminate].
  destruct (Qle_bool d 0); [discriminate|].
  intros H. inversion H. cbn. eauto.
Qed.

Lemma yearLoop_pays_out (env : Env) (ys : list Z) :
  forall st,
    Forall (paidWithin ys) (activeCdTranches st) ->
    sumBy maturingValue (projection (yearLoop pow env st ys))
    == sumBy maturingValue (projection st)
       + sumBy valueAtMaturity (activeCdTranches st).
Proof.
  induction ys as [|y ys IH]; intros st Hall.
  - cbn [yearLoop fold_left].
    destruct (activeCdTranches st) as [|cd l].
    + change (sumBy valueAtMaturity []) with 0. ring.
    + inversion Hall as [|? ? (_ & d & _ & []) _].
  - rewrite yearLoop_cons.
    assert (Hnone : filter electsNewCd (activeCdTranches st) = []).
    { clear - Hall. induction Hall as [|cd l (Hcd & _) _ IHl]; [reflexivity|].
      cbn [filter]. now rewrite Hcd. }
    assert (Hnew : newlyReinvestedTranches (maturityPass pow env st y) = []).
    { destruct (maturityPass_inv pow env st y) as [_ _ _ _ _ _ P7 _].
      revert P7. acc_simpl. rewrite Hnone. cbn [List.length].
      destruct (newlyReinvestedTranches (maturityPass pow env st y));
        [reflexivity|]. cbn [List.length]. lia. }
    assert (Hactive : activeCdTranches (simulateYear pow env st y)
                      = filter (fun cd => negb (maturesIn y cd))
                               (activeCdTranches st)).
    { rewrite simulateYear_active, Hnew. apply app_nil_r. }
    rewrite IH.
    + destruct (simulateYear_emits pow env st y) as (r & Hr & He).
      pose proof (emittedRecord_fields pow env st y r He) as F. cbn zeta in F.
      destruct F as (_ & Fm & _).
      destruct (maturityPass_inv pow env st y) as [_ P2 _ _ _ _ _ _].
      revert P2. acc_simpl. intros P2.
      rewrite Hr, sumBy_snoc, Fm, P2, Hactive, sumBy_filter.
      unfold maturingTotal.
      rewrite <- Qplus_assoc. apply Qplus_inj_l.
      rewrite Qplus_0_l, <- sumBy_plus. apply sumBy_ext_in.
      intros cd _. destruct (maturesIn y cd); cbn [negb]; ring.
    + rewrite Hactive. apply Forall_forall. intros cd Hin.
      apply filter_In in Hin. destruct Hin as (Hin & Hm).
      destruct (proj1 (Forall_forall _ _) Hall cd Hin) as (Hel & d & Hd & Hy).
      split; [exact Hel|]. exists d. split; [exact Hd|].
      destruct Hy as [Hy | Hy]; [|exact Hy].
      unfold maturesIn in Hm. rewrite Hd in Hm.
      apply negb_true_iff, Z.eqb_neq in Hm. congruence.
Qed.

(** X23: when no tranche row elects a new CD, every initial CD is paid
    out exactly once within the projection: the maturing values of the
    records add up to the values at maturity of the initial CDs. *)
Theorem unreinvested_cds_are_paid_out_once (input : Inputs)
    (counter counter' : nat) (result : ProjectionResult) (plan : Plan)
    (rows : list TrancheRow) :
  calculateProjections pow input counter = (Returned result, counter') ->
  prepare pow input counter = inr plan ->
  tranches input = Some rows ->
  (forall row, In row rows -> rowElectsNewCd row = false) ->
  sumBy maturingValue (projectionYears result)
  == sumBy valueAtMaturity
           (filter (fun t => negb (isHYSA t)) (plan_initialTranches plan)).
Proof.
  intros Hc Hp Hrows Hplain.
  rewrite (calculateProjections_plan pow input counter plan Hp) in Hc.
  inversion Hc as [[Hr Hcounter]]. clear Hc Hcounter Hr.
  cbn [finish projectionYears].
  destruct (prepare_plan pow input counter plan Hp)
    as (parsedStart & numLumpSum & taxRatePercent & rows' & ws & rates & ts
        & Hd & _ & _ & Hrows' & _ & _ & Hm & Hplan).
  assert (rows' = rows) by congruence. subst rows'.
  destruct (plan_range pow input counter plan parsedStart Hp Hd)
    as (_ & _ & _ & R4).
  assert (Hstart : activeCdTranches (plan_start plan)
                   = filter (fun t => negb (isHYSA t)) (plan_initialTranches plan))
    by (now rewrite Hplan).
  assert (Hts : plan_initialTranches plan = ts) by (now rewrite Hplan).
  rewrite yearLoop_pays_out.
  - rewrite (prepare_start_projection pow input counter plan Hp), Hstart.
    change (sumBy maturingValue []) with 0. ring.
  - rewrite Hstart. apply Forall_forall. intros t Hin.
    apply filter_In in Hin. destruct Hin as (Hin & Hcd).
    apply negb_true_iff in Hcd.
    assert (Hfacts : electsNewCd t = false /\ exists d, maturityDate t = Some d).
    { rewrite Hts in Hin.
      pose proof (mapTranches_Forall pow
                    (fun t => isHYSA t = false ->
                       electsNewCd t = false /\ exists d, maturityDate t = Some d)
                    rates parsedStart rows 0 ts) as HF.
      refine (proj1 (Forall_forall _ _) (HF _ Hm) t Hin Hcd).
      intros row idx t' Hrow Ht' Hh. split.
      - destruct (electsNewCd t') eqn:E; [|reflexivity].
        pose proof (Hplain row Hrow) as Hf.
        rewrite (initTranche_elects pow rates parsedStart idx row t' Ht' Hh E)
          in Hf.
        discriminate.
      - exact (initTranche_cd_matures rates parsedStart idx row t' Ht' Hh). }
    destruct Hfacts as (Hel & d & Hdate).
    split; [exact Hel|]. exists d. split; [exact Hdate|].
    apply yearRange_In. exact (R4 t d Hin Hdate).
Qed.

End LifecycleFacts.

Lemma reinvestment_maturing_in_its_year_is_never_paid_witness :
  exists t,
    In t (newlyReinvestedTranches
            (maturityPass powWhole (plan_env (examplePlan shortReinvestmentInputs))
               (stateBefore powWhole (examplePlan shortReinvestmentInputs) 1) 2025))
    /\ amount t == 1040
    /\ In t (activeCdTranches
               (stateBefore powWhole (examplePlan shortReinvestmentInputs) 5))
    /\ maturesIn 2029 t = false
    /\ maturesAfter 2029 t = false.
Proof.
  eexists. split; [vm_compute; left; reflexivity|].
  split; [vm_compute; reflexivity|].
  apply (reinvestment_maturing_in_its_year_is_never_paid powWhole
           shortReinvestmentInputs 0 (examplePlan shortReinvestmentInputs)
           1 2025 _ eq_refl).
  - vm_compute. reflexivity.
  - vm_compute. left. reflexivity.
  - vm_compute. reflexivity.
  - lia.
  - vm_compute. reflexivity.
Defined.

Lemma unreinvested_cds_are_paid_out_once_witness :
  sumBy maturingValue (projectionYears (resultOf (plainLadderInputs None)))
  == sumBy valueAtMaturity
       (filter (fun t => negb (isHYSA t))
          (plan_initialTranches (examplePlan (plainLadderInputs None)))).
Proof.
  apply (unreinvested_cds_are_paid_out_once powWhole (plainLadderInputs None) 0
           (snd (calculateProjections powWhole (plainLadderInputs None) 0))
           (resultOf (plainLadderInputs None))
           (examplePlan (plainLadderInputs None))
           [ cdRow "HYSA" 5000 "cash"; cdRow "12m" 1000 "hysa";
             cdRow "24m" 2000 "cash" ]).
  - apply (calculateProjections_plan powWhole (plainLadderInputs None) 0
             (examplePlan (plainLadderInputs None))).
    vm_compute. reflexivity.
  - vm_compute. reflexivity.
  - reflexivity.
  - intros row [<- | [<- | [<- | []]]]; reflexivity.
Defined.

Section CashFlowFacts.

Variable pow : Q -> Q -> Q.


End CashFlowFacts.


(** ** The net worth from year to year *)

Lemma maturing_total_booked (y : Z) (cds : list Tranche) :
  Forall bookedInterest cds ->
  maturingTotal y cds == maturingPrincipal y cds + maturingInterest y cds.
Proof.
  unfold maturingTotal, maturingPrincipal, maturingInterest.
  induction 1 as [|cd cds Hcd _ IH].
  - change (0 == 0 + 0). ring.
  - rewrite !sumBy_cons, IH. unfold bookedInterest in Hcd.
    destruct (maturesIn y cd); lra.
Qed.

(** The CDs that mature after the previous year are those that mature
    this year and those that mature after it. *)
Lemma ongoing_principal_split (y : Z) (cds : list Tranche) :
  sumBy amount (filter (maturesAfter (y - 1)) cds)
  == maturingPrincipal y cds + sumBy amount (filter (maturesAfter y) cds).
Proof.
  unfold maturingPrincipal. rewrite !sumBy_filter, <- sumBy_plus.
  apply sumBy_ext_in. intros cd _. unfold maturesAfter, maturesIn.
  destruct (maturityDate cd) as [d|]; [|ring].
  destruct (getFullYear d =? y)%Z eqn:E1; destruct (y <? getFullYear d)%Z eqn:E2;
    destruct (y - 1 <? getFullYear d)%Z eqn:E3; try ring; exfalso;
    rewrite ?Z.eqb_eq, ?Z.eqb_neq, ?Z.ltb_lt, ?Z.ltb_ge in *; lia.
Qed.

Lemma ongoing_after_maturity (y : Z) (cds : list Tranche) :
  filter (maturesAfter y) (filter (fun cd => negb (maturesIn y cd)) cds)
  = filter (maturesAfter y) cds.
Proof.
  induction cds as [|cd cds IH]; [reflexivity|].
  cbn [filter]. destruct (maturesIn y cd) eqn:Em; cbn [negb filter].
  - rewrite IH.
    assert (Ha : maturesAfter y cd = false).
    { revert Em. unfold maturesIn, maturesAfter.
      destruct (maturityDate cd); [|reflexivity].
      rewrite Z.eqb_eq, Z.ltb_ge. lia. }
    now rewrite Ha.
  - now rewrite IH.
Qed.

Lemma sumBy_partition {A : Type} (p : A -> bool) (f : A -> Q) (l : list A) :
  sumBy f l == sumBy f (filter p l) + sumBy f (filter (fun x => negb (p x)) l).
Proof.
  rewrite !sumBy_filter, <- sumBy_plus. apply sumBy_ext_in.
  intros x _. destruct (p x); cbn [negb]; ring.
Qed.

Section NetWorthFacts.

Variable pow : Q -> Q -> Q.

Lemma initTranche_booked (rates : RateTable) (parsedStart : JsDate)
    (index : nat) (row : TrancheRow) (t : Tranche) :
  initTranche pow rates parsedStart index row = inr t ->
  bookedInterest t /\ amount t = numberOr0 (row_amount row).
Proof.
  unfold initTranche, bookedInterest.
  destruct (baseApyOf rates (row_term row)); [|discriminate].
  destruct (lookup (row_term row) rates) as [info|]; [|discriminate].
  destruct (String.eqb (row_term row) "HYSA").
  { intros H. inversion H. cbn. split; [ring | reflexivity]. }
  destruct (duration info) as [d|]; [|discriminate].
  destruct (Qle_bool d 0); [discriminate|].
  intros H. inversion H. cbn. split; reflexivity.
Qed.

Lemma simulateYear_booked (env : Env) (st : LoopState) (y : Z) :
  Forall bookedInterest (activeCdTranches st) ->
  Forall bookedInterest (activeCdTranches (simulateYear pow env st y)).
Proof.
  intros H. rewrite simulateYear_active. apply Forall_app. split.
  - apply Forall_forall. intros cd Hin. apply filter_In in Hin.
    exact (proj1 (Forall_forall _ _) H cd (proj1 Hin)).
  - destruct (maturityPass_inv pow env st y)
      as [_ _ _ _ _ _ _ (created & P8 & P9)].
    revert P8. acc_simpl. cbn [app]. intros ->.
    eapply Forall_impl; [|exact P9].
    intros t (cd & _ & _ & Ht). exact (rf_interest _ _ Ht).
Qed.

(** One year of the net worth. *)
Lemma simulateYear_net_worth (env : Env) (st : LoopState) (y : Z)
    (r : YearRecord) :
  Forall bookedInterest (activeCdTranches st) ->
  emittedRecord pow env st y = Some r ->
  netWorthAt y (simulateYear pow env st y)
  == netWorthAt (y - 1) st
     + yearlyInterest r - taxesDue r - withdrawalAmount r
     - maturingAtOnce y (newlyReinvestedTranches (maturityPass pow env st y))
  /\ totalPortfolioValue r - yearEndShortfallAmount r
     == netWorthAt y (simulateYear pow env st y).
Proof.
  intros Hbooked He.
  pose proof (emittedRecord_fields pow env st y r He) as F. cbn zeta in F.
  destruct F as (_ & _ & _ & Fi & _ & _ & Ft & _ & Fw & Fc & Fh & _ & Fs).
  destruct (emittedRecord_derived pow env st y r He) as (_ & D2 & D3 & D4).
  pose proof (simulateYear_state pow env st y) as T. cbn zeta in T.
  destruct T as (T1 & T2 & T3 & _).
  destruct (coverShortfall_facts (netCashFlowBeforeHysaTransfer pow env st y)
              (hysaBalanceAfterReinvestment pow env st y))
    as (_ & _ & S3 & S4 & _).
  destruct (maturityPass_inv pow env st y) as [_ _ P3 _ P5 _ _ _].
  revert P3 P5. acc_simpl. change (sumBy amount (@nil Tranche)) with 0.
  intros P3 P5.
  pose proof (maturing_total_booked y _ Hbooked) as Hsplit.
  pose proof (ongoing_principal_split y (activeCdTranches st)) as Hprev.
  pose proof (sumBy_partition (maturesAfter y) amount
                (newlyReinvestedTranches (maturityPass pow env st y))) as Hnew.
  assert (Hongoing :
    sumBy amount (filter (maturesAfter y)
                    (activeCdTranches (simulateYear pow env st y)))
    == sumBy amount (filter (maturesAfter y) (activeCdTranches st))
       + sumBy amount (filter (maturesAfter y)
                         (newlyReinvestedTranches (maturityPass pow env st y)))).
  { rewrite simulateYear_active, filter_app, sumBy_app, ongoing_after_maturity.
    reflexivity. }
  unfold netWorthAt, maturingAtOnce.
  rewrite Hongoing, T1, T2, T3. split.
  - rewrite Fi, Ft, Fw.
    set (covered := coverShortfall _ _) in *.
    unfold netCashFlowBeforeHysaTransfer, cashAvailableThisYear,
      startingCashForYear, hysaBalanceAfterReinvestment, totalYearlyInterest in *.
    lra.
  - rewrite D3, D2, D4, Hongoing, Fc, Fh, Fs. ring.
Qed.

(** The interest of every active tranche is booked, throughout a run. *)
Lemma run_booked (input : Inputs) (counter : nat) (plan : Plan) (i : nat) :
  prepare pow input counter = inr plan ->
  Forall bookedInterest (activeCdTranches (stateBefore pow plan i)).
Proof.
  intros Hp. unfold stateBefore.
  apply (yearLoop_invariant pow (plan_env plan)
           (fun st => Forall bookedInterest (activeCdTranches st))).
  - intros st y. apply simulateYear_booked.
  - destruct (prepare_plan pow input counter plan Hp)
      as (parsedStart & numLumpSum & taxRatePercent & rows & ws & rates & ts
          & _ & _ & _ & _ & _ & _ & Hm & ->).
    cbn [makePlan plan_start activeCdTranches].
    apply Forall_forall. intros t Hin. apply filter_In in Hin.
    refine (proj1 (Forall_forall _ _)
              (mapTranches_Forall pow bookedInterest rates parsedStart rows 0 ts
                 _ Hm) t (proj1 Hin)).
    intros row idx t' _ Ht'. exact (proj1 (initTranche_booked _ _ _ _ _ Ht')).
Qed.


Lemma mapTranches_amounts (rates : RateTable) (parsedStart : JsDate)
    (rows : list TrancheRow) :
  forall index ts,
    mapTranches pow rates parsedStart index rows = inr ts ->
    sumBy amount ts == sumBy (fun row => numberOr0 (row_amount row)) rows.
Proof.
  induction rows as [|row rows IH]; intros index ts H; cbn in H.
  - inversion H. reflexivity.
  - destruct (initTranche pow rates parsedStart index row) as [|t] eqn:Ht;
      [discriminate|].
    destruct (mapTranches pow rates parsedStart (S index) rows) as [|ts'] eqn:Hts;
      [discriminate|].
    inversion H. rewrite !sumBy_cons, (IH _ _ Hts).
    now rewrite (proj2 (initTranche_booked _ _ _ _ _ Ht)).
Qed.

(** X26: the projection starts from the allocated amounts, not from the
    lump sum: the net worth of the first record is the sum of the amounts
    of the tranche rows (each read as [Number(amount) || 0]), plus the
    interest of the first year, less its taxes and withdrawals, and less
    the principal of the CDs created in that year that mature no later
    than that year. *)
Theorem first_record_starts_from_allocated_amounts (input : Inputs)
    (counter counter' : nat) (result : ProjectionResult) (r : YearRecord)
    (rows : list TrancheRow) :
  calculateProjections pow input counter = (Returned result, counter') ->
  nth_error (projectionYears result) 0 = Some r ->
  tranches input = Some rows ->
  exists plan,
    prepare pow input counter = inr plan
    /\ totalPortfolioValue r - yearEndShortfallAmount r
       == sumBy (fun row => numberOr0 (row_amount row)) rows
          + yearlyInterest r - taxesDue r - withdrawalAmount r
          - maturingAtOnce (year r)
              (newlyReinvestedTranches
                 (maturityPass pow (plan_env plan) (plan_start plan) (year r))).
Proof.
  intros Hc Hr Hrows.
  destruct (run_record_indexed pow input counter counter' result 0 r Hc Hr)
    as (plan & Hp & Hy & He).
  exists plan. split; [exact Hp|].
  change (stateBefore pow plan 0) with (plan_start plan) in He.
  assert (Hbooked : Forall bookedInterest (activeCdTranches (plan_start plan)))
    by exact (run_booked input counter plan 0 Hp).
  destruct (simulateYear_net_worth (plan_env plan) (plan_start plan) (year r) r
              Hbooked He) as (Hstep & Hafter).
  rewrite Hafter, Hstep.
  assert (Hstart : netWorthAt (year r - 1) (plan_start plan)
                   == sumBy (fun row => numberOr0 (row_amount row)) rows).
  { destruct (prepare_plan pow input counter plan Hp)
      as (parsedStart & numLumpSum & taxRatePercent & rows' & ws & rates & ts
          & Hd & _ & _ & Hrows' & _ & _ & Hm & Hplan).
    assert (rows' = rows) by congruence. subst rows'.
    destruct (plan_range pow input counter plan parsedStart Hp Hd)
      as (_ & _ & _ & R4).
    assert (Hfirst : year r = plan_minYear plan).
    { rewrite (yearRange_nth _ _ _ _ Hy). cbn. lia. }
    rewrite <- (mapTranches_amounts rates parsedStart rows 0 ts Hm).
    assert (Hall : filter (maturesAfter (year r - 1))
                          (activeCdTranches (plan_start plan))
                   = filter (fun t => negb (isHYSA t)) ts).
    { assert (Hts : plan_initialTranches plan = ts) by (now rewrite Hplan).
      rewrite Hplan. cbn [makePlan plan_start activeCdTranches].
      rewrite <- Hts in Hm |- *.
      assert (Hin : forall t, In t (plan_initialTranches plan) ->
                isHYSA t = false -> maturesAfter (year r - 1) t = true).
      { intros t Ht Hcd.
        assert (Hdate : exists d, maturityDate t = Some d).
        { refine (proj1 (Forall_forall _ _)
                    (mapTranches_Forall pow
                       (fun t => isHYSA t = false ->
                                 exists d, maturityDate t = Some d)
                       rates parsedStart rows 0 _ _ Hm) t Ht Hcd).
          intros row idx t' _ Ht'.
          exact (initTranche_cd_matures pow rates parsedStart idx row t' Ht'). }
        destruct Hdate as (d & Hdate).
        pose proof (R4 t d Ht Hdate) as Hrange.
        unfold maturesAfter. rewrite Hdate. apply Z.ltb_lt. lia. }
      clear - Hin. induction (plan_initialTranches plan) as [|t l IH];
        [reflexivity|].
      cbn [filter]. destruct (isHYSA t) eqn:Eh; cbn [negb].
      - apply IH. intros t' Ht'. apply Hin. now right.
      - cbn [filter]. rewrite (Hin t (or_introl eq_refl) Eh).
        f_equal. apply IH. intros t' Ht'. apply Hin. now right. }
    unfold netWorthAt. rewrite Hall.
    rewrite Hplan. cbn [makePlan plan_start cashBalance cumulativeShortfall
                        currentHysaBalance].
    rewrite (sumBy_partition isHYSA amount ts). ring. }
  rewrite Hstart. reflexivity.
Qed.

End NetWorthFacts.


Lemma first_record_starts_from_allocated_amounts_witness :
  exists r plan,
    nth_error (projectionYears (resultOf (ladderInputs None))) 0 = Some r
    /\ prepare powWhole (ladderInputs None) 0 = inr plan
    /\ totalPortfolioValue r - yearEndShortfallAmount r
       == sumBy (fun row => numberOr0 (row_amount row))
            [ cdRow "HYSA" 5000 "cash"; cdRow "12m" 1000 "hysa";
              cdRow "24m" 2000 "newCD" ]
          + yearlyInterest r - taxesDue r - withdrawalAmount r
          - maturingAtOnce (year r)
              (newlyReinvestedTranches
                 (maturityPass powWhole (plan_env plan) (plan_start plan)
                               (year r))).
Proof.
  eexists.
  assert (H0 : nth_error (projectionYears (resultOf (ladderInputs None))) 0
               = Some _) by (vm_compute; reflexivity).
  destruct (first_record_starts_from_allocated_amounts powWhole
              (ladderInputs None) 0 _ (resultOf (ladderInputs None)) _
              [ cdRow "HYSA" 5000 "cash"; cdRow "12m" 1000 "hysa";
                cdRow "24m" 2000 "newCD" ]
              (calculateProjections_plan powWhole (ladderInputs None) 0
                 (examplePlan (ladderInputs None)) eq_refl) H0 eq_refl)
    as (plan & Hp & H).
  exists plan. split; [exact H0|]. split; [exact Hp | exact H].
Defined.

(* ------------------------------------------------------------------ *)
(** ** Baseline against the aggressive rate fall, year by year *)

(** Under the aggressive fall the rate of a term whose base APY is not
    below the floor is not negative and not above the base rate. *)
Lemma significant_rate_lags (rates : RateTable) (startYear y : Z) (termKey : string) :
  (forall a, baseApyOf rates termKey = Some a -> 1 # 10 <= a) ->
  0 <= getRateForYear termKey y (Some "ratesFallSignificantly") rates startYear
  /\ getRateForYear termKey y (Some "ratesFallSignificantly") rates startYear
     <= getRateForYear termKey y (Some "ratesStayHigh") rates startYear.
Proof.
  intros Hfloor. rewrite getRateForYear_stay_high.
  destruct (baseApyOf rates termKey) as [a|] eqn:Hb.
  2:{ unfold getRateForYear. rewrite Hb. split; apply Qle_refl. }
  specialize (Hfloor a eq_refl).
  rewrite (getRateForYear_rule "ratesFallSignificantly"
             {| label := "Rates Fall Significantly";
                description := "A more aggressive drop in rates after Year 1 and Year 3.";
                rule := Some ratesFallSignificantly |}
             ratesFallSignificantly termKey y rates startYear a
             eq_refl eq_refl Hb).
  pose proof (scenarioRate_at_most_base ratesFallSignificantly termKey a startYear
                (table_adjustments_nonpositive _ _ (or_intror eq_refl)) y) as Hmax.
  pose proof (scenarioRate_floor ratesFallSignificantly termKey a y startYear) as Hmin.
  change (floor ratesFallSignificantly) with (1 # 10) in Hmax, Hmin.
  revert Hmax. elim_minmax. lra.
Qed.

Lemma trancheBehind_interest (rates : RateTable) (a c : Tranche) :
  trancheBehind rates a c -> interestEarned c <= interestEarned a.
Proof. intros [_ _ _ _ Hv Hb _ _]. lra. Qed.

Lemma trancheBehind_maturesIn (rates : RateTable) (a c : Tranche) (y : Z) :
  trancheBehind rates a c -> maturesIn y c = maturesIn y a.
Proof. intros [Hm _ _ _ _ _ _ _]. unfold maturesIn. now rewrite Hm. Qed.

Lemma trancheBehind_maturesAfter (rates : RateTable) (a c : Tranche) (y : Z) :
  trancheBehind rates a c -> maturesAfter y c = maturesAfter y a.
Proof. intros [Hm _ _ _ _ _ _ _]. unfold maturesAfter. now rewrite Hm. Qed.

(** Tranches that are behind pairwise have the same ongoing principal. *)
Lemma ongoing_principal_behind (rates : RateTable) (y : Z) (la lc : list Tranche) :
  Forall2 (trancheBehind rates) la lc ->
  sumBy amount (filter (maturesAfter y) la)
  == sumBy amount (filter (maturesAfter y) lc).
Proof.
  induction 1 as [|a c la lc Hac _ IH]; [reflexivity|].
  cbn [filter]. rewrite (trancheBehind_maturesAfter rates a c y Hac).
  destruct (maturesAfter y a); [|exact IH].
  rewrite !sumBy_cons, IH, (tb_amount _ _ _ Hac). reflexivity.
Qed.


(** Under the aggressive fall every adjustment is a cut of at least 1.5
    points. *)
Lemma significant_adjustment_negative (termKey : string) :
  adjustmentFor ratesFallSignificantly termKey <= - (3 # 2).
Proof.
  unfold adjustmentFor; cbn;
    repeat match goal with
           | |- context [String.eqb ?a ?b] => destruct (String.eqb a b)
           end; cbn; discriminate.
Qed.

(** From the start year on the aggressive fall is strictly below a base
    rate that exceeds the floor, for every term. *)
Lemma significant_rate_strictly_lags (rates : RateTable) (startYear y : Z)
    (termKey : string) (baseApy : Q) :
  baseApyOf rates termKey = Some baseApy ->
  1 # 10 < baseApy ->
  (startYear <= y)%Z ->
  getRateForYear termKey y (Some "ratesFallSignificantly") rates startYear
  < getRateForYear termKey y (Some "ratesStayHigh") rates startYear.
Proof.
  intros Hb Hfloor Hy. rewrite getRateForYear_stay_high, Hb.
  rewrite (getRateForYear_rule "ratesFallSignificantly"
             {| label := "Rates Fall Significantly";
                description := "A more aggressive drop in rates after Year 1 and Year 3.";
                rule := Some ratesFallSignificantly |}
             ratesFallSignificantly termKey y rates startYear baseApy
             eq_refl eq_refl Hb).
  rewrite scenarioRate_adjustmentFor.
  pose proof (significant_adjustment_negative termKey) as Hadj.
  set (adj := adjustmentFor ratesFallSignificantly termKey) in *.
  cbn [targetYearFullEffect targetYearStartEffect floor ratesFallSignificantly].
  change (2 - 1)%Z with 1%Z. change (1 - 1)%Z with 0%Z.
  change (0 <? 1 - 0)%Z with true. rewrite andb_true_r.
  destruct (1 <=? y - startYear)%Z eqn:H1.
  { elim_minmax. lra. }
  destruct (0 <=? y - startYear)%Z eqn:H0.
  2:{ apply Z.leb_gt in H0. lia. }
  apply Z.leb_gt in H1.
  replace (y - startYear - 0 + 1)%Z with 1%Z by lia.
  change (inject_Z 1 / inject_Z (1 - 0 + 1)) with (1 # 2).
  elim_minmax. lra.
Qed.

Lemma combine_app_same_length {A B : Type} (l1 x1 : list A) (l2 x2 : list B) :
  List.length l1 = List.length l2 ->
  combine (l1 ++ x1) (l2 ++ x2) = (combine l1 l2 ++ combine x1 x2)%list.
Proof.
  revert l2. induction l1 as [|a l1 IH]; intros [|b l2] H; try discriminate.
  - reflexivity.
  - cbn. f_equal. apply IH. now inversion H.
Qed.

Lemma in_combine_same {A : Type} (l : list A) (x : A) :
  In x l -> In (x, x) (combine l l).
Proof.
  induction l as [|a l IH]; [intros []|].
  intros [-> | H]; [now left | right; now apply IH].
Qed.

Lemma filter_behind (rates : RateTable) (y : Z) (la lc : list Tranche) :
  Forall2 (trancheBehind rates) la lc ->
  Forall2 (trancheBehind rates)
          (filter (fun cd => negb (maturesIn y cd)) la)
          (filter (fun cd => negb (maturesIn y cd)) lc).
Proof.
  induction 1 as [|a c la lc Hac _ IH]; cbn [filter]; [constructor|].
  rewrite (trancheBehind_maturesIn rates a c y Hac).
  destruct (maturesIn y a); cbn [negb]; [exact IH | now constructor].
Qed.

Lemma filter_pairs (rates : RateTable) (y : Z) (la lc : list Tranche)
    (a c : Tranche) :
  Forall2 (trancheBehind rates) la lc ->
  In (a, c) (combine la lc) ->
  maturesIn y a = false ->
  In (a, c) (combine (filter (fun cd => negb (maturesIn y cd)) la)
                     (filter (fun cd => negb (maturesIn y cd)) lc)).
Proof.
  induction 1 as [|a0 c0 la lc H0 _ IH]; cbn [combine filter]; [intros []|].
  rewrite (trancheBehind_maturesIn rates a0 c0 y H0).
  intros [Heq | Hin] Hm.
  - injection Heq as Ha Hc. subst a0 c0. rewrite Hm. cbn. now left.
  - destruct (maturesIn y a0); cbn [negb combine];
      [|right]; now apply IH.
Qed.

(** Among pairwise-behind tranches, a maturing pair with less interest in
    the rate-fall run makes the maturing interest strictly less. *)
Lemma maturingInterest_behind (rates : RateTable) (y : Z) (la lc : list Tranche) :
  Forall2 (trancheBehind rates) la lc ->
  maturingInterest y lc <= maturingInterest y la
  /\ forall a c, In (a, c) (combine la lc) -> maturesIn y a = true ->
       interestEarned c < interestEarned a ->
       maturingInterest y lc < maturingInterest y la.
Proof.
  unfold maturingInterest.
  induction 1 as [|a0 c0 la lc H0 _ [IH1 IH2]].
  - split; [apply Qle_refl | intros a c []].
  - rewrite !sumBy_cons, (trancheBehind_maturesIn rates a0 c0 y H0).
    pose proof (trancheBehind_interest rates a0 c0 H0) as Hi.
    split.
    + destruct (maturesIn y a0); lra.
    + intros a c Hin Hm Hlt.
      rewrite !sumBy_cons, (trancheBehind_maturesIn rates a0 c0 y H0).
      destruct Hin as [Heq | Hin].
      * injection Heq as Ha Hc. subst a0 c0. rewrite Hm. lra.
      * specialize (IH2 a c Hin Hm Hlt). destruct (maturesIn y a0); lra.
Qed.
Section ScenarioStep.

Variable pow : Q -> Q -> Q.
Hypothesis pow_nonneg : forall b e, 0 <= b -> 0 <= pow b e.
Hypothesis pow_monotone :
  forall b1 b2 e, 0 <= b1 -> b1 <= b2 -> 0 <= e -> pow b1 e <= pow b2 e.

Variable env : Env.

Local Abbreviation envA := (envWithScenario (Some "ratesStayHigh") env).
Local Abbreviation envC := (envWithScenario (Some "ratesFallSignificantly") env).
Local Abbreviation rates := (env_interestRates env).

(** *** The CD loop of one year, in both runs *)

Lemma keepCd_behind (a c : Tranche) (aA aC : MaturityAcc) :
  trancheBehind rates a c -> AccBehind rates aA aC ->
  AccBehind rates (keepCd a aA) (keepCd c aC).
Proof.
  intros Hac [H1 H2 H3 H4 H5 H6]. constructor; cbn; try assumption.
  apply Forall2_app; [exact H1 | constructor; [exact Hac | constructor]].
Qed.

Lemma toCash_behind (a c : Tranche) (aA aC : MaturityAcc) :
  trancheBehind rates a c -> AccBehind rates aA aC ->
  AccBehind rates (toCash a (noteMaturing a aA)) (toCash c (noteMaturing c aC)).
Proof.
  intros Hac [H1 H2 H3 H4 H5 H6].
  pose proof (trancheBehind_interest rates a c Hac) as Hi.
  destruct Hac as [_ _ _ _ Hv Hb _ _].
  constructor; cbn; try assumption; lra.
Qed.

Lemma toHysa_behind (cd : Tranche) (aA aC : MaturityAcc) :
  trancheBehind rates cd cd -> AccBehind rates aA aC ->
  AccBehind rates (toHysa cd (noteMaturing cd aA)) (toHysa cd (noteMaturing cd aC)).
Proof.
  intros [_ _ _ Hn _ _ _ _] [H1 H2 H3 H4 H5 H6].
  constructor; cbn; try assumption; lra.
Qed.

Lemma reinvestNewCd_behind (y : Z) (cd : Tranche) (aA aC : MaturityAcc) :
  trancheBehind rates cd cd -> electsNewCd cd = true ->
  AccBehind rates aA aC ->
  AccBehind rates (reinvestNewCd pow envA y cd (noteMaturing cd aA))
                  (reinvestNewCd pow envC y cd (noteMaturing cd aC)).
Proof.
  intros Hcd Hel Hacc. unfold reinvestNewCd.
  cbn [envWithScenario env_interestRates env_rateScenario env_startYear].
  destruct (reinvestDuration rates (nullish (reinvestmentTerm cd) "")) as [months|] eqn:Hd;
    [|now apply toCash_behind].
  destruct (maturityDate cd) as [started|] eqn:Hm; [|now apply toCash_behind].
  destruct (significant_rate_lags rates (env_startYear env) y
              (nullish (reinvestmentTerm cd) "") (tb_reinvest _ _ _ Hcd Hel))
    as [Hr0 Hr].
  set (rA := getRateForYear (nullish (reinvestmentTerm cd) "") y
               (Some "ratesStayHigh") rates (env_startYear env)) in *.
  set (rC := getRateForYear (nullish (reinvestmentTerm cd) "") y
               (Some "ratesFallSignificantly") rates (env_startYear env)) in *.
  assert (Hmonths : 0 <= months / 12).
  { unfold reinvestDuration in Hd.
    destruct (lookup (nullish (reinvestmentTerm cd) "") rates) as [info|];
      [|discriminate].
    destruct (apy info); [|discriminate].
    destruct (duration info) as [d|]; [|discriminate].
    destruct (Qle_bool d 0) eqn:Hle; [discriminate|].
    inversion Hd; subst d.
    assert (0 < months).
    { apply Qnot_le_lt. intros H. apply Qle_bool_iff in H. congruence. }
    const_div. lra. }
  assert (HpC : 0 <= pow (1 + rC / 100) (months / 12))
    by (apply pow_nonneg; const_div; lra).
  assert (Hp : pow (1 + rC / 100) (months / 12) <= pow (1 + rA / 100) (months / 12))
    by (apply pow_monotone; [const_div; lra | const_div; lra | exact Hmonths]).
  pose proof (tb_nonneg _ _ _ Hcd) as Hv.
  destruct Hacc as [H1 H2 H3 H4 H5 H6].
  constructor; cbn; try assumption; try lra.
  apply Forall2_app; [exact H2|]. constructor; [|constructor].
  constructor; cbn; try reflexivity.
  - apply Qmult_le_0_compat; assumption.
  - rewrite !(Qmult_comm (valueAtMaturity cd)).
    apply Qmult_le_compat_r; assumption.
  - ring.
  - now right.
  - discriminate.
Qed.

Lemma maturityStep_behind (y : Z) (carriedA carriedC : Q) (a c : Tranche)
    (aA aC : MaturityAcc) :
  Qgtb carriedA (1 # 100) = Qgtb carriedC (1 # 100) ->
  trancheBehind rates a c -> AccBehind rates aA aC ->
  AccBehind rates (maturityStep pow envA y carriedA aA a)
                  (maturityStep pow envC y carriedC aC c).
Proof.
  intros Hblocked Hac Hacc. unfold maturityStep.
  rewrite (trancheBehind_maturesIn rates a c y Hac).
  destruct (maturesIn y a); [|now apply keepCd_behind].
  rewrite Hblocked.
  destruct (Qgtb carriedC (1 # 100)); [now apply toCash_behind|].
  rewrite <- (tb_election _ _ _ Hac).
  cbn [envWithScenario env_hysaTranches].
  destruct (tb_same _ _ _ Hac) as [<- | Hcash].
  - destruct (String.eqb (nullish (reinvestmentOption a) "") "hysa").
    { destruct (0 <? List.length (env_hysaTranches env))%nat;
        [now apply toHysa_behind | now apply toCash_behind]. }
    destruct (String.eqb (nullish (reinvestmentOption a) "") "newCD") eqn:Hel;
      [now apply reinvestNewCd_behind | now apply toCash_behind].
  - rewrite Hcash. cbn. now apply toCash_behind.
Qed.

Lemma maturityPass_behind (sa sc : LoopState) (y : Z) :
  Behind env sa sc ->
  AccBehind rates (maturityPass pow envA sa y) (maturityPass pow envC sc y).
Proof.
  intros [Hact _ _ Hblocked _ _ _]. unfold maturityPass.
  assert (H0 : AccBehind rates
                 (startMaturityAcc (totalInterestEarnedCumulative sa)
                                   (reinvestmentCounter sa))
                 (startMaturityAcc (totalInterestEarnedCumulative sc)
                                   (reinvestmentCounter sc))).
  { constructor; cbn; try constructor; try reflexivity; discriminate. }
  revert H0.
  generalize (startMaturityAcc (totalInterestEarnedCumulative sa)
                               (reinvestmentCounter sa))
             (startMaturityAcc (totalInterestEarnedCumulative sc)
                               (reinvestmentCounter sc)).
  induction Hact as [|a c la lc Hac _ IH]; intros aA aC H0; cbn [fold_left].
  - exact H0.
  - apply IH. now apply maturityStep_behind.
Qed.


(** *** One simulated year, in both runs *)

Hypothesis hysa_above_floor :
  forall a, baseApyOf rates "HYSA" = Some a -> 1 # 10 <= a.
Hypothesis start_month_range : (0 <= env_startMonth env < 12)%Z.
Hypothesis tax_at_most_all : env_numTaxRate env <= 1.

Lemma interestFactor_nonneg (y : Z) :
  0 <= (if (y =? env_startYear env)%Z
        then inject_Z (12 - env_startMonth env) / 12 else 1).
Proof.
  destruct (y =? env_startYear env)%Z; [|discriminate].
  apply Qle_shift_div_l; [reflexivity|]. rewrite Qmult_0_l.
  change 0 with (inject_Z 0). rewrite <- Zle_Qle. lia.
Qed.

(** Less balance at a lower rate earns less. *)
Lemma hysaInterest_lags (sa sc : LoopState) (y : Z) :
  0 <= currentHysaBalance sc ->
  currentHysaBalance sc <= currentHysaBalance sa ->
  0 <= hysaInterestThisYear envC sc y
  /\ hysaInterestThisYear envC sc y <= hysaInterestThisYear envA sa y.
Proof.
  intros H0 Hle.
  destruct (hysa_rate_lags rates (env_startYear env) y hysa_above_floor)
    as [Hr0 Hr].
  pose proof (interestFactor_nonneg y) as Hf.
  unfold hysaInterestThisYear, hysaEarns, envWithScenario.
  cbn [env_interestRates env_rateScenario env_startYear env_startMonth
       env_hysaTranches].
  set (rA := getRateForYear "HYSA" y (Some "ratesStayHigh")
               rates (env_startYear env)) in *.
  set (rC := getRateForYear "HYSA" y (Some "ratesFallSignificantly")
               rates (env_startYear env)) in *.
  set (f := if (y =? env_startYear env)%Z
            then inject_Z (12 - env_startMonth env) / 12 else 1) in *.
  assert (HA : 0 <= currentHysaBalance sa * (rA / 100) * f).
  { apply Qmult_le_0_compat; [apply Qmult_le_0_compat|]; try assumption.
    - lra.
    - const_div. lra. }
  assert (HC : 0 <= currentHysaBalance sc * (rC / 100) * f
               /\ currentHysaBalance sc * (rC / 100) * f
                  <= currentHysaBalance sa * (rA / 100) * f).
  { split.
    - apply Qmult_le_0_compat; [apply Qmult_le_0_compat|]; try assumption.
      const_div. lra.
    - apply Qmult_le_compat_r; [|assumption].
      apply Qmult_le_mono; try assumption; const_div; lra. }
  destruct (0 <? List.length (env_hysaTranches env))%nat; cbn [andb].
  2:{ split; apply Qle_refl. }
  destruct (Qgtb (currentHysaBalance sc) 0) eqn:Ec;
    destruct (Qgtb (currentHysaBalance sa) 0) eqn:Ea.
  - exact HC.
  - apply Qgtb_true in Ec. apply Qgtb_false in Ea. lra.
  - split; [apply Qle_refl | exact HA].
  - split; apply Qle_refl.
Qed.

(** The interest total after a year: the total before it, the interest of
    the CDs that mature and the liquid interest. *)
Lemma totalInterest_year (e : Env) (st : LoopState) (y : Z) :
  totalInterestEarnedCumulative (simulateYear pow e st y)
  == totalInterestEarnedCumulative st
     + interestFromMaturingCDsThisYear (maturityPass pow e st y)
     + hysaInterestThisYear e st y.
Proof.
  rewrite totalInterest_step.
  destruct (maturityPass_inv pow e st y) as [_ _ P3 P4 _ _ _ _].
  revert P3 P4. acc_simpl. intros P3 P4. lra.
Qed.

Lemma interestLead_nonneg (sa sc : LoopState) (y : Z) :
  Behind env sa sc -> 0 <= interestLead pow env sa sc y.
Proof.
  intros HB. pose proof (maturityPass_behind sa sc y HB) as [_ _ _ _ M5 _].
  destruct HB as [_ Hh0 Hh _ _ _ _].
  destruct (hysaInterest_lags sa sc y Hh0 Hh) as [_ Hi].
  unfold interestLead. lra.
Qed.

Lemma simulateYear_lead (sa sc : LoopState) (y : Z) :
  totalInterestEarnedCumulative (simulateYear pow envA sa y)
  - totalInterestEarnedCumulative (simulateYear pow envC sc y)
  == totalInterestEarnedCumulative sa - totalInterestEarnedCumulative sc
     + interestLead pow env sa sc y.
Proof.
  rewrite !totalInterest_year. unfold interestLead. ring.
Qed.

(** One simulated year that ends with a shortfall above the tolerance in
    both runs or in neither keeps the rate-fall run behind the baseline
    run. *)
Lemma simulateYear_behind (sa sc : LoopState) (y : Z) :
  Behind env sa sc ->
  Qgtb (cumulativeShortfall (simulateYear pow envA sa y)) (1 # 100)
  = Qgtb (cumulativeShortfall (simulateYear pow envC sc y)) (1 # 100) ->
  Behind env (simulateYear pow envA sa y) (simulateYear pow envC sc y).
Proof.
  intros HB Hblocked'.
  pose proof (interestLead_nonneg sa sc y HB) as Hlead.
  pose proof (simulateYear_lead sa sc y) as Hgap.
  pose proof (maturityPass_behind sa sc y HB) as [M1 M2 M3 M4 M5 M6].
  destruct HB as [Hact Hh0 Hh Hblocked Hint Hnet Hlast].
  destruct (hysaInterest_lags sa sc y Hh0 Hh) as [Hi0 Hi].
  set (balA := hysaBalanceAfterReinvestment pow envA sa y).
  set (balC := hysaBalanceAfterReinvestment pow envC sc y).
  set (netA := netCashFlowBeforeHysaTransfer pow envA sa y).
  set (netC := netCashFlowBeforeHysaTransfer pow envC sc y).
  assert (HbalC : 0 <= balC) by (unfold balC, hysaBalanceAfterReinvestment; lra).
  assert (Hbal : balC <= balA)
    by (unfold balA, balC, hysaBalanceAfterReinvestment; lra).
  assert (HbalA : 0 <= balA) by lra.
  assert (Hsum : netA + balA - (netC + balC)
                 == (totalInterestEarnedCumulative sa
                     - totalInterestEarnedCumulative sc + interestLead pow env sa sc y)
                    * (1 - env_numTaxRate env)).
  { unfold netA, netC, balA, balC, netCashFlowBeforeHysaTransfer,
      hysaBalanceAfterReinvestment, cashAvailableThisYear, startingCashForYear,
      taxesDueThisYear, totalYearlyInterest, interestLead.
    unfold netPosition in Hnet.
    change (totalWithdrawalsThisYear envC y) with (totalWithdrawalsThisYear envA y).
    change (env_numTaxRate envA) with (env_numTaxRate env).
    change (env_numTaxRate envC) with (env_numTaxRate env).
    lra. }
  assert (Hgap0 : 0 <= (totalInterestEarnedCumulative sa
                        - totalInterestEarnedCumulative sc + interestLead pow env sa sc y)
                       * (1 - env_numTaxRate env))
    by (apply Qmult_le_0_compat; lra).
  destruct (coverShortfall_spec netA balA HbalA) as (SA1 & SA2 & SA3 & SA4).
  destruct (coverShortfall_spec netC balC HbalC) as (SC1 & SC2 & SC3 & SC4).
  assert (Hongoing :
    sumBy amount (filter (maturesAfter y)
                    (remainingCdTranches (maturityPass pow envA sa y)
                     ++ newlyReinvestedTranches (maturityPass pow envA sa y)))
    == sumBy amount (filter (maturesAfter y)
                    (remainingCdTranches (maturityPass pow envC sc y)
                     ++ newlyReinvestedTranches (maturityPass pow envC sc y)))).
  { apply (ongoing_principal_behind rates). now apply Forall2_app. }
  constructor.
  - unfold simulateYear. cbn [activeCdTranches]. now apply Forall2_app.
  - change (0 <= hysaAfter (coverShortfall netC balC)).
    elim_minmax. lra.
  - change (hysaAfter (coverShortfall netC balC)
            <= hysaAfter (coverShortfall netA balA)).
    elim_minmax. lra.
  - exact Hblocked'.
  - lra.
  - rewrite Hgap.
    change (Qmax 0 (netCashFlowAfter (coverShortfall netA balA))
            - shortfallAfter (coverShortfall netA balA)
            + hysaAfter (coverShortfall netA balA)
            - (Qmax 0 (netCashFlowAfter (coverShortfall netC balC))
               - shortfallAfter (coverShortfall netC balC)
               + hysaAfter (coverShortfall netC balC))
            == (totalInterestEarnedCumulative sa
                - totalInterestEarnedCumulative sc + interestLead pow env sa sc y)
               * (1 - env_numTaxRate env)).
    lra.
  - unfold simulateYear at 1 2. cbn [projection]. rewrite !lastRecord_snoc.
    cbn [totalPortfolioValue endOfYearCash endOfYearHysaBalance].
    fold balA balC netA netC.
    change (netPosition (simulateYear pow envA sa y))
      with (Qmax 0 (netCashFlowAfter (coverShortfall netA balA))
            - shortfallAfter (coverShortfall netA balA)
            + hysaAfter (coverShortfall netA balA)).
    change (netPosition (simulateYear pow envC sc y))
      with (Qmax 0 (netCashFlowAfter (coverShortfall netC balC))
            - shortfallAfter (coverShortfall netC balC)
            + hysaAfter (coverShortfall netC balC)).
    split; elim_minmax; lra.
Qed.


(** *** The year loop, in both runs *)

Lemma shortfallFlags_length (e : Env) (ys : list Z) (st : LoopState) :
  List.length (shortfallFlags pow e st ys) = List.length ys.
Proof.
  revert st. induction ys as [|y ys IH]; intros st; cbn [shortfallFlags List.length].
  - reflexivity.
  - now rewrite IH.
Qed.

Lemma shortfallFlags_app (e : Env) (l1 l2 : list Z) (st : LoopState) :
  shortfallFlags pow e st (l1 ++ l2)
  = (shortfallFlags pow e st l1
     ++ shortfallFlags pow e (yearLoop pow e st l1) l2)%list.
Proof.
  revert st. induction l1 as [|y l1 IH]; intros st; cbn [shortfallFlags app].
  - reflexivity.
  - rewrite IH, yearLoop_cons. reflexivity.
Qed.

Lemma app_eq_same_length {A : Type} (l1 l1' l2 l2' : list A) :
  List.length l1 = List.length l1' ->
  (l1 ++ l2 = l1' ++ l2')%list -> l1 = l1' /\ l2 = l2'.
Proof.
  revert l1'. induction l1 as [|x l1 IH]; intros [|x' l1'] Hlen H;
    try discriminate.
  - now split.
  - cbn in H. injection H as Hx H. injection Hlen as Hlen.
    destruct (IH l1' Hlen H) as [-> ->]. subst x'. now split.
Qed.

(** The flags of the two runs over a range of years agree part by part. *)
Lemma shortfallFlags_split (l1 l2 : list Z) (sa sc : LoopState) :
  shortfallFlags pow envA sa (l1 ++ l2) = shortfallFlags pow envC sc (l1 ++ l2) ->
  shortfallFlags pow envA sa l1 = shortfallFlags pow envC sc l1
  /\ shortfallFlags pow envA (yearLoop pow envA sa l1) l2
     = shortfallFlags pow envC (yearLoop pow envC sc l1) l2.
Proof.
  rewrite !shortfallFlags_app. apply app_eq_same_length.
  now rewrite !shortfallFlags_length.
Qed.

Lemma shortfallFlags_cons (y : Z) (l : list Z) (sa sc : LoopState) :
  shortfallFlags pow envA sa (y :: l) = shortfallFlags pow envC sc (y :: l) ->
  Qgtb (cumulativeShortfall (simulateYear pow envA sa y)) (1 # 100)
  = Qgtb (cumulativeShortfall (simulateYear pow envC sc y)) (1 # 100)
  /\ shortfallFlags pow envA (simulateYear pow envA sa y) l
     = shortfallFlags pow envC (simulateYear pow envC sc y) l.
Proof. cbn [shortfallFlags]. intros H. injection H as H1 H2. now split. Qed.

(** Over years that end with a shortfall above the tolerance in both runs
    or in neither, the rate-fall run stays behind, and the baseline's lead
    in interest does not shrink. *)
Lemma yearLoop_behind (ys : list Z) (sa sc : LoopState) :
  Behind env sa sc ->
  shortfallFlags pow envA sa ys = shortfallFlags pow envC sc ys ->
  Behind env (yearLoop pow envA sa ys) (yearLoop pow envC sc ys)
  /\ totalInterestEarnedCumulative sa - totalInterestEarnedCumulative sc
     <= totalInterestEarnedCumulative (yearLoop pow envA sa ys)
        - totalInterestEarnedCumulative (yearLoop pow envC sc ys).
Proof.
  revert sa sc. induction ys as [|y ys IH]; intros sa sc HB Hf.
  - split; [exact HB | apply Qle_refl].
  - rewrite !yearLoop_cons.
    destruct (shortfallFlags_cons y ys sa sc Hf) as [Hf1 Hf2].
    pose proof (simulateYear_behind sa sc y HB Hf1) as HB1.
    destruct (IH _ _ HB1 Hf2) as [HB2 Hgap].
    split; [exact HB2|].
    pose proof (simulateYear_lead sa sc y) as Hlead.
    pose proof (interestLead_nonneg sa sc y HB) as H0.
    lra.
Qed.

(** One year in which the baseline run earns more interest puts its
    interest total strictly ahead, for good. *)
Lemma yearLoop_strict (l1 : list Z) (y : Z) (l2 : list Z) (sa sc : LoopState) :
  Behind env sa sc ->
  shortfallFlags pow envA sa (l1 ++ y :: l2)
  = shortfallFlags pow envC sc (l1 ++ y :: l2) ->
  0 < interestLead pow env (yearLoop pow envA sa l1) (yearLoop pow envC sc l1) y ->
  totalInterestEarnedCumulative (yearLoop pow envC sc (l1 ++ y :: l2))
  < totalInterestEarnedCumulative (yearLoop pow envA sa (l1 ++ y :: l2)).
Proof.
  intros HB Hf Hlead.
  rewrite !yearLoop_app, !yearLoop_cons.
  destruct (shortfallFlags_split l1 (y :: l2) sa sc Hf) as [Hf1 Hf2].
  destruct (shortfallFlags_cons y l2 _ _ Hf2) as [Hfy Hf3].
  destruct (yearLoop_behind l1 sa sc HB Hf1) as [HB1 Hgap1].
  pose proof (simulateYear_behind _ _ y HB1 Hfy) as HB2.
  destruct (yearLoop_behind l2 _ _ HB2 Hf3) as [_ Hgap2].
  pose proof (simulateYear_lead (yearLoop pow envA sa l1)
                (yearLoop pow envC sc l1) y) as Hstep.
  pose proof (bh_interest _ _ _ HB) as H0.
  lra.
Qed.

(** From the start year on, liquid interest in the rate-fall run means
    more liquid interest in the baseline run. *)
Lemma liquid_interest_lead (sa sc : LoopState) (y : Z) (baseApy : Q) :
  Behind env sa sc ->
  baseApyOf rates "HYSA" = Some baseApy ->
  1 # 10 < baseApy ->
  (env_startYear env <= y)%Z ->
  0 < hysaInterestThisYear envC sc y ->
  0 < interestLead pow env sa sc y.
Proof.
  intros HB Hb Hfloor Hy Hpos.
  pose proof (maturityPass_behind sa sc y HB) as [_ _ _ _ M5 _].
  destruct HB as [_ Hh0 Hh _ _ _ _].
  assert (Hlt : hysaInterestThisYear envC sc y < hysaInterestThisYear envA sa y).
  { pose proof (hysa_rate_strictly_lags rates (env_startYear env) y baseApy
                  Hb Hfloor Hy) as Hr.
    destruct (hysa_rate_lags rates (env_startYear env) y hysa_above_floor)
      as [Hr0 _].
    pose proof (interestFactor_nonneg y) as Hf.
    revert Hpos.
    unfold hysaInterestThisYear, hysaEarns, envWithScenario.
    cbn [env_interestRates env_rateScenario env_startYear env_startMonth
         env_hysaTranches].
    set (rA := getRateForYear "HYSA" y (Some "ratesStayHigh")
                 rates (env_startYear env)) in *.
    set (rC := getRateForYear "HYSA" y (Some "ratesFallSignificantly")
                 rates (env_startYear env)) in *.
    set (f := if (y =? env_startYear env)%Z
              then inject_Z (12 - env_startMonth env) / 12 else 1) in *.
    destruct (0 <? List.length (env_hysaTranches env))%nat; cbn [andb];
      [|intros H; now apply Qlt_irrefl in H].
    destruct (Qgtb (currentHysaBalance sc) 0) eqn:Ec;
      [|intros H; now apply Qlt_irrefl in H].
    apply Qgtb_true in Ec.
    assert (Ea : Qgtb (currentHysaBalance sa) 0 = true)
      by (apply Qgtb_true; lra).
    rewrite Ea. intros Hpos.
    assert (Hfpos : 0 < f).
    { destruct (Qlt_le_dec 0 f) as [H|H]; [exact H|].
      assert (Hf0 : f == 0) by lra. rewrite Hf0 in Hpos.
      rewrite Qmult_0_r in Hpos. now apply Qlt_irrefl in Hpos. }
    apply Qmult_lt_compat_r; [exact Hfpos|].
    apply Qle_lt_trans with (currentHysaBalance sa * (rC / 100)).
    - apply Qmult_le_compat_r; [exact Hh | const_div; lra].
    - rewrite !(Qmult_comm (currentHysaBalance sa)).
      apply Qmult_lt_compat_r; [lra | const_div; lra]. }
  unfold interestLead. lra.
Qed.

(** *** A reinvested CD, in both runs *)

Lemma maturityStep_extends (e : Env) (y : Z) (carried : Q) (a : MaturityAcc)
    (cd : Tranche) :
  exists created,
    newlyReinvestedTranches (maturityStep pow e y carried a cd)
    = (newlyReinvestedTranches a ++ created)%list.
Proof.
  unfold maturityStep, reinvestNewCd.
  repeat match goal with
         | |- context [if ?b then _ else _] => destruct b
         | |- context [match ?x with Some _ => _ | None => _ end] => destruct x
         end; acc_simpl;
    solve [ exists []; symmetry; apply app_nil_r | eexists; reflexivity ].
Qed.

(** A maturing CD with a positive value that elects a new CD becomes, in
    a year at or after the start, a new CD that will pay less interest in
    the rate-fall run. *)
Lemma maturityStep_creates (y : Z) (carriedA carriedC : Q) (t : Tranche)
    (started : JsDate) (months baseApy : Q) (aA aC : MaturityAcc) :
  carriedA <= 1 # 100 -> carriedC <= 1 # 100 ->
  maturesIn y t = true ->
  electsNewCd t = true ->
  0 < valueAtMaturity t ->
  maturityDate t = Some started ->
  reinvestDuration rates (nullish (reinvestmentTerm t) "") = Some months ->
  baseApyOf rates (nullish (reinvestmentTerm t) "") = Some baseApy ->
  1 # 10 < baseApy ->
  (env_startYear env <= y)%Z ->
  (forall b1 b2, 0 <= b1 -> b1 < b2 ->
     pow b1 (months / 12) < pow b2 (months / 12)) ->
  exists a' c',
    newlyReinvestedTranches (maturityStep pow envA y carriedA aA t)
    = (newlyReinvestedTranches aA ++ [a'])%list
    /\ newlyReinvestedTranches (maturityStep pow envC y carriedC aC t)
       = (newlyReinvestedTranches aC ++ [c'])%list
    /\ maturityDate a' = Some (addMonths started months)
    /\ interestEarned c' < interestEarned a'.
Proof.
  intros HcA HcC Hm Hel Hv Hd Hdur Hb Hfloor Hy Hpow.
  unfold maturityStep. rewrite Hm.
  apply Qgtb_false in HcA, HcC. rewrite HcA, HcC.
  unfold electsNewCd in Hel. apply String.eqb_eq in Hel. rewrite Hel.
  cbn [String.eqb Ascii.eqb Bool.eqb andb].
  unfold reinvestNewCd.
  cbn [envWithScenario env_interestRates env_rateScenario env_startYear].
  rewrite Hdur, Hd.
  pose proof (significant_rate_strictly_lags rates (env_startYear env) y
                (nullish (reinvestmentTerm t) "") baseApy Hb Hfloor Hy) as Hr.
  destruct (significant_rate_lags rates (env_startYear env) y
              (nullish (reinvestmentTerm t) "")) as [Hr0 _].
  { intros b Hb'. rewrite Hb in Hb'. inversion Hb'; subst. lra. }
  set (rA := getRateForYear (nullish (reinvestmentTerm t) "") y
               (Some "ratesStayHigh") rates (env_startYear env)) in *.
  set (rC := getRateForYear (nullish (reinvestmentTerm t) "") y
               (Some "ratesFallSignificantly") rates (env_startYear env)) in *.
  assert (Hp : pow (1 + rC / 100) (months / 12) < pow (1 + rA / 100) (months / 12))
    by (apply Hpow; const_div; lra).
  eexists. eexists. acc_simpl.
  split; [reflexivity|]. split; [reflexivity|].
  cbn [maturityDate interestEarned]. split; [reflexivity|].
  assert (valueAtMaturity t * pow (1 + rC / 100) (months / 12)
          < valueAtMaturity t * pow (1 + rA / 100) (months / 12)).
  { rewrite !(Qmult_comm (valueAtMaturity t)).
    apply Qmult_lt_compat_r; assumption. }
  lra.
Qed.

Lemma maturityFold_keeps_new (y : Z) (carriedA carriedC : Q)
    (la lc : list Tranche) :
  Qgtb carriedA (1 # 100) = Qgtb carriedC (1 # 100) ->
  Forall2 (trancheBehind rates) la lc ->
  forall aA aC p,
    AccBehind rates aA aC ->
    In p (combine (newlyReinvestedTranches aA) (newlyReinvestedTranches aC)) ->
    In p (combine
            (newlyReinvestedTranches
               (fold_left (maturityStep pow envA y carriedA) la aA))
            (newlyReinvestedTranches
               (fold_left (maturityStep pow envC y carriedC) lc aC))).
Proof.
  intros Hblocked.
  induction 1 as [|a c la lc Hac _ IH]; intros aA aC p Hacc Hin; cbn [fold_left].
  - exact Hin.
  - apply IH; [now apply maturityStep_behind|].
    destruct (maturityStep_extends envA y carriedA aA a) as (xa & ->).
    destruct (maturityStep_extends envC y carriedC aC c) as (xc & ->).
    rewrite combine_app_same_length
      by (apply (Forall2_length (ab_new _ _ _ Hacc))).
    apply in_or_app. now left.
Qed.

Lemma maturityFold_creates (y : Z) (carriedA carriedC : Q) (t : Tranche)
    (started : JsDate) (months baseApy : Q) (la lc : list Tranche) :
  carriedA <= 1 # 100 -> carriedC <= 1 # 100 ->
  maturesIn y t = true ->
  electsNewCd t = true ->
  0 < valueAtMaturity t ->
  maturityDate t = Some started ->
  reinvestDuration rates (nullish (reinvestmentTerm t) "") = Some months ->
  baseApyOf rates (nullish (reinvestmentTerm t) "") = Some baseApy ->
  1 # 10 < baseApy ->
  (env_startYear env <= y)%Z ->
  (forall b1 b2, 0 <= b1 -> b1 < b2 ->
     pow b1 (months / 12) < pow b2 (months / 12)) ->
  Forall2 (trancheBehind rates) la lc ->
  In (t, t) (combine la lc) ->
  forall aA aC,
    AccBehind rates aA aC ->
    exists a' c',
      In (a', c')
         (combine
            (newlyReinvestedTranches
               (fold_left (maturityStep pow envA y carriedA) la aA))
            (newlyReinvestedTranches
               (fold_left (maturityStep pow envC y carriedC) lc aC)))
      /\ maturityDate a' = Some (addMonths started months)
      /\ interestEarned c' < interestEarned a'.
Proof.
  intros HcA HcC Hm Hel Hv Hd Hdur Hb Hfloor Hy Hpow.
  assert (Hblocked : Qgtb carriedA (1 # 100) = Qgtb carriedC (1 # 100)).
  { apply Qgtb_false in HcA, HcC. congruence. }
  induction 1 as [|a c la lc Hac Hall IH]; [intros []|].
  intros [Heq | Hin] aA aC Hacc; cbn [fold_left].
  - injection Heq as Ha Hc. subst a c.
    destruct (maturityStep_creates y carriedA carriedC t started months baseApy
                aA aC HcA HcC Hm Hel Hv Hd Hdur Hb Hfloor Hy Hpow)
      as (a' & c' & HA & HC & Hmat & Hlt).
    exists a', c'. split; [|split; assumption].
    apply (maturityFold_keeps_new y carriedA carriedC la lc Hblocked Hall);
      [now apply maturityStep_behind|].
    rewrite HA, HC.
    rewrite combine_app_same_length
      by (apply (Forall2_length (ab_new _ _ _ Hacc))).
    apply in_or_app. right. now left.
  - apply (IH Hin). now apply maturityStep_behind.
Qed.

(** A pair of active tranches that does not mature in a year is active
    after it. *)
Lemma pair_survives (sa sc : LoopState) (y : Z) (a c : Tranche) :
  Behind env sa sc ->
  In (a, c) (combine (activeCdTranches sa) (activeCdTranches sc)) ->
  maturesIn y a = false ->
  In (a, c) (combine (activeCdTranches (simulateYear pow envA sa y))
                     (activeCdTranches (simulateYear pow envC sc y))).
Proof.
  intros HB Hin Hm. rewrite !simulateYear_active.
  pose proof (bh_active _ _ _ HB) as Hact.
  rewrite combine_app_same_length
    by (apply (Forall2_length (filter_behind rates y _ _ Hact))).
  apply in_or_app. left. now apply (filter_pairs rates).
Qed.

(** The new CD of a reinvestment is active after the year, in both
    runs. *)
Lemma pair_created (sa sc : LoopState) (y : Z) (t : Tranche)
    (started : JsDate) (months baseApy : Q) :
  Behind env sa sc ->
  cumulativeShortfall sc <= 1 # 100 ->
  In (t, t) (combine (activeCdTranches sa) (activeCdTranches sc)) ->
  maturesIn y t = true ->
  electsNewCd t = true ->
  0 < valueAtMaturity t ->
  maturityDate t = Some started ->
  reinvestDuration rates (nullish (reinvestmentTerm t) "") = Some months ->
  baseApyOf rates (nullish (reinvestmentTerm t) "") = Some baseApy ->
  1 # 10 < baseApy ->
  (env_startYear env <= y)%Z ->
  (forall b1 b2, 0 <= b1 -> b1 < b2 ->
     pow b1 (months / 12) < pow b2 (months / 12)) ->
  exists a' c',
    In (a', c') (combine (activeCdTranches (simulateYear pow envA sa y))
                         (activeCdTranches (simulateYear pow envC sc y)))
    /\ maturityDate a' = Some (addMonths started months)
    /\ interestEarned c' < interestEarned a'.
Proof.
  intros HB HsC Hin Hm Hel Hv Hd Hdur Hb Hfloor Hy Hpow.
  pose proof (maturityPass_behind sa sc y HB) as [M1 _ _ _ _ _].
  destruct HB as [Hact _ _ Hblocked _ _ _].
  assert (HsA : cumulativeShortfall sa <= 1 # 100).
  { apply Qgtb_false. rewrite Hblocked. now apply Qgtb_false. }
  assert (H0 : AccBehind rates
                 (startMaturityAcc (totalInterestEarnedCumulative sa)
                                   (reinvestmentCounter sa))
                 (startMaturityAcc (totalInterestEarnedCumulative sc)
                                   (reinvestmentCounter sc))).
  { constructor; cbn; try constructor; try reflexivity; discriminate. }
  destruct (maturityFold_creates y (cumulativeShortfall sa) (cumulativeShortfall sc)
              t started months baseApy _ _ HsA HsC Hm Hel Hv Hd Hdur Hb Hfloor
              Hy Hpow Hact Hin _ _ H0) as (a' & c' & Hnew & Hmat & Hlt).
  exists a', c'. split; [|split; assumption].
  unfold simulateYear. cbn [activeCdTranches].
  rewrite combine_app_same_length by (apply (Forall2_length M1)).
  apply in_or_app. right. exact Hnew.
Qed.

(** A maturing pair with less interest in the rate-fall run gives the
    baseline run a lead in the year's interest. *)
Lemma maturing_pair_lead (sa sc : LoopState) (y : Z) (a c : Tranche) :
  Behind env sa sc ->
  In (a, c) (combine (activeCdTranches sa) (activeCdTranches sc)) ->
  maturesIn y a = true ->
  interestEarned c < interestEarned a ->
  0 < interestLead pow env sa sc y.
Proof.
  intros HB Hin Hm Hlt.
  destruct (maturingInterest_behind rates y _ _ (bh_active _ _ _ HB)) as [_ Hs].
  specialize (Hs a c Hin Hm Hlt).
  destruct (hysaInterest_lags sa sc y (bh_hysa_nonneg _ _ _ HB) (bh_hysa _ _ _ HB))
    as [_ Hi].
  destruct (maturityPass_inv pow envA sa y) as [_ _ PA _ _ _ _ _].
  destruct (maturityPass_inv pow envC sc y) as [_ _ PC _ _ _ _ _].
  revert PA PC. acc_simpl. intros PA PC.
  unfold interestLead. lra.
Qed.

Lemma yearLoop_pair_survives (l : list Z) (sa sc : LoopState) (a c : Tranche) :
  Behind env sa sc ->
  shortfallFlags pow envA sa l = shortfallFlags pow envC sc l ->
  In (a, c) (combine (activeCdTranches sa) (activeCdTranches sc)) ->
  (forall y, In y l -> maturesIn y a = false) ->
  In (a, c) (combine (activeCdTranches (yearLoop pow envA sa l))
                     (activeCdTranches (yearLoop pow envC sc l))).
Proof.
  revert sa sc. induction l as [|y l IH]; intros sa sc HB Hf Hin Hno.
  - exact Hin.
  - rewrite !yearLoop_cons.
    destruct (shortfallFlags_cons y l sa sc Hf) as [Hf1 Hf2].
    apply IH; try assumption.
    + exact (simulateYear_behind sa sc y HB Hf1).
    + apply pair_survives; [exact HB | exact Hin | apply Hno; now left].
    + intros y' Hy'. apply Hno. now right.
Qed.

(** A CD that is reinvested in a year [y1] at or after the start, into
    which the rate-fall run carries no shortfall above the tolerance, in a
    new CD that matures in a later year [y2] of the loop, puts the
    baseline's interest total strictly ahead. *)
Lemma reinvestment_lead (l1 : list Z) (y1 : Z) (l2 : list Z) (y2 : Z)
    (l3 : list Z) (sa sc : LoopState) (t : Tranche) (started : JsDate)
    (months baseApy : Q) :
  Behind env sa sc ->
  shortfallFlags pow envA sa (l1 ++ y1 :: l2 ++ y2 :: l3)
  = shortfallFlags pow envC sc (l1 ++ y1 :: l2 ++ y2 :: l3) ->
  cumulativeShortfall (yearLoop pow envC sc l1) <= 1 # 100 ->
  In (t, t) (combine (activeCdTranches sa) (activeCdTranches sc)) ->
  electsNewCd t = true ->
  0 < valueAtMaturity t ->
  maturityDate t = Some started ->
  reinvestDuration rates (nullish (reinvestmentTerm t) "") = Some months ->
  baseApyOf rates (nullish (reinvestmentTerm t) "") = Some baseApy ->
  1 # 10 < baseApy ->
  (forall b1 b2, 0 <= b1 -> b1 < b2 ->
     pow b1 (months / 12) < pow b2 (months / 12)) ->
  getFullYear started = y1 ->
  getFullYear (addMonths started months) = y2 ->
  (env_startYear env <= y1)%Z ->
  ~ In y1 l1 -> ~ In y2 l2 ->
  totalInterestEarnedCumulative
    (yearLoop pow envC sc (l1 ++ y1 :: l2 ++ y2 :: l3))
  < totalInterestEarnedCumulative
      (yearLoop pow envA sa (l1 ++ y1 :: l2 ++ y2 :: l3)).
Proof.
  intros HB Hf Hs1 Hin Hel Hv Hd Hdur Hb Hfloor Hpow Hy1 Hy2 Hstart Hn1 Hn2.
  destruct (shortfallFlags_split l1 (y1 :: l2 ++ y2 :: l3) sa sc Hf) as [Hf1 Hf2].
  destruct (shortfallFlags_cons y1 (l2 ++ y2 :: l3) _ _ Hf2) as [Hfy1 Hf3].
  destruct (shortfallFlags_split l2 (y2 :: l3) _ _ Hf3) as [Hf4 _].
  replace (l1 ++ y1 :: l2 ++ y2 :: l3)%list
    with ((l1 ++ y1 :: l2) ++ y2 :: l3)%list in *
    by (rewrite <- app_assoc; reflexivity).
  apply yearLoop_strict; try assumption.
  destruct (yearLoop_behind l1 sa sc HB Hf1) as [HB1 _].
  assert (Hm1 : maturesIn y1 t = true).
  { unfold maturesIn. rewrite Hd. apply Z.eqb_eq. exact Hy1. }
  assert (Hin1 : In (t, t) (combine (activeCdTranches (yearLoop pow envA sa l1))
                                    (activeCdTranches (yearLoop pow envC sc l1)))).
  { apply yearLoop_pair_survives; try assumption.
    intros y Hy. unfold maturesIn. rewrite Hd. apply Z.eqb_neq.
    intros E. apply Hn1. congruence. }
  destruct (pair_created _ _ y1 t started months baseApy HB1 Hs1 Hin1 Hm1 Hel Hv
              Hd Hdur Hb Hfloor Hstart Hpow) as (a' & c' & Hnew & Hmat & Hlt).
  pose proof (simulateYear_behind _ _ y1 HB1 Hfy1) as HB2.
  destruct (yearLoop_behind l2 _ _ HB2 Hf4) as [HB3 _].
  rewrite !yearLoop_app, !yearLoop_cons.
  apply (maturing_pair_lead _ _ y2 a' c' HB3).
  - apply yearLoop_pair_survives; try assumption.
    intros y Hy. unfold maturesIn. rewrite Hmat. apply Z.eqb_neq.
    intros E. apply Hn2. congruence.
  - unfold maturesIn. rewrite Hmat. apply Z.eqb_eq. exact Hy2.
  - exact Hlt.
Qed.

(** Liquid interest in the rate-fall run, in the start year or later,
    puts the baseline's interest total strictly ahead. *)
Lemma liquid_strict (l1 : list Z) (y : Z) (l2 : list Z) (sa sc : LoopState)
    (baseApy : Q) :
  Behind env sa sc ->
  shortfallFlags pow envA sa (l1 ++ y :: l2)
  = shortfallFlags pow envC sc (l1 ++ y :: l2) ->
  baseApyOf rates "HYSA" = Some baseApy ->
  1 # 10 < baseApy ->
  (env_startYear env <= y)%Z ->
  0 < hysaInterestThisYear envC (yearLoop pow envC sc l1) y ->
  totalInterestEarnedCumulative (yearLoop pow envC sc (l1 ++ y :: l2))
  < totalInterestEarnedCumulative (yearLoop pow envA sa (l1 ++ y :: l2)).
Proof.
  intros HB Hf Hb Hfloor Hy Hpos.
  apply yearLoop_strict; try assumption.
  destruct (shortfallFlags_split l1 (y :: l2) sa sc Hf) as [Hf1 _].
  destruct (yearLoop_behind l1 sa sc HB Hf1) as [HB1 _].
  now apply (liquid_interest_lead _ _ y baseApy).
Qed.
End ScenarioStep.

(** *** The year range around a year *)

Lemma yearRange_cons (a b : Z) :
  (a <= b)%Z -> yearRange a b = a :: yearRange (a + 1) b.
Proof.
  intros H. unfold yearRange.
  replace (Z.to_nat (b - a + 1)) with (S (Z.to_nat (b - (a + 1) + 1))) by lia.
  cbn [seq map]. f_equal; [lia|].
  rewrite <- seq_shift, map_map. apply map_ext. intros i. lia.
Qed.

Lemma yearRange_split (a b y : Z) :
  (a <= y <= b)%Z ->
  yearRange a b = (yearRange a (y - 1) ++ y :: yearRange (y + 1) b)%list.
Proof.
  intros H. remember (Z.to_nat (y - a)) as n eqn:Hn.
  revert a H Hn. induction n as [|n IH]; intros a H Hn.
  - assert (a = y) by lia. subst a.
    rewrite (yearRange_cons y b) by lia.
    unfold yearRange at 2.
    replace (Z.to_nat (y - 1 - y + 1)) with 0%nat by lia. reflexivity.
  - rewrite (yearRange_cons a b), (yearRange_cons a (y - 1)) by lia.
    rewrite (IH (a + 1)%Z) by lia. reflexivity.
Qed.

Lemma Forall2_diag {A : Type} (R : A -> A -> Prop) (l : list A) :
  Forall (fun x => R x x) l -> Forall2 R l l.
Proof. induction 1; constructor; assumption. Qed.

Lemma yearRange_empty (a b : Z) : (b < a)%Z -> yearRange a b = [].
Proof.
  intros H. unfold yearRange.
  replace (Z.to_nat (b - a + 1)) with 0%nat by lia. reflexivity.
Qed.

Lemma yearRange_last (a b : Z) :
  yearRange a b = [] \/ exists l, yearRange a b = (l ++ [b])%list.
Proof.
  destruct (Z_lt_le_dec b a) as [H | H].
  - left. now apply yearRange_empty.
  - right. exists (yearRange a (b - 1)).
    rewrite (yearRange_split a b b) by lia.
    rewrite (yearRange_empty (b + 1) b) by lia. reflexivity.
Qed.

Section RunFlags.

Variable pow : Q -> Q -> Q.
Variable env : Env.

(** The flags of the records of a run. *)
Lemma yearLoop_flags (ys : list Z) (st : LoopState) :
  map hasShortfall (projection (yearLoop pow env st ys))
  = (map hasShortfall (projection st) ++ shortfallFlags pow env st ys)%list.
Proof.
  revert st. induction ys as [|y ys IH]; intros st; cbn [shortfallFlags].
  - symmetry. apply app_nil_r.
  - rewrite yearLoop_cons, IH.
    destruct (simulateYear_emits pow env st y) as (r & Hr & He).
    pose proof (emittedRecord_fields pow env st y r He) as F. cbn zeta in F.
    destruct F as (_ & _ & _ & _ & _ & _ & _ & _ & _ & _ & _ & F12 & _).
    pose proof (simulateYear_state pow env st y) as T. cbn zeta in T.
    destruct T as (_ & T2 & _).
    rewrite Hr, map_app, <- app_assoc, T2, <- F12. reflexivity.
Qed.

(** The shortfall carried out of a range of years is within the tolerance
    when the record of the last year of the range is not flagged. *)
Lemma carried_from_range (l1 l2 : list Z) (y : Z) (st : LoopState) :
  cumulativeShortfall st <= 1 # 100 ->
  l1 = [] \/ (exists l0, l1 = (l0 ++ [y])%list) ->
  (forall r, In r (projection (yearLoop pow env st (l1 ++ l2))) ->
     year r = y -> hasShortfall r = false) ->
  cumulativeShortfall (yearLoop pow env st l1) <= 1 # 100.
Proof.
  intros Hst [-> | (l0 & ->)] Hall; [exact Hst|].
  rewrite yearLoop_app, yearLoop_cons. cbn [yearLoop fold_left].
  set (s0 := yearLoop pow env st l0).
  destruct (simulateYear_pushes pow env s0 y) as (r & Hr & Hyr & _).
  destruct (simulateYear_emits pow env s0 y) as (r' & Hr' & He).
  assert (r' = r).
  { rewrite Hr in Hr'. apply app_inj_tail in Hr'. now destruct Hr'. }
  subst r'.
  pose proof (emittedRecord_fields pow env s0 y r He) as F. cbn zeta in F.
  destruct F as (_ & _ & _ & _ & _ & _ & _ & _ & _ & _ & _ & F12 & _).
  pose proof (simulateYear_state pow env s0 y) as T. cbn zeta in T.
  destruct T as (_ & T2 & _).
  rewrite T2. apply Qgtb_false. rewrite <- F12. apply Hall; [|exact Hyr].
  rewrite yearLoop_app.
  destruct (yearLoop_projection pow env
              (yearLoop pow env st (l0 ++ [y])) l2) as (more & Hm & _).
  rewrite Hm. apply in_or_app. left.
  rewrite yearLoop_app. cbn [yearLoop fold_left]. fold s0.
  unfold yearLoop in Hr. cbn [fold_left].
  change (fold_left (simulateYear pow env) l0 st) with s0.
  rewrite Hr. apply in_or_app. right. now left.
Qed.

End RunFlags.

Section ScenarioRun.

Variable pow : Q -> Q -> Q.
Hypothesis pow_nonneg : forall b e, 0 <= b -> 0 <= pow b e.
Hypothesis pow_monotone :
  forall b1 b2 e, 0 <= b1 -> b1 <= b2 -> 0 <= e -> pow b1 e <= pow b2 e.

(** A processed row is on a par with itself. *)
Lemma initTranche_behind (rates : RateTable) (parsedStart : JsDate)
    (index : nat) (row : TrancheRow) (t : Tranche) :
  0 <= numberOr0 (row_amount row) ->
  (forall a, baseApyOf rates (row_term row) = Some a -> -100 <= a) ->
  (rowElectsNewCd row = true ->
   forall b, baseApyOf rates (rowReinvestmentTerm row) = Some b -> 1 # 10 <= b) ->
  initTranche pow rates parsedStart index row = inr t ->
  0 <= amount t /\ (isHYSA t = false -> trancheBehind rates t t).
Proof.
  intros Hamount Hapy Hterm Ht.
  pose proof (initTranche_elects pow rates parsedStart index row t Ht) as Hel.
  revert Ht Hel. unfold initTranche.
  destruct (baseApyOf rates (row_term row)) as [a|]; [|discriminate].
  specialize (Hapy a eq_refl).
  destruct (lookup (row_term row) rates) as [info|]; [|discriminate].
  destruct (String.eqb (row_term row) "HYSA").
  { intros H; inversion H; cbn. split; [exact Hamount | discriminate]. }
  destruct (duration info) as [d|]; [|discriminate].
  destruct (Qle_bool d 0); [discriminate|].
  intros H; inversion H; subst t; cbn. intros Hel.
  split; [exact Hamount|]. intros _.
  constructor; cbn; try reflexivity.
  - apply Qmult_le_0_compat; [exact Hamount|].
    apply pow_nonneg. const_div. lra.
  - apply Qle_refl.
  - now left.
  - intros He. apply Hterm. now apply Hel.
Qed.

Lemma makePlan_start_behind (parsedStart : JsDate) (taxRatePercent : Q)
    (ws : list Withdrawal) (rates : RateTable) (sA sC : option string)
    (rows : list TrancheRow) (ts : list Tranche) (cA cC : nat) :
  Forall (fun row => 0 <= numberOr0 (row_amount row)) rows ->
  Forall (fun row => forall a,
            baseApyOf rates (row_term row) = Some a -> -100 <= a) rows ->
  Forall (fun row =>
            rowElectsNewCd row = true ->
            ~ In (rowReinvestmentTerm row) inheritedKeys
            /\ forall b, baseApyOf rates (rowReinvestmentTerm row) = Some b ->
                         1 # 10 <= b) rows ->
  mapTranches pow rates parsedStart 0 rows = inr ts ->
  Behind (plan_env (makePlan parsedStart taxRatePercent ws rates sA ts cA))
         (plan_start (makePlan parsedStart taxRatePercent ws rates sA ts cA))
         (plan_start (makePlan parsedStart taxRatePercent ws rates sC ts cC)).
Proof.
  intros Hamounts Hapys Hterms Hm.
  assert (Hts : Forall (fun t => 0 <= amount t
                                 /\ (isHYSA t = false -> trancheBehind rates t t)) ts).
  { apply (mapTranches_Forall pow _ rates parsedStart rows 0 ts); [|exact Hm].
    intros row i t Hrow. apply initTranche_behind.
    - exact (proj1 (Forall_forall _ _) Hamounts row Hrow).
    - exact (proj1 (Forall_forall _ _) Hapys row Hrow).
    - intros He. exact (proj2 (proj1 (Forall_forall _ _) Hterms row Hrow He)). }
  constructor; cbn.
  - apply Forall2_diag. clear - Hts.
    induction Hts as [|t ts [_ Ht] _ IH]; cbn; [constructor|].
    destruct (isHYSA t); cbn; [exact IH|]. constructor; [now apply Ht | exact IH].
  - apply sumBy_nonneg. clear - Hts.
    induction Hts as [|t ts [Ht _] _ IH]; cbn; [constructor|].
    destruct (isHYSA t); [constructor|]; assumption.
  - apply Qle_refl.
  - reflexivity.
  - apply Qle_refl.
  - unfold netPosition. cbn. ring.
  - exact I.
Qed.

(** C4 (as amended): the baseline run against the aggressive rate fall,
    on the same inputs.  The inputs have amounts that are not negative,
    APYs of at least -100%, a tax rate of at most 100%, and base APYs at
    or above the floor of the aggressive scenario (0.10) for the liquid
    account and for the reinvestment term (not an inherited property
    name) of every row that elects a new CD.  Then the rate-fall run
    returns totals whenever the baseline run does, and when the two runs
    flag a shortfall in the same years (in particular when neither flags
    any) the rate-fall run's cumulative interest and final portfolio value
    are at most the baseline run's.  The interest is strictly lower when
    the rate-fall run earns liquid interest, at a base APY above the
    floor, in the start year or later, or when a CD with a positive value
    is reinvested, at a term whose base APY is above the floor, in a new
    CD that matures in a later simulated year; the final portfolio value
    is then strictly lower too when the tax rate is below 100% and the
    baseline run ends with cash or a liquid balance. *)
Theorem significant_fall_below_baseline (input : Inputs) (cA cC : nat)
    (parsedStart : JsDate) (rows : list TrancheRow) (rates : RateTable)
    (taxRatePercent : Q) (ts : list Tranche)
    (resultA : ProjectionResult) (totalsA : Totals) :
  investmentStartDate input = Some (Some parsedStart) ->
  tranches input = Some rows ->
  interestRates input = Some rates ->
  taxRate input = Some taxRatePercent ->
  mapTranches pow rates parsedStart 0 rows = inr ts ->
  Forall (fun row => 0 <= numberOr0 (row_amount row)) rows ->
  Forall (fun row => forall a,
            baseApyOf rates (row_term row) = Some a -> -100 <= a) rows ->
  Forall (fun row =>
            rowElectsNewCd row = true ->
            ~ In (rowReinvestmentTerm row) inheritedKeys
            /\ forall b, baseApyOf rates (rowReinvestmentTerm row) = Some b ->
                         1 # 10 <= b) rows ->
  taxRatePercent <= 100 ->
  (forall a, baseApyOf rates "HYSA" = Some a -> 1 # 10 <= a) ->
  fst (calculateProjections pow (withScenario (Some "ratesStayHigh") input) cA)
  = Returned resultA ->
  totals resultA = Some totalsA ->
  exists resultC totalsC,
    fst (calculateProjections pow
           (withScenario (Some "ratesFallSignificantly") input) cC)
    = Returned resultC
    /\ totals resultC = Some totalsC
    /\ (map hasShortfall (projectionYears resultA)
        = map hasShortfall (projectionYears resultC) ->
        totalInterestEarned totalsC <= totalInterestEarned totalsA
        /\ finalPortfolioValue totalsC <= finalPortfolioValue totalsA
        /\ (earnsLiquidInterest rates (getFullYear parsedStart)
                                (projectionYears resultC)
            \/ reinvestsWithin pow rates ts (projectionYears resultC) ->
            totalInterestEarned totalsC < totalInterestEarned totalsA
            /\ (taxRatePercent < 100 ->
                (exists rA,
                    lastRecord (projectionYears resultA) = Some rA
                    /\ 0 < endOfYearCash rA + endOfYearHysaBalance rA) ->
                finalPortfolioValue totalsC < finalPortfolioValue totalsA))).
Proof.
  intros Hdate Hrows Hrates Htaxrate Hmap Hamounts Hapys Hterms Htax Hfloor HA HtA.
  destruct (totals_plan pow _ cA resultA totalsA HA HtA) as (planA & HpA & ->).
  destruct (prepare_plan pow _ cA planA HpA)
    as (parsedStart' & numLumpSum & tax' & rows' & ws & rates' & ts'
        & Hd & Hl & Ht & Hr & Hw & Hi & Hm & HplanA).
  cbn [withScenario investmentStartDate lumpSum taxRate tranches withdrawals
       interestRates rateScenario] in Hd, Hl, Ht, Hr, Hw, Hi, HplanA.
  rewrite Hdate in Hd. inversion Hd; subst parsedStart'.
  rewrite Hrows in Hr. inversion Hr; subst rows'.
  rewrite Hrates in Hi. inversion Hi; subst rates'.
  rewrite Htaxrate in Ht. inversion Ht; subst tax'.
  rewrite Hmap in Hm. inversion Hm; subst ts'.
  clear Hd Hr Hi Ht Hm.
  cbn [finish totals] in HtA. injection HtA as HtA. subst totalsA planA.
  set (planA := makePlan parsedStart taxRatePercent ws rates
                         (Some "ratesStayHigh") ts cA) in *.
  pose proof (prepare_withScenario pow input (Some "ratesFallSignificantly") cC
                parsedStart numLumpSum taxRatePercent rows ws rates ts
                Hdate Hl Htaxrate Hrows Hw Hrates Hmap) as HpC.
  set (planC := makePlan parsedStart taxRatePercent ws rates
                         (Some "ratesFallSignificantly") ts cC) in *.
  rewrite (calculateProjections_plan pow _ cC planC HpC). cbn [fst].
  eexists. eexists. split; [reflexivity|]. split; [reflexivity|].
  clear HA.
  cbn [totalInterestEarned finalPortfolioValue finish projectionYears].
  pose proof (run_record_years pow _ cC planC HpC) as HyearsC.
  change (plan_initialTranches planC) with (plan_initialTranches planA).
  change (plan_years planC) with (plan_years planA) in *.
  set (env := plan_env planA) in *.
  change (plan_env planC)
    with (envWithScenario (Some "ratesFallSignificantly") env) in *.
  change (yearLoop pow env)
    with (yearLoop pow (envWithScenario (Some "ratesStayHigh") env)) in *.
  set (years := plan_years planA) in *.
  set (startA := plan_start planA) in *.
  set (startC := plan_start planC) in *.
  assert (Hstart : env_startYear env = getFullYear parsedStart) by reflexivity.
  assert (Hratesenv : env_interestRates env = rates) by reflexivity.
  assert (HfloorE : forall a, baseApyOf (env_interestRates env) "HYSA" = Some a ->
                              1 # 10 <= a) by exact Hfloor.
  assert (Hmonth : (0 <= env_startMonth env < 12)%Z).
  { cbn. apply Z.mod_pos_bound. lia. }
  assert (HtaxE : env_numTaxRate env <= 1).
  { cbn. const_div. lra. }
  assert (Htaxeq : env_numTaxRate env == taxRatePercent / 100) by reflexivity.
  assert (HB0 : Behind env startA startC).
  { apply (makePlan_start_behind parsedStart taxRatePercent ws rates _ _ rows ts);
      assumption. }
  destruct (makePlan_range pow parsedStart taxRatePercent ws rates
              (Some "ratesStayHigh") rows ts cA Hmap) as (Hmin & Hminmax).
  fold planA in Hmin, Hminmax.
  rewrite !yearLoop_flags. intros Hf.
  change (map hasShortfall (projection startA)) with (@nil bool) in Hf.
  change (map hasShortfall (projection startC)) with (@nil bool) in Hf.
  cbn [app] in Hf.
  destruct (yearLoop_behind pow pow_nonneg pow_monotone env HfloorE Hmonth HtaxE
              years startA startC HB0 Hf) as [HB _].
  pose proof (bh_net _ _ _ HB) as Hnet.
  pose proof (bh_last _ _ _ HB) as Hlast.
  set (finalA := yearLoop pow (envWithScenario (Some "ratesStayHigh") env)
                          startA years) in *.
  set (finalC := yearLoop pow (envWithScenario (Some "ratesFallSignificantly") env)
                          startC years) in *.
  assert (Hgap0 : 0 <= (totalInterestEarnedCumulative finalA
                        - totalInterestEarnedCumulative finalC)
                       * (1 - env_numTaxRate env)).
  { apply Qmult_le_0_compat; [|lra]. pose proof (bh_interest _ _ _ HB). lra. }
  split; [exact (bh_interest _ _ _ HB)|]. split.
  - destruct (lastRecord (projection finalA)), (lastRecord (projection finalC));
      try contradiction; [|apply Qle_refl].
    destruct Hlast as [Hlast _]. revert Hlast. elim_minmax. lra.
  - intros Hcause.
    assert (Hstrict : totalInterestEarnedCumulative finalC
                      < totalInterestEarnedCumulative finalA).
    { destruct Hcause as [[(baseApy & Hb & Hbfloor) Hex]
                         | (t & started & months & baseApy & Hin & Hfixed & Hel
                            & Hv & Hd & Hdur & Hb & Hbfloor & Hlater & Hy2
                            & Hcarried & Hpow)].
      - apply Exists_exists in Hex. destruct Hex as (r & Hr & Hyr & Hpos).
        destruct (In_nth_error _ _ Hr) as (i & Hi).
        assert (Hy : nth_error years i = Some (year r)).
        { rewrite <- HyearsC, nth_error_map. fold finalC. rewrite Hi. reflexivity. }
        destruct (nth_error_split _ _ Hy) as (l1 & l2 & Hsplit & Hlen).
        unfold finalA, finalC. rewrite Hsplit.
        apply (liquid_strict pow pow_nonneg pow_monotone env HfloorE Hmonth HtaxE
                 l1 (year r) l2 startA startC baseApy); try assumption.
        + rewrite <- Hsplit. exact Hf.
        + unfold finalC in Hi. rewrite Hsplit, yearLoop_app, yearLoop_cons in Hi.
          destruct (simulateYear_emits pow
                      (envWithScenario (Some "ratesFallSignificantly") env)
                      (yearLoop pow
                         (envWithScenario (Some "ratesFallSignificantly") env)
                         startC l1) (year r)) as (r' & Hr' & He).
          destruct (yearLoop_projection pow
                      (envWithScenario (Some "ratesFallSignificantly") env)
                      (simulateYear pow
                         (envWithScenario (Some "ratesFallSignificantly") env)
                         (yearLoop pow
                            (envWithScenario (Some "ratesFallSignificantly") env)
                            startC l1) (year r)) l2) as (more & Hmore & _).
          destruct (yearLoop_projection pow
                      (envWithScenario (Some "ratesFallSignificantly") env)
                      startC l1) as (pre & Hpre & Hprey).
          rewrite Hmore, Hr', Hpre in Hi.
          change (projection startC) with (@nil YearRecord) in Hi.
          cbn [app] in Hi.
          assert (Hpl : List.length pre = i).
          { rewrite <- Hlen, <- Hprey. symmetry. apply length_map. }
          rewrite <- app_assoc in Hi.
          rewrite nth_error_app2 in Hi by (rewrite Hpl; apply Nat.le_refl).
          rewrite Hpl, Nat.sub_diag in Hi. cbn in Hi. inversion Hi; subst r'.
          pose proof (emittedRecord_fields pow _ _ _ r He) as F. cbn zeta in F.
          destruct F as (_ & _ & _ & _ & _ & F6 & _).
          rewrite <- F6. exact Hpos.
      - rewrite HyearsC in Hy2.
        assert (Hy1 : (getFullYear parsedStart <= getFullYear started)%Z).
        { assert (H : Forall (fun t => match maturityDate t with
                                       | Some d => (getFullYear parsedStart
                                                    <= getFullYear d)%Z
                                       | None => True
                                       end) ts).
          { apply (mapTranches_Forall pow _ rates parsedStart rows 0 ts);
              [|exact Hmap].
            intros row i t' _. apply initTranche_matures_later. }
          pose proof (proj1 (Forall_forall _ _) H t Hin) as Ht.
          cbn beta in Ht. rewrite Hd in Ht. exact Ht. }
        pose proof (minOf_le_first (getFullYear parsedStart) (withdrawalYears ws))
          as Hle.
        unfold years, plan_years in Hy2. apply yearRange_In in Hy2.
        assert (Hsplit : years
                         = (yearRange (plan_minYear planA) (getFullYear started - 1)
                            ++ getFullYear started
                               :: yearRange (getFullYear started + 1)
                                    (getFullYear (addMonths started months) - 1)
                               ++ getFullYear (addMonths started months)
                                  :: yearRange
                                       (getFullYear (addMonths started months) + 1)
                                       (plan_maxYear planA))%list).
        { unfold years, plan_years.
          rewrite (yearRange_split (plan_minYear planA) (plan_maxYear planA)
                     (getFullYear started)) by lia.
          rewrite (yearRange_split (getFullYear started + 1) (plan_maxYear planA)
                     (getFullYear (addMonths started months))) by lia.
          reflexivity. }
        unfold finalA, finalC. rewrite Hsplit.
        apply (reinvestment_lead pow pow_nonneg pow_monotone env HfloorE Hmonth
                 HtaxE _ _ _ _ _ startA startC t started months baseApy);
          try assumption; try reflexivity.
        + rewrite <- Hsplit. exact Hf.
        + apply (carried_from_range pow _ _
                   (getFullYear started
                    :: yearRange (getFullYear started + 1)
                         (getFullYear (addMonths started months) - 1)
                    ++ getFullYear (addMonths started months)
                       :: yearRange (getFullYear (addMonths started months) + 1)
                            (plan_maxYear planA))
                   (getFullYear started - 1)%Z).
          * discriminate.
          * apply yearRange_last.
          * rewrite <- Hsplit. exact Hcarried.
        + change (In (t, t) (combine (filter (fun t => negb (isHYSA t)) ts)
                                     (filter (fun t => negb (isHYSA t)) ts))).
          apply in_combine_same. apply filter_In. split; [exact Hin|].
          now rewrite Hfixed.
        + rewrite yearRange_In. lia.
        + rewrite yearRange_In. lia. }
    split; [exact Hstrict|].
    intros Htax1 (rA & HrA & HposA).
    rewrite HrA in Hlast |- *.
    destruct (lastRecord (projection finalC)); [|contradiction].
    destruct Hlast as [Hl1 Hl2].
    assert (Hgap : 0 < (totalInterestEarnedCumulative finalA
                        - totalInterestEarnedCumulative finalC)
                       * (1 - env_numTaxRate env)).
    { apply Qmult_lt_0_compat; [lra|]. rewrite Htaxeq. const_div. lra. }
    revert Hl1 Hl2. elim_minmax. lra.
Qed.

End ScenarioRun.

Lemma powWhole_monotone (b1 b2 e : Q) :
  0 <= b1 -> b1 <= b2 -> 0 <= e -> powWhole b1 e <= powWhole b2 e.
Proof.
  intros H0 Hle He. unfold powWhole.
  assert (Hn : (0 <= Qfloor e)%Z).
  { change 0%Z with (Qfloor 0). now apply Qfloor_resp_le. }
  rewrite <- (Z2Nat.id (Qfloor e) Hn).
  induction (Z.to_nat (Qfloor e)) as [|n IH].
  - apply Qle_refl.
  - rewrite Nat2Z.inj_succ, <- Z.add_1_r.
    rewrite !Qpower_plus' by lia.
    apply Qmult_le_mono; [apply Qpower_0_le, H0 | exact IH | | ].
    + change (b1 ^ 1) with b1. exact H0.
    + change (b1 ^ 1) with b1. change (b2 ^ 1) with b2. exact Hle.
Qed.

Lemma powWhole_one_year (b1 b2 : Q) :
  0 <= b1 -> b1 < b2 -> powWhole b1 (12 / 12) < powWhole b2 (12 / 12).
Proof. intros _ H. exact H. Qed.

Lemma significant_fall_below_baseline_witness :
  (exists resultA totalsA resultC totalsC,
      fst (calculateProjections powWhole
             (withScenario (Some "ratesStayHigh") (ladderInputs None)) 0)
      = Returned resultA
      /\ totals resultA = Some totalsA
      /\ fst (calculateProjections powWhole
                (withScenario (Some "ratesFallSignificantly") (ladderInputs None)) 0)
         = Returned resultC
      /\ totals resultC = Some totalsC
      /\ map hasShortfall (projectionYears resultA)
         = map hasShortfall (projectionYears resultC)
      /\ earnsLiquidInterest DEFAULT_INTEREST_RATES 2024 (projectionYears resultC)
      /\ totalInterestEarned totalsC < totalInterestEarned totalsA
      /\ finalPortfolioValue totalsC < finalPortfolioValue totalsA)
  /\ (exists resultA totalsA resultC totalsC ts,
         fst (calculateProjections powWhole
                (withScenario (Some "ratesStayHigh") (reinvestedCdInputs None)) 0)
         = Returned resultA
         /\ totals resultA = Some totalsA
         /\ fst (calculateProjections powWhole
                   (withScenario (Some "ratesFallSignificantly")
                                 (reinvestedCdInputs None)) 0)
            = Returned resultC
         /\ totals resultC = Some totalsC
         /\ map hasShortfall (projectionYears resultA)
            = map hasShortfall (projectionYears resultC)
         /\ mapTranches powWhole DEFAULT_INTEREST_RATES (mkDate 2024 0) 0
                        [cdRow "12m" 1000 "cash"; cdRow "24m" 2000 "newCD"] = inr ts
         /\ reinvestsWithin powWhole DEFAULT_INTEREST_RATES ts
                            (projectionYears resultC)
         /\ totalInterestEarned totalsC < totalInterestEarned totalsA
         /\ finalPortfolioValue totalsC < finalPortfolioValue totalsA).
Proof.
  assert (Hnot : ~ In "12m" inheritedKeys).
  { intros H. repeat (destruct H as [H | H]; [discriminate|]). exact H. }
  assert (Hfloor12 : forall b, baseApyOf DEFAULT_INTEREST_RATES "12m" = Some b ->
                               1 # 10 <= b).
  { intros b H. vm_compute in H. inversion H. vm_compute. discriminate. }
  assert (Hfloor : forall a, baseApyOf DEFAULT_INTEREST_RATES "HYSA" = Some a ->
                             1 # 10 <= a).
  { intros a H. vm_compute in H. inversion H. vm_compute. discriminate. }
  assert (Htax : 25 <= 100) by (vm_compute; discriminate).
  split.
  - assert (HA : fst (calculateProjections powWhole
                        (withScenario (Some "ratesStayHigh") (ladderInputs None)) 0)
                 = Returned (resultOf (ladderInputs (Some "ratesStayHigh"))))
      by (vm_compute; reflexivity).
    eassert (HtA : totals (resultOf (ladderInputs (Some "ratesStayHigh"))) = Some _)
      by reflexivity.
    assert (Hamounts : Forall (fun row => 0 <= numberOr0 (row_amount row))
                         [ cdRow "HYSA" 5000 "cash"; cdRow "12m" 1000 "hysa";
                           cdRow "24m" 2000 "newCD" ])
      by (repeat constructor; vm_compute; discriminate).
    assert (Hapys : Forall (fun row => forall a,
                              baseApyOf DEFAULT_INTEREST_RATES (row_term row) = Some a ->
                              -100 <= a)
                      [ cdRow "HYSA" 5000 "cash"; cdRow "12m" 1000 "hysa";
                        cdRow "24m" 2000 "newCD" ])
      by (repeat constructor; intros a H; vm_compute in H; inversion H;
          vm_compute; discriminate).
    assert (Hterms : Forall (fun row =>
                               rowElectsNewCd row = true ->
                               ~ In (rowReinvestmentTerm row) inheritedKeys
                               /\ forall b,
                                    baseApyOf DEFAULT_INTEREST_RATES
                                              (rowReinvestmentTerm row) = Some b ->
                                    1 # 10 <= b)
                       [ cdRow "HYSA" 5000 "cash"; cdRow "12m" 1000 "hysa";
                         cdRow "24m" 2000 "newCD" ])
      by (repeat (apply Forall_cons; [intros _; split; assumption|]);
          apply Forall_nil).
    destruct (significant_fall_below_baseline powWhole powWhole_nonneg
                powWhole_monotone (ladderInputs None) 0 0 (mkDate 2024 0)
                [ cdRow "HYSA" 5000 "cash"; cdRow "12m" 1000 "hysa";
                  cdRow "24m" 2000 "newCD" ]
                DEFAULT_INTEREST_RATES 25
                (plan_initialTranches (examplePlan (ladderInputs None)))
                (resultOf (ladderInputs (Some "ratesStayHigh"))) _
                eq_refl eq_refl eq_refl eq_refl eq_refl
                Hamounts Hapys Hterms Htax Hfloor HA HtA)
      as (resultC & totalsC & HC & HtC & Hmain).
    assert (HC' : fst (calculateProjections powWhole
                         (withScenario (Some "ratesFallSignificantly")
                                       (ladderInputs None)) 0)
                  = Returned (resultOf (ladderInputs (Some "ratesFallSignificantly"))))
      by (vm_compute; reflexivity).
    rewrite HC' in HC. injection HC as <-.
    assert (Hliquid : earnsLiquidInterest DEFAULT_INTEREST_RATES 2024
              (projectionYears (resultOf (ladderInputs (Some "ratesFallSignificantly"))))).
    { split.
      - exists (18 # 5). split; [reflexivity | vm_compute; reflexivity].
      - apply Exists_exists. eexists. split; [vm_compute; left; reflexivity|].
        split; [vm_compute; discriminate | vm_compute; reflexivity]. }
    destruct Hmain as (_ & _ & Hstrict); [vm_compute; reflexivity|].
    destruct (Hstrict (or_introl Hliquid)) as [Hi Hf].
    exists (resultOf (ladderInputs (Some "ratesStayHigh"))). eexists.
    exists (resultOf (ladderInputs (Some "ratesFallSignificantly"))), totalsC.
    split; [exact HA|]. split; [exact HtA|].
    split; [exact HC'|].
    split; [exact HtC|].
    split; [vm_compute; reflexivity|].
    split; [exact Hliquid|]. split; [exact Hi|].
    apply Hf; [vm_compute; reflexivity|].
    eexists. split; [vm_compute; reflexivity | vm_compute; reflexivity].
  - assert (HA : fst (calculateProjections powWhole
                        (withScenario (Some "ratesStayHigh") (reinvestedCdInputs None)) 0)
                 = Returned (resultOf (reinvestedCdInputs (Some "ratesStayHigh"))))
      by (vm_compute; reflexivity).
    eassert (HtA : totals (resultOf (reinvestedCdInputs (Some "ratesStayHigh")))
                   = Some _)
      by reflexivity.
    eassert (Hts : mapTranches powWhole DEFAULT_INTEREST_RATES (mkDate 2024 0) 0
                               [cdRow "12m" 1000 "cash"; cdRow "24m" 2000 "newCD"] = inr _)
      by (vm_compute; reflexivity).
    assert (Hamounts : Forall (fun row => 0 <= numberOr0 (row_amount row))
                         [cdRow "12m" 1000 "cash"; cdRow "24m" 2000 "newCD"])
      by (repeat constructor; vm_compute; discriminate).
    assert (Hapys : Forall (fun row => forall a,
                              baseApyOf DEFAULT_INTEREST_RATES (row_term row) = Some a ->
                              -100 <= a)
                      [cdRow "12m" 1000 "cash"; cdRow "24m" 2000 "newCD"])
      by (repeat constructor; intros a H; vm_compute in H; inversion H;
          vm_compute; discriminate).
    assert (Hterms : Forall (fun row =>
                               rowElectsNewCd row = true ->
                               ~ In (rowReinvestmentTerm row) inheritedKeys
                               /\ forall b,
                                    baseApyOf DEFAULT_INTEREST_RATES
                                              (rowReinvestmentTerm row) = Some b ->
                                    1 # 10 <= b)
                       [cdRow "12m" 1000 "cash"; cdRow "24m" 2000 "newCD"])
      by (repeat (apply Forall_cons; [intros _; split; assumption|]);
          apply Forall_nil).
    destruct (significant_fall_below_baseline powWhole powWhole_nonneg
                powWhole_monotone (reinvestedCdInputs None) 0 0 (mkDate 2024 0)
                [cdRow "12m" 1000 "cash"; cdRow "24m" 2000 "newCD"]
                DEFAULT_INTEREST_RATES 25 _
                (resultOf (reinvestedCdInputs (Some "ratesStayHigh"))) _
                eq_refl eq_refl eq_refl eq_refl Hts
                Hamounts Hapys Hterms Htax Hfloor HA HtA)
      as (resultC & totalsC & HC & HtC & Hmain).
    assert (HC' : fst (calculateProjections powWhole
                         (withScenario (Some "ratesFallSignificantly")
                                       (reinvestedCdInputs None)) 0)
                  = Returned (resultOf (reinvestedCdInputs
                                          (Some "ratesFallSignificantly"))))
      by (vm_compute; reflexivity).
    rewrite HC' in HC. injection HC as <-.
    match type of Hts with
    | _ = inr ?ts =>
        assert (Hcause : reinvestsWithin powWhole DEFAULT_INTEREST_RATES ts
                  (projectionYears
                     (resultOf (reinvestedCdInputs
                                  (Some "ratesFallSignificantly")))))
    end.
    { eexists. exists (mkDate 2026 0), 12, 4.
      split; [right; left; reflexivity|].
      split; [reflexivity|]. split; [reflexivity|].
      split; [vm_compute; reflexivity|].
      split; [vm_compute; reflexivity|].
      split; [vm_compute; reflexivity|].
      split; [vm_compute; reflexivity|].
      split; [vm_compute; reflexivity|].
      split; [vm_compute; reflexivity|].
      split; [vm_compute; do 3 right; left; reflexivity|].
      split; [|exact powWhole_one_year].
      intros r Hr _.
      assert (Hall : forallb (fun r => negb (hasShortfall r))
                       (projectionYears
                          (resultOf (reinvestedCdInputs
                                       (Some "ratesFallSignificantly")))) = true)
        by (vm_compute; reflexivity).
      rewrite forallb_forall in Hall. specialize (Hall r Hr).
      now apply negb_true_iff in Hall. }
    destruct Hmain as (_ & _ & Hstrict); [vm_compute; reflexivity|].
    destruct (Hstrict (or_intror Hcause)) as [Hi Hf].
    exists (resultOf (reinvestedCdInputs (Some "ratesStayHigh"))). eexists.
    exists (resultOf (reinvestedCdInputs (Some "ratesFallSignificantly"))), totalsC.
    eexists.
    split; [exact HA|]. split; [exact HtA|].
    split; [exact HC'|].
    split; [exact HtC|].
    split; [vm_compute; reflexivity|].
    split; [exact Hts|].
    split; [exact Hcause|]. split; [exact Hi|].
    apply Hf; [vm_compute; reflexivity|].
    eexists. split; [vm_compute; reflexivity | vm_compute; reflexivity].
Defined.

(** C4 (as stated) fails: a portfolio that never consults the scenario -
    here a single 12-month CD held as cash at maturity, with the default
    rate table - earns the same interest (40) and ends with the same
    portfolio value (1030) under both scenarios, so neither figure is
    strictly lower under the aggressive fall. *)
Lemma cash_cd_same_under_both_scenarios :
  exists resultA totalsA resultC totalsC,
    fst (calculateProjections powWhole (cashCdInputs (Some "ratesStayHigh")) 0)
    = Returned resultA
    /\ totals resultA = Some totalsA
    /\ fst (calculateProjections powWhole
              (cashCdInputs (Some "ratesFallSignificantly")) 0)
       = Returned resultC
    /\ totals resultC = Some totalsC
    /\ totalInterestEarned totalsA == 40
    /\ totalInterestEarned totalsC == 40
    /\ finalPortfolioValue totalsA == 1030
    /\ finalPortfolioValue totalsC == 1030
    /\ ~ (totalInterestEarned totalsC < totalInterestEarned totalsA
          /\ finalPortfolioValue totalsC < finalPortfolioValue totalsA).
Proof.
  eexists. eexists. eexists. eexists.
  split; [vm_compute; reflexivity|].
  split; [reflexivity|].
  split; [vm_compute; reflexivity|].
  split; [reflexivity|].
  split; [vm_compute; reflexivity|].
  split; [vm_compute; reflexivity|].
  split; [vm_compute; reflexivity|].
  split; [vm_compute; reflexivity|].
  vm_compute. intros [H _]. discriminate H.
Qed.

(** Why the amended claim asks for a liquid-account base APY at or above
    the floor: with a base APY of 0.05% the aggressive scenario clamps the
    rate up to its floor of 0.10%, and the rate-fall run earns more (6
    against 3) and ends higher. *)
Lemma floor_lifts_low_yield :
  exists resultA totalsA resultC totalsC,
    fst (calculateProjections powWhole (lowYieldInputs (Some "ratesStayHigh")) 0)
    = Returned resultA
    /\ totals resultA = Some totalsA
    /\ fst (calculateProjections powWhole
              (lowYieldInputs (Some "ratesFallSignificantly")) 0)
       = Returned resultC
    /\ totals resultC = Some totalsC
    /\ totalInterestEarned totalsA < totalInterestEarned totalsC
    /\ finalPortfolioValue totalsA < finalPortfolioValue totalsC.
Proof.
  eexists. eexists. eexists. eexists.
  split; [vm_compute; reflexivity|].
  split; [reflexivity|].
  split; [vm_compute; reflexivity|].
  split; [reflexivity|].
  split; vm_compute; reflexivity.
Qed.

(** Why the amended claim asks that the two runs flag a shortfall in the
    same years: with the default rate table, the rate-fall run ends 2024
    with a small shortfall that the baseline run avoids.  In 2025 the
    shortfall blocks the reinvestment of the small CD in the rate-fall run
    only; the baseline run reinvests it, cannot pay the tax on its
    interest and carries a shortfall into 2026, which there blocks the
    large CD's move to the liquid account.  The rate-fall run then earns
    liquid-account interest for five years that the baseline run never
    earns. *)
Lemma blocked_reinvestment_reverses_order :
  exists resultA totalsA resultC totalsC,
    fst (calculateProjections powWhole
           (blockedReinvestmentInputs (Some "ratesStayHigh")) 0)
    = Returned resultA
    /\ totals resultA = Some totalsA
    /\ fst (calculateProjections powWhole
              (blockedReinvestmentInputs (Some "ratesFallSignificantly")) 0)
       = Returned resultC
    /\ totals resultC = Some totalsC
    /\ map hasShortfall (projectionYears resultA)
       <> map hasShortfall (projectionYears resultC)
    /\ totalInterestEarned totalsA < totalInterestEarned totalsC
    /\ finalPortfolioValue totalsA < finalPortfolioValue totalsC.
Proof.
  eexists. eexists. eexists. eexists.
  split; [vm_compute; reflexivity|].
  split; [reflexivity|].
  split; [vm_compute; reflexivity|].
  split; [reflexivity|].
  split; [vm_compute; discriminate|].
  split; vm_compute; reflexivity.
Qed.

(** The figures of a ladder without reinvestment in a new CD: under the
    aggressive fall it earns 1190.99 instead of 1847.09 and ends at
    8893.2425 instead of 9385.3175. *)
Example plain_ladder_strictly_lower :
  exists resultA totalsA resultC totalsC,
    fst (calculateProjections powWhole
           (plainLadderInputs (Some "ratesStayHigh")) 0) = Returned resultA
    /\ totals resultA = Some totalsA
    /\ fst (calculateProjections powWhole
              (plainLadderInputs (Some "ratesFallSignificantly")) 0)
       = Returned resultC
    /\ totals resultC = Some totalsC
    /\ totalInterestEarned totalsA == 184709 # 100
    /\ totalInterestEarned totalsC == 119099 # 100
    /\ finalPortfolioValue totalsA == 3754127 # 400
    /\ finalPortfolioValue totalsC == 3557297 # 400.
Proof.
  eexists. eexists. eexists. eexists.
  split; [vm_compute; reflexivity|].
  split; [reflexivity|].
  split; [vm_compute; reflexivity|].
  split; [reflexivity|].
  repeat split; vm_compute; reflexivity.
Qed.
